(** * Geospatial interaction and hierarchical aggregation engine

    A shallow embedding of three ETL steps of the site-ranking pipeline:

    - [src/etl/tract_site_interactions.py]  (buffer-intersection engine),
    - [src/etl/aggregations.py]             (tract / county / MSA roll-up),
    - [src/etl/geofence_etl.py]             (geofence overlay),

    of the step before them, [src/etl/cleanup_sitedata.py], and of the
    change detection that starts the pipeline,
    [src/utils/change_detection.py] and [run_if_inputs_changed.py].

    Data frames are lists of records, one record per row.  A missing cell
    (pandas [NaN]) is [None] or [CNaN].  The geometry library (shapely /
    geopandas) is an interface, [GeoEngine]: buffering, the [intersects]
    predicate and the geometry kind are operations of that interface.
    Fallible steps return a [result]; logging is an explicit list of
    records.  Definitions come first, theorems afterwards. *)

From Stdlib Require Import Ascii String QArith Qround.
From stdpp Require Import base decidable option list sorting strings pretty.

Close Scope Q_scope.
Open Scope string_scope.
Open Scope list_scope.
Open Scope Z_scope.

(** ** Python and pandas primitives *)

(** A cell of an identifier column as [read_csv] hands it over: an integer,
    a string, or a missing value.  (Float-typed identifier columns are not
    part of the model.) *)
Inductive cell :=
| CInt (z : Z)
| CStr (s : string)
| CNaN.

#[global] Instance cell_eq_dec : EqDecision cell.
Proof. solve_decision. Defined.

(** [Series.astype(str)]: [str] of each cell.  A missing cell is rendered
    as pandas 2 does, [str(nan)], the string ["nan"]; pandas 3 leaves it
    missing, and [nunique] and the keys of a [groupby] then see a missing
    value where this model has the string.  What is stated of counts and of
    sums by region is therefore stated of frames whose identifiers are
    present ([ids_present], [cells_present] below). *)
Definition astype_str (c : cell) : string :=
  match c with
  | CInt z => pretty z
  | CStr s => s
  | CNaN => "nan"
  end.

Fixpoint zeros (n : nat) : string :=
  match n with
  | O => EmptyString
  | S n => String "0"%char (zeros n)
  end.

(** [str.zfill(width)]: a string at least [width] long is returned as it
    is; otherwise zeros are inserted on the left, after a leading sign. *)
Definition zfill (width : nat) (s : string) : string :=
  if (width <=? String.length s)%nat then s
  else
    let pad := zeros (width - String.length s) in
    match s with
    | String c rest =>
        if bool_decide (c = "+"%char ∨ c = "-"%char)
        then String c (pad +:+ rest)
        else pad +:+ s
    | EmptyString => pad
    end.

(** The slice [s[:n]]. *)
Fixpoint str_take (n : nat) (s : string) : string :=
  match n, s with
  | S n, String c rest => String c (str_take n rest)
  | _, _ => EmptyString
  end.

Definition ascii_lower (c : ascii) : ascii :=
  let n := nat_of_ascii c in
  if ((65 <=? n) && (n <=? 90))%nat then ascii_of_nat (n + 32) else c.

Fixpoint lower (s : string) : string :=
  match s with
  | EmptyString => EmptyString
  | String c rest => String (ascii_lower c) (lower rest)
  end.

Fixpoint startswith (p s : string) : bool :=
  match p, s with
  | EmptyString, _ => true
  | String a p, String b s => bool_decide (a = b) && startswith p s
  | _, _ => false
  end.

(** [p in s] on strings. *)
Fixpoint contains (p s : string) : bool :=
  startswith p s ||
  match s with
  | EmptyString => false
  | String _ rest => contains p rest
  end.

Definition endswith (p s : string) : bool :=
  (String.length p <=? String.length s)%nat
  && bool_decide (String.substring (String.length s - String.length p)
                                   (String.length p) s = p).

(** Built-in [round(x)] with one argument: the nearest integer, ties to the
    even one.  On an [int] it is the identity; on a [float] it is exact in
    the float's value, which is a rational. *)
Definition py_round (x : Q) : Z :=
  let f := Qfloor x in
  match Qcompare (x - inject_Z f) (1 # 2) with
  | Lt => f
  | Gt => f + 1
  | Eq => if Z.even f then f else f + 1
  end.

(** Exceptions the three steps raise. *)
Inductive exn :=
| RuntimeError (msg : string)
| ValueError (msg : string)
| KeyError (msg : string)
| FileNotFoundError (msg : string)
| MergeError (msg : string).

Inductive result (A : Type) :=
| Ok (a : A)
| Raise (e : exn).
Arguments Ok {A} a.
Arguments Raise {A} e.

#[global] Instance result_ret : MRet result := λ A a, Ok a.

#[global] Instance result_bind : MBind result := λ A B k r,
  match r with
  | Ok a => k a
  | Raise e => Raise e
  end.

#[global] Instance result_fmap : FMap result := λ A B f r,
  match r with
  | Ok a => Ok (f a)
  | Raise e => Raise e
  end.

Definition is_raise {A} (r : result A) : bool :=
  match r with
  | Ok _ => false
  | Raise _ => true
  end.

(** ** Data-frame operations *)

Section frames.
Context {A K : Type} `{EqDecision K}.

(** [DataFrame.drop_duplicates(subset=key)]: the first row of every key
    stays, in the order of the frame.  [seen] are the keys met so far. *)
Fixpoint drop_duplicates_from (key : A → K) (seen : list K) (l : list A)
  : list A :=
  match l with
  | [] => []
  | x :: l =>
      if decide (key x ∈ seen) then drop_duplicates_from key seen l
      else x :: drop_duplicates_from key (key x :: seen) l
  end.

Definition drop_duplicates (key : A → K) (l : list A) : list A :=
  drop_duplicates_from key [] l.

(** The rows of one group of a [groupby]. *)
Definition group_rows (key : A → K) (k : K) (l : list A) : list A :=
  filter (λ x, key x = k) l.

End frames.

(** [Series.nunique()] (default [dropna=True]): the number of distinct
    values that are not missing. *)
Definition nunique {V} `{EqDecision V} (l : list (option V)) : nat :=
  length (remove_dups (omap id l)).

(** [left.merge(right, on=key, how="left")]: every left row once per right
    row of the same key, or once with the right side missing. *)
Definition merge_left {L R K} `{EqDecision K}
    (lkey : L → K) (rkey : R → K) (left : list L) (right : list R)
  : list (L * option R) :=
  l ← left;
  match filter (λ r, rkey r = lkey l) right with
  | [] => [(l, None)]
  | rs => (λ r, (l, Some r)) <$> rs
  end.

(** Lexicographic order on strings, the order Python and pandas sort
    strings by. *)
Definition str_le (a b : string) : Prop := String.leb a b = true.

#[global] Instance str_le_dec : RelDecision str_le.
Proof. intros a b. unfold str_le. apply _. Defined.

(** ** The geometry interface *)

(** What the steps use of geopandas and shapely.  [buffer p d] is the disc
    of radius [d] (metres, in the projected reference system) around the
    point [p]; [intersects] is the predicate of the spatial join;
    [explode] splits a multi-part geometry into its parts, already
    reprojected to the reference system of the tracts. *)
Class GeoEngine := {
  tract_shape : Type;
  site_point : Type;
  disc : Type;
  fence_shape : Type;
  fence_part : Type;
  buffer : site_point → Q → disc;
  intersects : tract_shape → disc → bool;
  geom_type : tract_shape → string;
  tract_is_empty : tract_shape → bool;
  fence_is_empty : fence_shape → bool;
  explode : fence_shape → list fence_part;
  intersects_fence : tract_shape → fence_part → bool;
}.

(** ** Step 3.3: tract-site interactions ([tract_site_interactions.py]) *)

Module Interactions.
Section engine.
Context `{GeoEngine}.

(** [MI_TO_M = 1609.34], as the exact value of that double. *)
Definition MI_TO_M : Q := 7077952172180111 # 4398046511104.

(** A row of [gdf_sites_m].  [Index_ID] may be missing in some rows: the
    step only refuses a column that is missing in every row. *)
Record site := {
  Index_ID : option Z;
  site_geometry : site_point;
}.

(** A row of [gdf_tracts_m]. *)
Record tract := {
  GEOID : string;
  geometry : tract_shape;
}.

(** A row of [pairs] after the column selection. *)
Record pair_row := {
  Cover_Range : Z;
  Geoid : string;
  pair_Index_ID : option Z;
  Geometry : string;
}.

(** A row of [counts]. *)
Record count_row := {
  count_Cover_Range : Z;
  count_Geoid : string;
  count_value : nat;
}.

(** A row of [pairs_tbl]; the count is the column the left merge brings,
    missing where the merge finds no partner. *)
Record pairs_tbl_row := {
  row_pair : pair_row;
  Count_Tract_Interact_Site_Range : option nat;
}.

#[global] Instance pair_row_eq_dec : EqDecision pair_row.
Proof. solve_decision. Defined.

#[global] Instance pairs_tbl_row_eq_dec : EqDecision pairs_tbl_row.
Proof. solve_decision. Defined.

(** [buf]: every site with its buffer of [MI_TO_M * miles] metres.  (The
    product is a float product in the source; here it is the exact one.) *)
Definition buffered (miles : Q) (sites : list site) : list (site * disc) :=
  (λ s, (s, buffer (site_geometry s) (MI_TO_M * miles)%Q)) <$> sites.

(** The sites whose buffer a tract intersects. *)
Definition matching (t : tract) (buf : list (site * disc)) : list site :=
  fst <$> filter (λ sb, intersects (geometry t) (snd sb) = true) buf.

(** The spatial index answers the query of a tract with the matching
    buffers in an order of its own ([sort=False]); [query_order] is that
    order, a rearrangement of the matches of the tract. *)
Context (query_order : tract → list site → list site).

(** [gpd.sjoin(tracts, buffers, how="inner", predicate="intersects")]: one
    row per intersecting (tract, buffer), the tracts in the order of the left
    frame. *)
Definition sjoin (tracts : list tract) (buf : list (site * disc))
  : list (tract * site) :=
  t ← tracts; pair t <$> query_order t (matching t buf).

Definition pair_key (j : tract * site) : string * option Z :=
  (GEOID (fst j), Index_ID (snd j)).

(** A row of the join as a row of [pairs]: the columns renamed,
    [Cover_Range = round(miles)] and [Geometry] added (the geometry of the
    join result is the tract's) and the four columns selected. *)
Definition mk_pair (miles : Q) (ts : tract * site) : pair_row :=
  {| Cover_Range := py_round miles;
     Geoid := GEOID (fst ts);
     pair_Index_ID := Index_ID (snd ts);
     Geometry := geom_type (geometry (fst ts)) |}.

(** [pairs]: the join deduplicated on (GEOID, Index_ID), then as above. *)
Definition pairs_of_join (miles : Q) (j : list (tract * site))
  : list pair_row :=
  mk_pair miles <$> drop_duplicates pair_key j.

Definition count_key (p : pair_row) : Z * string := (Cover_Range p, Geoid p).

(** The order [groupby] lists its groups in. *)
Definition count_key_le (a b : Z * string) : Prop :=
  fst a < fst b ∨ (fst a = fst b ∧ str_le (snd a) (snd b)).

#[global] Instance count_key_le_dec : RelDecision count_key_le.
Proof. intros a b. unfold count_key_le. apply _. Defined.

(** [pairs.groupby(["Cover_Range", "Geoid"])["Index_ID"].nunique()]. *)
Definition counts_of (pairs : list pair_row) : list count_row :=
  (λ k, {| count_Cover_Range := fst k;
           count_Geoid := snd k;
           count_value :=
             nunique (pair_Index_ID <$> group_rows count_key k pairs) |})
  <$> merge_sort count_key_le (remove_dups (count_key <$> pairs)).

Definition count_rkey (c : count_row) : Z * string :=
  (count_Cover_Range c, count_Geoid c).

(** [pairs.merge(counts, on=["Cover_Range", "Geoid"], how="left")]. *)
Definition pairs_tbl_of (pairs : list pair_row) (counts : list count_row)
  : list pairs_tbl_row :=
  (λ pc, {| row_pair := fst pc;
            Count_Tract_Interact_Site_Range := count_value <$> snd pc |})
  <$> merge_left count_key count_rkey pairs counts.

(** The (tract ID, site ID) of a row of [pairs_tbl]. *)
Definition tbl_key (r : pairs_tbl_row) : string * option Z :=
  (Geoid (row_pair r), pair_Index_ID (row_pair r)).

(** The helper from the join result on. *)
Definition intersect_pairs_with_count_on (miles : Q) (j : list (tract * site))
  : list pairs_tbl_row * list count_row :=
  let pairs := pairs_of_join miles j in
  let counts := counts_of pairs in
  (pairs_tbl_of pairs counts, counts).

(** [intersect_pairs_with_count(miles)], closed over the two layers. *)
Definition intersect_pairs_with_count
    (sites : list site) (tracts : list tract) (miles : Q)
  : list pairs_tbl_row * list count_row :=
  intersect_pairs_with_count_on miles (sjoin tracts (buffered miles sites)).

(** [radii = [0.0005, 1, 2, 3, 5, 25, 75, 100]]; the first is the exact value
    of the double [0.0005]. *)
Definition radii : list Q :=
  [ 1152921504606847 # 2305843009213693952;
    1 # 1; 2 # 1; 3 # 1; 5 # 1; 25 # 1; 75 # 1; 100 # 1 ]%Q.

Inductive log_record :=
| info_computing (miles : Q)
| info_after_dedupe (miles : Q) (n : nat)
| info_radius_pairs (r : Q) (n : nat)
| warning_no_pairs (r : Q)
| error_no_pairs_generated
| error_empty_after_combining
| info_combined (n : nat).

(** The loop over the radii: the log lines and [pairs_all]. *)
Fixpoint radius_loop (sites : list site) (tracts : list tract) (rs : list Q)
  : list log_record * list (list pairs_tbl_row) :=
  match rs with
  | [] => ([], [])
  | r :: rs =>
      let pairs_r := fst (intersect_pairs_with_count sites tracts r) in
      let n := length pairs_r in
      let lines :=
        [info_computing r; info_after_dedupe r n; info_radius_pairs r n]
        ++ (if decide (n = 0%nat) then [warning_no_pairs r] else []) in
      let rest := radius_loop sites tracts rs in
      (lines ++ fst rest, pairs_r :: snd rest)
  end.

(** Missing identifiers sort last, as pandas puts [NaN]. *)
Definition id_le (a b : option Z) : Prop :=
  match a, b with
  | Some x, Some y => x ≤ y
  | _, None => True
  | None, Some _ => False
  end.

#[global] Instance id_le_dec : RelDecision id_le.
Proof. intros [x|] [y|]; simpl; apply _. Defined.

(** The order of [sort_values(["Cover_Range", "Geoid", "Index_ID"])]. *)
Definition row_le (a b : pairs_tbl_row) : Prop :=
  let p := row_pair a in
  let q := row_pair b in
  Cover_Range p < Cover_Range q
  ∨ (Cover_Range p = Cover_Range q
     ∧ (String.ltb (Geoid p) (Geoid q) = true
        ∨ (Geoid p = Geoid q ∧ id_le (pair_Index_ID p) (pair_Index_ID q)))).

#[global] Instance row_le_dec : RelDecision row_le.
Proof. intros a b. unfold row_le. apply _. Defined.

Definition sort_values (rows : list pairs_tbl_row) : list pairs_tbl_row :=
  merge_sort row_le rows.

(** Steps 5 and 6 of [run_tract_site_interactions], from the two projected
    layers on: the log and either the table that is written or the error. *)
Definition run_over_radii
    (sites : list site) (tracts : list tract) (rs : list Q)
  : list log_record * result (list pairs_tbl_row) :=
  let '(lines, pairs_all) := radius_loop sites tracts rs in
  match pairs_all with
  | [] =>
      (lines ++ [error_no_pairs_generated],
       Raise (RuntimeError "No tract-site pairs were generated."))
  | _ =>
      let tract_site_int := concat pairs_all in
      if decide (length tract_site_int = 0%nat) then
        (lines ++ [error_empty_after_combining],
         Raise (RuntimeError
                  "No tract-site pairs were generated (empty output)."))
      else
        (lines ++ [info_combined (length tract_site_int)],
         Ok (sort_values tract_site_int))
  end.

Definition run_tract_site_interactions
    (sites : list site) (tracts : list tract)
  : list log_record * result (list pairs_tbl_row) :=
  run_over_radii sites tracts radii.

End engine.
End Interactions.

(** ** Step 3.3: loading and validating the two layers *)

Module InteractionsLoad.
Import Interactions.

(** The errors of steps 0 to 2 of [run_tract_site_interactions]; a message
    that names a path or a list is cut before it. *)
Definition sites_not_found : exn :=
  FileNotFoundError "[tract_site_interactions] Cleaned sites file not found".

Definition tracts_not_found : exn :=
  FileNotFoundError "[tract_site_interactions] Tract shapefile not found".

Definition missing_site_columns : exn :=
  KeyError
    "[tract_site_interactions] Missing required column(s) in cleaned sites".

Definition index_not_populated : exn :=
  ValueError
    "[tract_site_interactions] Index_ID must be populated for tract–site interactions.".

Definition no_valid_sites : exn :=
  ValueError
    "[tract_site_interactions] No valid sites remain (Latitude/Longitude missing or invalid).".

Definition missing_geoid_column : exn :=
  KeyError
    "[tract_site_interactions] Expected column 'GEOID' in Tract shapefile.".

Definition missing_geometry_column : exn :=
  KeyError
    "[tract_site_interactions] Tract shapefile missing 'geometry' column.".

Definition no_crs : exn :=
  ValueError
    "[tract_site_interactions] Tract shapefile must have a defined CRS.".

Definition no_valid_tracts : exn :=
  ValueError
    "[tract_site_interactions] Tract geometries are empty after filtering invalid geometry.".

(** The errors and the warning of the log, and the count of dropped
    rows. *)
Inductive log_record :=
| error_sites_not_found
| error_tracts_not_found
| error_missing_site_columns (missing : list string)
| error_index_not_populated
| info_dropped_sites (dropped remaining : nat)
| error_no_valid_sites
| error_missing_geoid_column
| error_missing_geometry_column
| error_no_crs
| warning_dropping_empty_tracts (n : nat)
| error_no_valid_tracts.

Section engine.
Context `{GeoEngine}.

(** Degrees, as floats; [site_at lon lat] is the point
    [points_from_xy(lon, lat)] in the metric reference system, and
    [tract_to_crs] the projection of a tract geometry to it. *)
Context {degrees : Type}.
Context (site_at : degrees → degrees → site_point).
Context (tract_to_crs : tract_shape → tract_shape).

(** A row of the cleaned sites file; the coordinates are the cells after
    [pd.to_numeric(errors="coerce")]. *)
Record site_row := {
  row_Index_ID : option Z;
  row_Latitude : option degrees;
  row_Longitude : option degrees;
}.

(** A row of the tract shapefile; the geometry may be missing. *)
Record tract_row := {
  row_GEOID : string;
  row_geometry : option tract_shape;
}.

Record inputs := {
  sites_file_exists : bool;
  tracts_file_exists : bool;
  site_columns : list string;
  site_rows : list site_row;
  tract_columns : list string;
  tract_rows : list tract_row;
  tracts_crs_defined : bool;
}.

Definition has_coordinates (s : site_row) : Prop :=
  is_Some (row_Latitude s) ∧ is_Some (row_Longitude s).

#[global] Instance has_coordinates_dec s : Decision (has_coordinates s).
Proof. unfold has_coordinates. apply _. Defined.

(** [geometry.isna() | geometry.is_empty]. *)
Definition empty_geom (t : tract_row) : Prop :=
  match row_geometry t with
  | Some g => tract_is_empty g = true
  | None => True
  end.

#[global] Instance empty_geom_dec t : Decision (empty_geom t).
Proof. unfold empty_geom. destruct (row_geometry t); apply _. Defined.

(** The rows of [gdf_sites_m] and [gdf_tracts_m]. *)
Definition project_sites (rows : list site_row) : list site :=
  omap (λ s, lat ← row_Latitude s; lon ← row_Longitude s;
             Some {| Index_ID := row_Index_ID s;
                     site_geometry := site_at lon lat |}) rows.

Definition project_tracts (rows : list tract_row) : list tract :=
  omap (λ t, g ← row_geometry t;
             Some {| GEOID := row_GEOID t; geometry := tract_to_crs g |}) rows.

(** Steps 0 to 3 of [run_tract_site_interactions]. *)
Definition load_layers (inp : inputs)
  : list log_record * result (list site * list tract) :=
  if negb (sites_file_exists inp) then
    ([error_sites_not_found], Raise sites_not_found)
  else if negb (tracts_file_exists inp) then
    ([error_tracts_not_found], Raise tracts_not_found)
  else
    let missing_site :=
      filter (λ c, c ∉ site_columns inp) ["Index_ID"; "Latitude"; "Longitude"] in
    match missing_site with
    | _ :: _ =>
        ([error_missing_site_columns missing_site], Raise missing_site_columns)
    | [] =>
        if forallb (λ s, bool_decide (row_Index_ID s = None)) (site_rows inp)
        then ([error_index_not_populated], Raise index_not_populated)
        else
          let df_sites := filter has_coordinates (site_rows inp) in
          let lines1 :=
            [info_dropped_sites (length (site_rows inp) - length df_sites)
               (length df_sites)] in
          if decide (length df_sites = 0%nat) then
            (lines1 ++ [error_no_valid_sites], Raise no_valid_sites)
          else if bool_decide ("GEOID" ∉ tract_columns inp) then
            (lines1 ++ [error_missing_geoid_column],
             Raise missing_geoid_column)
          else if bool_decide ("geometry" ∉ tract_columns inp) then
            (lines1 ++ [error_missing_geometry_column],
             Raise missing_geometry_column)
          else if negb (tracts_crs_defined inp) then
            (lines1 ++ [error_no_crs], Raise no_crs)
          else
            let empty := filter empty_geom (tract_rows inp) in
            let lines2 :=
              match empty with
              | [] => []
              | _ => [warning_dropping_empty_tracts (length empty)]
              end in
            let gdf_tracts := filter (λ t, ¬ empty_geom t) (tract_rows inp) in
            if decide (length gdf_tracts = 0%nat) then
              (lines1 ++ lines2 ++ [error_no_valid_tracts],
               Raise no_valid_tracts)
            else
              (lines1 ++ lines2,
               Ok (project_sites df_sites, project_tracts gdf_tracts))
    end.

End engine.
End InteractionsLoad.

(** ** Step 3.4: aggregations ([aggregations.py]) *)

Module Aggregations.

Definition BUFFERS : list Z := [0; 1; 2; 3; 5; 25; 75; 100].

(** A row of [df_tract_site_interactions]; [Cover_Range] is numeric. *)
Record interaction := {
  Cover_Range : Q;
  Geoid : cell;
  Index_ID : cell;
}.

(** A row of [df_sites], restricted to [site_cols].  [Stalls_Filled] is the
    cell ["#_Stalls_Filled"] as [pd.to_numeric(errors="coerce")] reads it:
    [None] for a missing or non-numeric cell. *)
Record site := {
  site_Index_ID : cell;
  site_Site_Type : option string;
  site_Customer_Segment : option string;
  site_Interested_Party : option string;
  site_Stalls_Filled : option Q;
}.

(** A row of [site_meta]. *)
Record site_meta_row := {
  meta_Index_ID : string;
  Site_Type : option string;
  Customer_Segment : option string;
  Interested_Party : option string;
  Stalls_Filled : Q;
}.

(** A tract-site pair with the county derived from the tract. *)
Record county_pair := {
  Tract_GeoID : string;
  pair_Index_ID : string;
  County_GeoID : string;
}.

(** A row of [msa_map]. *)
Record msa_map_row := {
  map_County_GeoID : string;
  MSA_Name : option Z;
}.

(** A row of the sheet [MasterGeocodeMap]. *)
Record geocode_row := {
  CLEAN_County_Geoid : cell;
  Metropolitan_Division_Code : option Z;
}.

(** A (county, site) pair with the metro code the map gives it. *)
Record msa_pair := {
  msa_county_pair : county_pair;
  pair_MSA_Name : option Z;
}.

#[global] Instance county_pair_eq_dec : EqDecision county_pair.
Proof. solve_decision. Defined.

#[global] Instance msa_map_row_eq_dec : EqDecision msa_map_row.
Proof. solve_decision. Defined.

(** [site_meta]: the identifier as a string, the stalls with [fillna(0)]. *)
Definition site_meta (df_sites : list site) : list site_meta_row :=
  (λ s, {| meta_Index_ID := astype_str (site_Index_ID s);
           Site_Type := site_Site_Type s;
           Customer_Segment := site_Customer_Segment s;
           Interested_Party := site_Interested_Party s;
           Stalls_Filled := default (0 # 1)%Q (site_Stalls_Filled s) |})
  <$> df_sites.

(** [pairs.merge(site_meta, on="Index_ID", how="left",
    validate="many_to_one")]: refused when an identifier occurs twice in
    [site_meta]. *)
Definition merge_site_meta {P} (id_of : P → string)
    (pairs : list P) (meta : list site_meta_row)
  : result (list (P * option site_meta_row)) :=
  if decide (NoDup (meta_Index_ID <$> meta))
  then Ok (merge_left id_of meta_Index_ID pairs meta)
  else Raise (MergeError
    "Merge keys are not unique in right dataset; not a many-to-one merge").

(** The three category columns of an enriched row; all missing where the
    left merge found no site. *)
Definition categories := (option string * (option string * option string))%type.

Definition categories_of (m : option site_meta_row) : categories :=
  match m with
  | Some r => (Site_Type r, (Customer_Segment r, Interested_Party r))
  | None => (None, (None, None))
  end.

(** The stalls of an enriched row; [sum] skips the missing ones. *)
Definition stalls_of (m : option site_meta_row) : Q :=
  match m with
  | Some r => Stalls_Filled r
  | None => (0 # 1)%Q
  end.

Definition Qsum (l : list Q) : Q := foldr Qplus (0 # 1)%Q l.

(** Missing categories sort last. *)
Definition opt_str_le (a b : option string) : Prop :=
  match a, b with
  | Some x, Some y => str_le x y
  | _, None => True
  | None, Some _ => False
  end.

#[global] Instance opt_str_le_dec : RelDecision opt_str_le.
Proof. intros [x|] [y|]; simpl; apply _. Defined.

Definition lex_le {A B} (leA : relation A) (leB : relation B)
  : relation (A * B) :=
  λ x y, (leA (fst x) (fst y) ∧ fst x ≠ fst y)
         ∨ (fst x = fst y ∧ leB (snd x) (snd y)).

#[global] Instance lex_le_dec {A B} `{EqDecision A}
  (leA : relation A) (leB : relation B)
  `{!RelDecision leA} `{!RelDecision leB} : RelDecision (lex_le leA leB).
Proof. intros x y. unfold lex_le. apply _. Defined.

Definition categories_le : relation categories :=
  lex_le opt_str_le (lex_le opt_str_le opt_str_le).

Section aggregate.
Context {R P : Type} `{EqDecision R}.
Context (region_le : relation R) `{!RelDecision region_le}.
Context (region_of : P → R) (id_of : P → string).

(** A row of an aggregate table.  [Region_ID] is the column [Tract_Geoid],
    [County_GeoID] or [Metropolitan Division Code] of the level. *)
Record agg_row := {
  Range_Cover : Z;
  Region_ID : R;
  Count_Customer_Sites : nat;
  agg_categories : categories;
  Total_Stalls_Filled : Q;
}.

Definition group_key (e : P * option site_meta_row) : R * categories :=
  (region_of (fst e), categories_of (snd e)).

(** [groupby([region, "Site-Type", "Customer Segment", "Interested Party"],
    dropna=False).agg(nunique of Index_ID, sum of stalls)], the groups in
    the order of their keys, and [Range_Cover] attached.  The sum is the sum
    of the values of the floats, without the rounding of float addition. *)
Definition aggregate (buffer_miles : Z) (rows : list (P * option site_meta_row))
  : list agg_row :=
  (λ k,
     let g := group_rows group_key k rows in
     {| Range_Cover := buffer_miles;
        Region_ID := fst k;
        Count_Customer_Sites := nunique ((λ e, Some (id_of (fst e))) <$> g);
        agg_categories := snd k;
        Total_Stalls_Filled := Qsum ((λ e, stalls_of (snd e)) <$> g) |})
  <$> merge_sort (lex_le region_le categories_le)
        (remove_dups (group_key <$> rows)).

End aggregate.

Arguments agg_row R : clear implicits.

(** The rows of a buffer: [Cover_Range == buffer_miles]. *)
Definition at_buffer (buffer_miles : Z) (r : interaction) : Prop :=
  Qeq_bool (Cover_Range r) (inject_Z buffer_miles) = true.

#[global] Instance at_buffer_dec b r : Decision (at_buffer b r).
Proof. unfold at_buffer. apply _. Defined.

(** [Tract_GeoID]: [astype(str).str.zfill(11)] of [Geoid]. *)
Definition tract_geoid_of (r : interaction) : string :=
  zfill 11 (astype_str (Geoid r)).

(** Step 1 of every builder: the rows of the buffer, the tract identifier as
    a string padded to 11, the site identifier as a string, no pair twice. *)
Definition tract_site_pairs (buffer_miles : Z) (df : list interaction)
  : list (string * string) :=
  drop_duplicates id
    ((λ r, (tract_geoid_of r, astype_str (Index_ID r)))
     <$> filter (at_buffer buffer_miles) df).

Definition _build_tract_agg_for_buffer
    (buffer_miles : Z) (df_tract_site_interactions : list interaction)
    (df_sites : list site)
  : result (list (agg_row string)) :=
  let pairs := tract_site_pairs buffer_miles df_tract_site_interactions in
  pairs_enriched ← merge_site_meta snd pairs (site_meta df_sites);
  mret (aggregate str_le fst snd buffer_miles pairs_enriched).

(** Step 2 of the county builder: [County_GeoID = Tract_GeoID.str[:5]], then
    no (county, site) twice. *)
Definition county_pairs_of (pairs : list (string * string))
  : list county_pair :=
  drop_duplicates (λ p, (County_GeoID p, pair_Index_ID p))
    ((λ p, {| Tract_GeoID := fst p;
              pair_Index_ID := snd p;
              County_GeoID := str_take 5 (fst p) |}) <$> pairs).

Definition _build_county_agg_for_buffer
    (buffer_miles : Z) (df_tract_site_interactions : list interaction)
    (df_sites : list site)
  : result (list (agg_row string)) :=
  let pairs := tract_site_pairs buffer_miles df_tract_site_interactions in
  let county_pairs := county_pairs_of pairs in
  county_pairs_enriched ←
    merge_site_meta pair_Index_ID county_pairs (site_meta df_sites);
  mret (aggregate str_le County_GeoID pair_Index_ID buffer_miles
          county_pairs_enriched).

(** [_build_msa_map]: the rows with a metro code, the county padded to 5,
    no (county, metro) twice. *)
Definition _build_msa_map (df_geocodemap : list geocode_row)
  : list msa_map_row :=
  drop_duplicates (λ r, (map_County_GeoID r, MSA_Name r))
    ((λ g, {| map_County_GeoID := zfill 5 (astype_str (CLEAN_County_Geoid g));
              MSA_Name := Metropolitan_Division_Code g |})
     <$> filter (λ g, is_Some (Metropolitan_Division_Code g)) df_geocodemap).

(** Step 2 of the metro builder: the county of every pair (slice, then
    [astype(str).str.zfill(5)]), the left merge with [msa_map], the rows
    without a metro code dropped, no (metro, site) twice. *)
Definition msa_county_of (tract_geoid : string) : string :=
  zfill 5 (str_take 5 tract_geoid).

Definition mk_county_pair (p : string * string) : county_pair :=
  {| Tract_GeoID := fst p;
     pair_Index_ID := snd p;
     County_GeoID := msa_county_of (fst p) |}.

Definition msa_pairs_merged (pairs : list (string * string))
    (msa_map : list msa_map_row) : list msa_pair :=
  (λ pm, {| msa_county_pair := fst pm;
            pair_MSA_Name := snd pm ≫= MSA_Name |})
  <$> merge_left County_GeoID map_County_GeoID
        (mk_county_pair <$> pairs) msa_map.

Definition msa_pairs_of (pairs : list (string * string))
    (msa_map : list msa_map_row) : list (county_pair * Z) :=
  drop_duplicates (λ p, (snd p, pair_Index_ID (fst p)))
    (omap (λ p, pair (msa_county_pair p) <$> pair_MSA_Name p)
       (msa_pairs_merged pairs msa_map)).

Definition _build_msa_agg_for_buffer
    (buffer_miles : Z) (df_tract_site_interactions : list interaction)
    (df_sites : list site) (msa_map : list msa_map_row)
  : result (list (agg_row Z)) :=
  let pairs := tract_site_pairs buffer_miles df_tract_site_interactions in
  let msa_pairs := msa_pairs_of pairs msa_map in
  msa_pairs_enriched ←
    merge_site_meta (λ p, pair_Index_ID (fst p)) msa_pairs
      (site_meta df_sites);
  mret (aggregate Z.le snd (λ p, pair_Index_ID (fst p)) buffer_miles
          msa_pairs_enriched).

(** The type normalisation of [run_aggregations]. *)
Definition normalize_interactions (df : list interaction) : list interaction :=
  (λ r, {| Cover_Range := Cover_Range r;
           Geoid := CStr (astype_str (Geoid r));
           Index_ID := CStr (astype_str (Index_ID r)) |}) <$> df.

Definition normalize_sites (df : list site) : list site :=
  (λ s, {| site_Index_ID := CStr (astype_str (site_Index_ID s));
           site_Site_Type := site_Site_Type s;
           site_Customer_Segment := site_Customer_Segment s;
           site_Interested_Party := site_Interested_Party s;
           site_Stalls_Filled := site_Stalls_Filled s |}) <$> df.

(** [run_aggregations] from the three loaded frames, [Cover_Range] checked
    to be numeric, to the three sheets: one frame per buffer and level,
    concatenated; an empty metro map or an empty sheet is an error. *)
Definition run_aggregations
    (df_tract_site_interactions : list interaction)
    (df_sites : list site) (df_geocodemap : list geocode_row)
  : result (list (agg_row string) * list (agg_row string) * list (agg_row Z)) :=
  let df_int := normalize_interactions df_tract_site_interactions in
  let df_s := normalize_sites df_sites in
  tract_frames ← mapM (λ r, _build_tract_agg_for_buffer r df_int df_s) BUFFERS;
  let tract_agg_all := concat tract_frames in
  county_frames ← mapM (λ r, _build_county_agg_for_buffer r df_int df_s) BUFFERS;
  let county_agg_all := concat county_frames in
  let msa_map := _build_msa_map df_geocodemap in
  if decide (length msa_map = 0%nat) then
    Raise (ValueError "MSA map is empty; cannot compute MSA aggregations.")
  else
    msa_frames ←
      mapM (λ r, _build_msa_agg_for_buffer r df_int df_s msa_map) BUFFERS;
    let msa_agg_all := concat msa_frames in
    if decide (length tract_agg_all = 0%nat) then
      Raise (ValueError "Tract aggregation output is empty.")
    else if decide (length county_agg_all = 0%nat) then
      Raise (ValueError "County aggregation output is empty.")
    else if decide (length msa_agg_all = 0%nat) then
      Raise (ValueError "MSA aggregation output is empty.")
    else mret (tract_agg_all, county_agg_all, msa_agg_all).

(** *** Quantities the aggregate rows are compared with *)

Definition no_categories : categories := (None, (None, None)).

(** The number of distinct sites of the whole site table with the given
    site type, customer segment and interested party. *)
Definition sites_matching (cats : categories) (df_sites : list site) : nat :=
  nunique ((λ m, Some (meta_Index_ID m))
           <$> filter (λ m, categories_of (Some m) = cats) (site_meta df_sites)).

(** The number of distinct sites among the pairs of a region. *)
Definition interacting_sites {P R} `{EqDecision R}
    (region_of : P → R) (id_of : P → string) (reg : R) (ps : list P) : nat :=
  nunique ((λ p, Some (id_of p)) <$> filter (λ p, region_of p = reg) ps).

(** The row of [site_meta] a site identifier is merged with. *)
Definition lookup_meta (meta : list site_meta_row) (i : string)
  : option site_meta_row :=
  head (filter (λ m, meta_Index_ID m = i) meta).

(** A county with a row in the county-to-metro map. *)
Definition county_in_map (msa_map : list msa_map_row) (c : string) : Prop :=
  Exists (λ m, map_County_GeoID m = c) msa_map.

#[global] Instance county_in_map_dec msa_map c :
  Decision (county_in_map msa_map c).
Proof. unfold county_in_map. apply _. Defined.

(** *** Frames the builders read exactly *)

(** No interaction of the radius has a missing site identifier. *)
Definition ids_present (buffer_miles : Z) (df : list interaction) : Prop :=
  ∀ r, r ∈ df → at_buffer buffer_miles r → Index_ID r ≠ CNaN.

(** No interaction of the radius has a missing tract or site identifier, and
    no site of the site table has a missing identifier. *)
Definition cells_present (buffer_miles : Z) (df : list interaction)
    (df_sites : list site) : Prop :=
  (∀ r, r ∈ df → at_buffer buffer_miles r →
        Geoid r ≠ CNaN ∧ Index_ID r ≠ CNaN)
  ∧ ∀ s, s ∈ df_sites → site_Index_ID s ≠ CNaN.

(** The [sum] of a group adds 64-bit floats, and [Total_Stalls_Filled]
    above is the sum of their values as rationals.  The two agree when no
    addition rounds: every whole number from 0 to [EXACT_MAX], 2^53, is a
    float, so a sum of whole numbers that are not negative and add up to at
    most [EXACT_MAX] is added exactly, in whatever order. *)
Definition EXACT_MAX : Q := inject_Z (2 ^ 53).

Definition is_whole (q : Q) : bool :=
  Qeq_bool q (inject_Z (Qfloor q)) && (0 <=? Qfloor q)%Z.

(** The stalls of the site table, where present, are whole numbers and not
    negative. *)
Definition whole_stalls (df_sites : list site) : Prop :=
  ∀ s, s ∈ df_sites → from_option is_whole true (site_Stalls_Filled s) = true.

End Aggregations.

(** ** Section 4: geofence overlay ([geofence_etl.py]) *)

Module Geofence.

(** [KNOWN_PARTIES], in the order of the dictionary. *)
Definition KNOWN_PARTIES : list (string * string) :=
  [("uber", "Uber"); ("waymo", "Waymo"); ("zoox", "Zoox"); ("moove", "Moove")].

Definition is_upper (c : ascii) : bool :=
  let n := nat_of_ascii c in ((65 <=? n) && (n <=? 90))%nat.

Definition is_alnum (c : ascii) : bool :=
  let n := nat_of_ascii c in
  (((65 <=? n) && (n <=? 90)) || ((97 <=? n) && (n <=? 122))
   || ((48 <=? n) && (n <=? 57)))%nat.

(** A candidate match of [[A-Z][a-zA-Z0-9]+] is a match when it has at least
    two characters. *)
Definition finish_match (cur : option (list ascii)) : list string :=
  match cur with
  | Some acc =>
      if (2 <=? length acc)%nat then [string_of_list_ascii (rev acc)] else []
  | None => []
  end.

(** [re.findall(r"[A-Z][a-zA-Z0-9]+", s)], scanning from the left; [cur] is
    the candidate being read, last character first. *)
Fixpoint findall_caps_from (cur : option (list ascii)) (s : string)
  : list string :=
  match s with
  | EmptyString => finish_match cur
  | String c rest =>
      match cur with
      | Some acc =>
          if is_alnum c then findall_caps_from (Some (c :: acc)) rest
          else finish_match cur ++ findall_caps_from None rest
      | None =>
          findall_caps_from (if is_upper c then Some [c] else None) rest
      end
  end.

Definition findall_caps (s : string) : list string :=
  findall_caps_from None s.

Definition infer_interested_party (table_name : string) : string :=
  let name := lower table_name in
  match filter (λ kp, contains (fst kp) name = true) KNOWN_PARTIES with
  | kp :: _ => snd kp
  | [] =>
      match findall_caps table_name with
      | c :: _ => c
      | [] => "Unknown"
      end
  end.

(** ASCII white space, what [str.strip()] removes. *)
Definition is_space (c : ascii) : bool :=
  let n := nat_of_ascii c in
  (((9 <=? n) && (n <=? 13)) || ((28 <=? n) && (n <=? 32)))%nat.

Fixpoint lstrip (s : string) : string :=
  match s with
  | String c rest => if is_space c then lstrip rest else s
  | EmptyString => EmptyString
  end.

Fixpoint rstrip (s : string) : string :=
  match s with
  | String c rest =>
      match rstrip rest with
      | EmptyString => if is_space c then EmptyString else String c EmptyString
      | r => String c r
      end
  | EmptyString => EmptyString
  end.

Definition strip (s : string) : string := rstrip (lstrip s).

(** The part of a string from its last dot on. *)
Fixpoint from_last_dot (s : string) : option string :=
  match s with
  | EmptyString => None
  | String c rest =>
      match from_last_dot rest with
      | Some t => Some t
      | None => if bool_decide (c = "."%char) then Some s else None
      end
  end.

(** [Path.suffix]: from the last dot of the name on, unless that dot is the
    first or the last character. *)
Definition path_suffix (name : string) : string :=
  match name with
  | String _ rest =>
      match from_last_dot rest with
      | Some t => if (2 <=? String.length t)%nat then t else EmptyString
      | None => EmptyString
      end
  | EmptyString => EmptyString
  end.

Inductive log_record :=
| info_reading_kml (name : string)
| info_reading_kmz (name : string)
| error_no_kml_in_kmz (name : string)
| warning_multiple_kml (first : string) (all : list string)
| error_empty_kml_entry (name entry : string)
| error_unsupported_type (name : string)
| error_no_features (name : string)
| error_missing_geometry (name : string)
| error_missing_file (name : string)
| info_loading (name : string)
| warning_dropping_empty_geofences (n : nat)
| warning_dropping_empty_tracts (n : nat)
| info_joined_rows (n : nat)
| info_saved (n : nat).

(** An entry name that ends in [.kml], whatever the case. *)
Definition is_kml (n : string) : Prop := endswith ".kml" (lower n) = true.

#[global] Instance is_kml_dec n : Decision (is_kml n).
Proof. unfold is_kml. apply _. Defined.

(** Lines 71 to 83 of [read_geofence_file]: the entry of a KMZ archive that
    is read, given [z.namelist()]. *)
Definition select_kml_entry (path : string) (namelist : list string)
  : list log_record * result string :=
  let kml_names := filter is_kml namelist in
  match kml_names with
  | [] =>
      ([error_no_kml_in_kmz path],
       Raise (ValueError "No .kml found inside KMZ file"))
  | kml_name :: others =>
      ((if decide (1 < length kml_names)%nat
        then [warning_multiple_kml kml_name kml_names] else []),
       Ok kml_name)
  end.

(** [z.open(name).read()]: the archive keeps one entry per name, the last
    one written. *)
Definition zip_read (members : list (string * list Byte.byte)) (name : string)
  : list Byte.byte :=
  match reverse (filter (λ m, fst m = name) members) with
  | m :: _ => snd m
  | [] => []
  end.

Section engine.
Context `{GeoEngine}.

(** A file of the geofence directory: its name, whether it exists, its bytes
    and, when it is a ZIP archive, its entries in the order of
    [ZipFile.namelist()]. *)
Record geofence_file := {
  path_name : string;
  path_exists : bool;
  file_bytes : list Byte.byte;
  zip_members : list (string * list Byte.byte);
}.

(** What [gpd.read_file] makes of a KML document. *)
Inductive name_column := has_Name | has_name | has_no_name.

Record kml_feature := {
  feature_name : option string;
  feature_geometry : fence_shape;
}.

Record kml_frame := {
  has_geometry_column : bool;
  kml_name_column : name_column;
  kml_rows : list kml_feature;
}.

(** A row of the frame [read_geofence_file] returns. *)
Record geofence_row := {
  Name : string;
  Table_Name : string;
  fence_geometry : fence_shape;
}.

Record tract := {
  GEOID : string;
  geometry : tract_shape;
}.

(** [gpd.read_file] on the bytes of a KML document, where it returns a
    frame.  A document the reader refuses, like an archive [ZipFile] cannot
    open, ends the call with the exception of the library; no record is
    written for it with [logger.error], and it is not among the results
    below. *)
Context (read_file : list Byte.byte → kml_frame).

(** The part of [read_geofence_file] after the frame is read. *)
Definition normalize_frame (name : string) (gdf : kml_frame)
  : list log_record * result (list geofence_row) :=
  if decide (length (kml_rows gdf) = 0%nat) then
    ([error_no_features name],
     Raise (ValueError "Geofence file produced no features"))
  else if negb (has_geometry_column gdf) then
    ([error_missing_geometry name],
     Raise (KeyError "Geofence file missing geometry column"))
  else
    ([],
     Ok ((λ f,
            {| Name :=
                 strip (match kml_name_column gdf with
                        | has_no_name => name
                        | _ => default name (feature_name f)
                        end);
               Table_Name := name;
               fence_geometry := feature_geometry f |})
         <$> kml_rows gdf)).

Definition read_geofence_file (path : geofence_file)
  : list log_record * result (list geofence_row) :=
  let name := path_name path in
  if negb (path_exists path) then
    ([error_missing_file name],
     Raise (FileNotFoundError "Missing required input file"))
  else
    let suffix := lower (path_suffix name) in
    if bool_decide (suffix = ".kml") then
      let '(lines, r) := normalize_frame name (read_file (file_bytes path)) in
      (info_reading_kml name :: lines, r)
    else if bool_decide (suffix = ".kmz") then
      let '(lines, r) := select_kml_entry name (fst <$> zip_members path) in
      match r with
      | Raise e => (info_reading_kmz name :: lines, Raise e)
      | Ok kml_name =>
          let kml_bytes := zip_read (zip_members path) kml_name in
          match kml_bytes with
          | [] =>
              (info_reading_kmz name :: lines
                 ++ [error_empty_kml_entry name kml_name],
               Raise (ValueError "Empty .kml found inside KMZ file"))
          | _ =>
              let '(lines', r') := normalize_frame name (read_file kml_bytes) in
              (info_reading_kmz name :: lines ++ lines', r')
          end
      end
    else
      ([error_unsupported_type name], Raise (ValueError "Unsupported file type")).

(** The loop over the sorted directory: other suffixes are skipped, the
    first error ends the run. *)
Fixpoint load_geofences (paths : list geofence_file)
  : list log_record * result (list (list geofence_row)) :=
  match paths with
  | [] => ([], Ok [])
  | path :: paths =>
      let suffix := lower (path_suffix (path_name path)) in
      if bool_decide (suffix = ".kml" ∨ suffix = ".kmz") then
        let '(lines, r) := read_geofence_file path in
        match r with
        | Raise e => (info_loading (path_name path) :: lines, Raise e)
        | Ok gdf =>
            let '(lines', r') := load_geofences paths in
            (info_loading (path_name path) :: lines ++ lines',
             cons gdf <$> r')
        end
      else load_geofences paths
  end.

Definition path_le (a b : geofence_file) : Prop :=
  str_le (path_name a) (path_name b).

#[global] Instance path_le_dec : RelDecision path_le.
Proof. intros a b. unfold path_le. apply _. Defined.

(** A row of the final geofence table. *)
Record geo_row := {
  geo_Tract_GeoID : string;
  geo_Site_Type : string;
  geo_Customer_Segment : string;
  geo_Interested_Party : string;
  geo_Range_Cover : Z;
  geo_Count_Customer_Sites : Z;
  geo_Total_Stalls_Filled : Q;
  geo_Table_Name : string;
  geo_Name : string;
  Tracts_Per_table : nat;
  Tracts_Per_Polygon : nat;
}.

(** [explode(ignore_index=True)]: one row per part. *)
Definition exploded (geofences : list geofence_row)
  : list (geofence_row * fence_part) :=
  g ← geofences; pair g <$> explode (fence_geometry g).

(** [gpd.sjoin(tracts, geofences, how="inner", predicate="intersects")]. *)
Definition tract_geofence_join (tracts : list tract)
    (parts : list (geofence_row * fence_part))
  : list (tract * geofence_row) :=
  t ← tracts;
  (λ gp, (t, fst gp))
  <$> filter (λ gp, intersects_fence (geometry t) (snd gp) = true) parts.

(** Part 3 of [run_geofence]: the constant columns, the party of the file
    name and the two tract counts. *)
Definition build_geo_final (join : list (tract * geofence_row))
  : list geo_row :=
  (λ tg,
     let g := snd tg in
     {| geo_Tract_GeoID := GEOID (fst tg);
        geo_Site_Type := "Customer Interest";
        geo_Customer_Segment := "AV";
        geo_Interested_Party := infer_interested_party (Table_Name g);
        geo_Range_Cover := 0;
        geo_Count_Customer_Sites := 1;
        geo_Total_Stalls_Filled := (75 # 2)%Q;
        geo_Table_Name := Table_Name g;
        geo_Name := Name g;
        Tracts_Per_table :=
          nunique ((λ x, Some (GEOID (fst x)))
                   <$> group_rows (λ x, Table_Name (snd x)) (Table_Name g) join);
        Tracts_Per_Polygon :=
          nunique ((λ x, Some (GEOID (fst x)))
                   <$> group_rows (λ x, (Table_Name (snd x), Name (snd x)))
                         (Table_Name g, Name g) join) |})
  <$> join.

(** Parts 2 and 3 of [run_geofence], from the loaded geofences and the tract
    layer on. *)
Definition overlay (geofences_all : list geofence_row) (tracts : list tract)
    (tracts_crs_defined : bool)
  : list log_record * result (list geo_row) :=
  let empty_geo := filter (λ g, fence_is_empty (fence_geometry g) = true)
                     geofences_all in
  let geofences_poly :=
    filter (λ g, fence_is_empty (fence_geometry g) ≠ true) geofences_all in
  let lines1 := match empty_geo with
                | [] => []
                | _ => [warning_dropping_empty_geofences (length empty_geo)]
                end in
  if decide (length geofences_poly = 0%nat) then
    (lines1, Raise (ValueError "No valid geofence geometries remain"))
  else
    let empty_t := filter (λ t, tract_is_empty (geometry t) = true) tracts in
    let tracts' := filter (λ t, tract_is_empty (geometry t) ≠ true) tracts in
    let lines2 := match empty_t with
                  | [] => []
                  | _ => [warning_dropping_empty_tracts (length empty_t)]
                  end in
    if decide (length tracts' = 0%nat) then
      (lines1 ++ lines2,
       Raise (ValueError "Tract shapefile has no valid geometries"))
    else if negb tracts_crs_defined then
      (lines1 ++ lines2, Raise (ValueError "Tract shapefile has no CRS defined"))
    else
      let join := tract_geofence_join tracts' (exploded geofences_poly) in
      if decide (length join = 0%nat) then
        (lines1 ++ lines2, Raise (ValueError "Spatial join produced 0 rows"))
      else
        let geo_final := build_geo_final join in
        if decide (length geo_final = 0%nat) then
          (lines1 ++ lines2 ++ [info_joined_rows (length join)],
           Raise (ValueError "Final geofence tract table is empty"))
        else
          (lines1 ++ lines2
             ++ [info_joined_rows (length join); info_saved (length geo_final)],
           Ok geo_final).

(** [run_geofence], from the listing of the geofence directory and the tract
    layer on. *)
Definition run_geofence (listing : list geofence_file) (tracts : list tract)
    (tracts_crs_defined : bool)
  : list log_record * result (list geo_row) :=
  let '(lines, r) := load_geofences (merge_sort path_le listing) in
  match r with
  | Raise e => (lines, Raise e)
  | Ok [] => (lines, Raise (RuntimeError "No KML/KMZ files found"))
  | Ok geofence_gdfs =>
      let '(lines', r') :=
        overlay (concat geofence_gdfs) tracts tracts_crs_defined in
      (lines ++ lines', r')
  end.

(** The constant columns of a row of the final table. *)
Definition fixed_attributes (row : geo_row) : Prop :=
  geo_Site_Type row = "Customer Interest"
  ∧ geo_Customer_Segment row = "AV"
  ∧ geo_Range_Cover row = 0
  ∧ geo_Count_Customer_Sites row = 1
  ∧ geo_Total_Stalls_Filled row = (75 # 2)%Q.

End engine.
End Geofence.

(** *** The sheets of [run_aggregations] *)

Module Sheets.
Import Aggregations.
Implicit Types (df : list interaction) (df_sites : list site).

(** The three sheets [run_aggregations] concatenates when no builder raises:
    the table of every buffer, the merge with the site table done. *)
Definition tract_sheet df df_sites : list (agg_row string) :=
  concat ((λ b, aggregate str_le fst snd b
             ((λ p, (p, lookup_meta (site_meta df_sites) (snd p)))
              <$> tract_site_pairs b df)) <$> BUFFERS).

Definition county_sheet df df_sites : list (agg_row string) :=
  concat ((λ b, aggregate str_le County_GeoID pair_Index_ID b
             ((λ p, (p, lookup_meta (site_meta df_sites) (pair_Index_ID p)))
              <$> county_pairs_of (tract_site_pairs b df))) <$> BUFFERS).

Definition msa_sheet df df_sites msa_map : list (agg_row Z) :=
  concat ((λ b, aggregate Z.le snd (λ p, pair_Index_ID (fst p)) b
             ((λ p, (p, lookup_meta (site_meta df_sites)
                          (pair_Index_ID (fst p))))
              <$> msa_pairs_of (tract_site_pairs b df) msa_map)) <$> BUFFERS).

(** Some interaction is at one of the buffers. *)
Definition has_pairs df : Prop :=
  ∃ r b, r ∈ df ∧ b ∈ BUFFERS ∧ at_buffer b r.

(** Some interaction at one of the buffers is in a county of the map. *)
Definition has_mapped_pairs df (msa_map : list msa_map_row) : Prop :=
  ∃ r b, r ∈ df ∧ b ∈ BUFFERS ∧ at_buffer b r
         ∧ county_in_map msa_map (msa_county_of (tract_geoid_of r)).

End Sheets.

(** *** Predicates on the geofence step *)

Module GeofencePredicates.
Import Geofence.

(** A word as [[A-Z][a-zA-Z0-9]+] matches it: an upper-case letter and then
    at least one letter or digit. *)
Definition capitalised_word (s : string) : bool :=
  match s with
  | String c rest =>
      is_upper c && (1 <=? String.length rest)%nat
      && forallb is_alnum (list_ascii_of_string rest)
  | EmptyString => false
  end.

(** The records written with [logger.error]. *)
Definition is_error (line : log_record) : bool :=
  match line with
  | error_no_kml_in_kmz _ | error_empty_kml_entry _ _
  | error_unsupported_type _ | error_no_features _
  | error_missing_geometry _ | error_missing_file _ => true
  | _ => false
  end.

Section engine.
Context `{GeoEngine}.

(** A file the loop of [run_geofence] reads: suffix [.kml] or [.kmz], in
    any case of the letters. *)
Definition has_geofence_suffix (p : geofence_file) : Prop :=
  lower (path_suffix (path_name p)) = ".kml"
  ∨ lower (path_suffix (path_name p)) = ".kmz".

#[global] Instance has_geofence_suffix_dec p : Decision (has_geofence_suffix p).
Proof. unfold has_geofence_suffix. apply _. Defined.

End engine.
End GeofencePredicates.

(** ** Step 3.2: cleaning the site data ([cleanup_sitedata.py]) *)

Module Cleanup.

Definition REQUIRED_COLUMNS : list string :=
  ["Market"; "State"; "City"; "Interested Party"; "Site"; "Street";
   "Voltera or Customer Interest"; "Sum of #_Stalls_Filled"; "Latitude";
   "Longitude"; "County"; "Zip"; "Full FIPS (tract)"; "Customer Segment"].

(** A row of the raw file, read with [dtype=str]: every cell is a string or
    missing.  Of the required columns the row keeps those the step computes
    with; [Market], [State] and [City] are carried to the output as
    [Customer Segment] is, and [Street], [County] and [Zip] are dropped. *)
Record raw_site := {
  raw_Site : option string;
  raw_Site_Type : option string;
  raw_Stalls : option string;
  raw_Customer_Segment : option string;
  raw_Interested_Party : option string;
  raw_Latitude : option string;
  raw_Longitude : option string;
  raw_FIPS : option string;
}.

Record raw_frame := {
  columns : list string;
  raw_rows : list raw_site;
}.

(** [astype(str)] on a column of strings: a missing cell becomes ["nan"]. *)
Definition str_cell (c : option string) : string := default "nan" c.

(** Text of the ASCII range.  On it [\d] is [0-9], [\D] is every other
    character, and [str.strip()] removes the white space of
    [Geofence.is_space]; beyond it Python also knows the decimal digits and
    the white space of other scripts, which [is_digit] and [Geofence.strip]
    do not. *)
Definition is_ascii (s : string) : bool :=
  forallb (λ c, (nat_of_ascii c <? 128)%nat) (list_ascii_of_string s).

(** [\d] on ASCII text. *)
Definition is_digit (c : ascii) : bool :=
  let n := nat_of_ascii c in ((48 <=? n) && (n <=? 57))%nat.

Definition all_digits (s : string) : bool :=
  forallb is_digit (list_ascii_of_string s).

(** [raw_fips]: the cell as a string, stripped by the loop over the ID-like
    columns and stripped again. *)
Definition raw_fips (r : raw_site) : string :=
  Geofence.strip (str_cell (Some (Geofence.strip (str_cell (raw_FIPS r))))).

(** The FIPS cells of the raw file, where present, are ASCII text. *)
Definition ascii_fips (df : raw_frame) : Prop :=
  ∀ x, x ∈ raw_rows df → from_option is_ascii true (raw_FIPS x) = true.

(** The column names of the raw file are ASCII text. *)
Definition ascii_columns (df : raw_frame) : Prop :=
  ∀ c, c ∈ columns df → is_ascii c = true.

(** [str.contains(r"\D")]. *)
Definition invalid_raw (s : string) : Prop := all_digits s = false.

#[global] Instance invalid_raw_dec s : Decision (invalid_raw s).
Proof. unfold invalid_raw. apply _. Defined.

(** [~str.match(r"^\d{11}$")], on a string without a line break. *)
Definition invalid_padded (s : string) : Prop :=
  ¬ (String.length s = 11%nat ∧ all_digits s = true).

#[global] Instance invalid_padded_dec s : Decision (invalid_padded s).
Proof. unfold invalid_padded. apply _. Defined.

(** The errors, the warnings and the row counts of the log. *)
Inductive log_record :=
| error_input_not_found
| error_missing_columns (missing : list string)
| error_non_digit_fips (bad_count : nat) (example : string)
| error_invalid_padded_fips (bad_count : nat) (example : string)
| warning_duplicate_sites (n : nat)
| info_rows_after_dedupe (n : nat)
| warning_missing_coords (n : nat)
| error_zero_rows
| info_final_rows (n : nat).

(** The errors of the step; a message that names a path or a list is cut
    before it. *)
Definition input_not_found : exn :=
  FileNotFoundError "[cleanup_sitedata] Input site file not found".

Definition missing_columns : exn :=
  KeyError "[cleanup_sitedata] Missing required columns".

Definition non_digit_fips : exn :=
  ValueError
    "[cleanup_sitedata] Tract FIPS must contain only digits before padding.".

Definition invalid_padded_fips : exn :=
  ValueError
    "[cleanup_sitedata] Invalid 11-digit Tract FIPS detected after padding.".

Definition zero_rows : exn :=
  ValueError "[cleanup_sitedata] Cleaning resulted in 0 rows.".

(** The order of [sort_values("Site")]: missing names last. *)
Definition site_le (a b : raw_site * string) : Prop :=
  Aggregations.opt_str_le (raw_Site (fst a)) (raw_Site (fst b)).

#[global] Instance site_le_dec : RelDecision site_le.
Proof. intros a b. unfold site_le. apply _. Defined.

Section engine.
(** Floats, [pd.to_numeric(errors="coerce")] on a cell ([None] for what is
    not a number) and [Series.mean(skipna=True)] of the numbers of a column
    ([None] for NaN, as for an empty column). *)
Context {num : Type}.
Context (to_numeric : option string → option num).
Context (mean : list num → option num).

(** A row of the cleaned file. *)
Record clean_site := {
  Index_ID : Z;
  Site : option string;
  Site_Type : option string;
  Stalls_Filled : option num;
  Customer_Segment : option string;
  Interested_Party : option string;
  Latitude : option num;
  Longitude : option num;
  Full_FIPS : string;
}.

(** Steps 4 to 9, from the rows with their padded FIPS on. *)
Definition finish_cleanup (padded : list (raw_site * string))
  : list log_record * list clean_site :=
  let dup_sites :=
    filter (λ p, (1 < length (filter (λ q, raw_Site (fst q) = raw_Site (fst p))
                                padded))%nat) padded in
  let lines1 := if decide (0 < length dup_sites)%nat
                then [warning_duplicate_sites (length dup_sites)] else [] in
  let deduped := drop_duplicates (λ p, raw_Site (fst p)) padded in
  let stalls := (λ p, to_numeric (raw_Stalls (fst p))) <$> deduped in
  let mean_stalls := mean (omap id stalls) in
  let sorted := merge_sort site_le deduped in
  let final :=
    imap (λ i p,
       {| Index_ID := Z.of_nat i + 1;
          Site := raw_Site (fst p);
          Site_Type := raw_Site_Type (fst p);
          Stalls_Filled :=
            match to_numeric (raw_Stalls (fst p)) with
            | Some x => Some x
            | None => mean_stalls
            end;
          Customer_Segment := raw_Customer_Segment (fst p);
          Interested_Party := raw_Interested_Party (fst p);
          Latitude := to_numeric (raw_Latitude (fst p));
          Longitude := to_numeric (raw_Longitude (fst p));
          Full_FIPS := snd p |}) sorted in
  let missing_coords :=
    (length (filter (λ r, ¬ is_Some (Latitude r)) final)
     + length (filter (λ r, ¬ is_Some (Longitude r)) final))%nat in
  let lines2 := if decide (0 < missing_coords)%nat
                then [warning_missing_coords missing_coords] else [] in
  (lines1 ++ [info_rows_after_dedupe (length deduped)] ++ lines2, final).

(** [run_cleanup_sitedata], from the raw frame on. *)
Definition run_cleanup_sitedata (input_exists : bool) (df_raw : raw_frame)
  : list log_record * result (list clean_site) :=
  if negb input_exists then
    ([error_input_not_found],
     Raise input_not_found)
  else
    let cols := Geofence.strip <$> columns df_raw in
    let missing := filter (λ c, c ∉ cols) REQUIRED_COLUMNS in
    match missing with
    | _ :: _ =>
        ([error_missing_columns missing],
         Raise missing_columns)
    | [] =>
        let fips := raw_fips <$> raw_rows df_raw in
        match filter invalid_raw fips with
        | example :: bad =>
            ([error_non_digit_fips (length (example :: bad)) example],
             Raise non_digit_fips)
        | [] =>
            let padded :=
              (λ r, (r, zfill 11 (raw_fips r))) <$> raw_rows df_raw in
            match filter invalid_padded (snd <$> padded) with
            | example :: bad =>
                ([error_invalid_padded_fips (length (example :: bad)) example],
                 Raise invalid_padded_fips)
            | [] =>
                let '(lines, final) := finish_cleanup padded in
                if decide (length final = 0%nat) then
                  (lines ++ [error_zero_rows], Raise zero_rows)
                else
                  (lines ++ [info_final_rows (length final)], Ok final)
            end
        end
    end.

End engine.
End Cleanup.

(** ** Change detection ([change_detection.py], [run_if_inputs_changed.py]) *)

Module ChangeDetection.

(** The order of [sorted] on paths below one folder: the lists of their
    parts, compared part by part. *)
Fixpoint parts_le (a b : list string) : bool :=
  match a, b with
  | [], _ => true
  | _ :: _, [] => false
  | x :: a, y :: b =>
      if bool_decide (x = y) then parts_le a b else String.leb x y
  end.

(** [str] of a relative path: the parts joined by a slash. *)
Fixpoint join_parts (parts : list string) : string :=
  match parts with
  | [] => "."
  | [x] => x
  | x :: rest => x +:+ "/" +:+ join_parts rest
  end.

(** The errors of the signatures: [FileNotFoundError] for a missing folder,
    [NotADirectoryError], and the [FileNotFoundError] of [path.stat()]. *)
Inductive fs_error :=
| FolderNotFound (path : string)
| NotADirectory (path : string)
| FileNotFound (path : string).

Section engine.
(** File times: floats, of which the code uses the equality, the order and
    the value [0.0]. *)
Context {time : Type} `{EqDecision time}.
Context (time_le : relation time) `{!RelDecision time_le}.
Context (zero : time).

(** What [rglob] finds below a folder: the parts of the path relative to
    the folder, and the [stat] of the entry. *)
Record fs_entry := {
  rel_parts : list string;
  entry_is_file : bool;
  st_size : Z;
  st_mtime : time;
}.

Inductive folder :=
| missing_folder
| not_a_folder
| dir (entries : list fs_entry).

Record file_entry := {
  rel_path : string;
  size_bytes : Z;
  mtime_epoch : time;
}.

Record folder_signature := {
  folder_path : string;
  file_count : nat;
  total_size_bytes : Z;
  latest_mtime_epoch : time;
  files : list file_entry;
}.

Record file_signature := {
  file_path : string;
  file_size_bytes : Z;
  file_mtime_epoch : time;
}.

#[global] Instance file_entry_eq_dec : EqDecision file_entry.
Proof. solve_decision. Defined.

#[global] Instance folder_signature_eq_dec : EqDecision folder_signature.
Proof. solve_decision. Defined.

#[global] Instance file_signature_eq_dec : EqDecision file_signature.
Proof. solve_decision. Defined.

Definition entry_le (a b : fs_entry) : Prop :=
  parts_le (rel_parts a) (rel_parts b) = true.

#[global] Instance entry_le_dec : RelDecision entry_le.
Proof. intros a b. unfold entry_le. apply _. Defined.

(** [max(..., default=0.0)]: the first of the largest values. *)
Definition latest (l : list time) : time :=
  match l with
  | [] => zero
  | t :: ts => foldl (λ m x, if decide (time_le x m) then m else x) t ts
  end.

(** The suffix of the last part of the path. *)
Definition entry_suffix (e : fs_entry) : string :=
  lower (Geofence.path_suffix (default EmptyString (last (rel_parts e)))).

Definition included (include_exts : list string) (e : fs_entry) : Prop :=
  entry_is_file e = true
  ∧ (include_exts = [] ∨ entry_suffix e ∈ lower <$> include_exts).

#[global] Instance included_dec exts e : Decision (included exts e).
Proof. unfold included. apply _. Defined.

Definition _folder_signature (path : string) (f : folder)
    (include_exts : list string) : fs_error + folder_signature :=
  match f with
  | missing_folder => inl (FolderNotFound path)
  | not_a_folder => inl (NotADirectory path)
  | dir found =>
      let entries :=
        (λ p, {| rel_path := join_parts (rel_parts p);
                 size_bytes := st_size p;
                 mtime_epoch := st_mtime p |})
        <$> filter (included include_exts) (merge_sort entry_le found) in
      inr {| folder_path := path;
             file_count := length entries;
             total_size_bytes := foldr Z.add 0 (size_bytes <$> entries);
             latest_mtime_epoch := latest (mtime_epoch <$> entries);
             files := entries |}
  end.

(** [path.stat()] of [settings.yaml]: missing, or its size and time. *)
Definition _file_signature (path : string) (st : option (Z * time))
  : fs_error + file_signature :=
  match st with
  | None => inl (FileNotFound path)
  | Some (size, mtime) =>
      inr {| file_path := path;
             file_size_bytes := size;
             file_mtime_epoch := mtime |}
  end.

(** A fingerprint: the dictionary with the four keys. *)
Record fingerprint := {
  computed_at_utc : string;
  known_sites : folder_signature;
  geofence : folder_signature;
  settings_yaml : file_signature;
}.

(** The three watched inputs, with their paths. *)
Record watched := {
  known_sites_dir : string * folder;
  geofence_dir : string * folder;
  settings_file : string * option (Z * time);
}.

Definition compute_watch_fingerprint (now : string) (w : watched)
  : fs_error + fingerprint :=
  match _folder_signature (fst (known_sites_dir w)) (snd (known_sites_dir w)) []
  with
  | inl e => inl e
  | inr ks =>
      match _folder_signature (fst (geofence_dir w)) (snd (geofence_dir w))
              [".kml"; ".kmz"] with
      | inl e => inl e
      | inr gf =>
          match _file_signature (fst (settings_file w)) (snd (settings_file w))
          with
          | inl e => inl e
          | inr sy =>
              inr {| computed_at_utc := now;
                     known_sites := ks;
                     geofence := gf;
                     settings_yaml := sy |}
          end
      end
  end.

(** A fingerprint as a dictionary: [None] is the empty dictionary, which
    [load_fingerprint] returns when there is no stored file.  Popping
    [computed_at_utc] leaves the three signatures. *)
Definition pop_computed_at (d : option fingerprint)
  : option (folder_signature * folder_signature * file_signature) :=
  (λ f, (known_sites f, geofence f, settings_yaml f)) <$> d.

Definition fingerprints_equal (fp_a fp_b : option fingerprint) : bool :=
  bool_decide (pop_computed_at fp_a = pop_computed_at fp_b).

(** What a run of [run_if_inputs_changed.main] leaves: the stored
    fingerprint, the exit code, and whether the full refresh was started.
    The stored file holds the fingerprint as it was saved: [json.load]
    gives back what [json.dump] wrote. *)
Record outcome := {
  stored_after : option fingerprint;
  exit_code : Z;
  refresh_started : bool;
}.

(** [main], from the watched inputs, the stored fingerprint and the time;
    [returncode] is the exit code of the refresh process, should it be
    started. *)
Definition main (stored : option fingerprint) (now : string) (w : watched)
    (returncode : Z) : fs_error + outcome :=
  match compute_watch_fingerprint now w with
  | inl e => inl e
  | inr current_fp =>
      let previous_fp := stored in
      if bool_decide (is_Some previous_fp)
         && fingerprints_equal previous_fp (Some current_fp)
      then inr {| stored_after := stored; exit_code := 0;
                  refresh_started := false |}
      else if bool_decide (returncode ≠ 0)
      then inr {| stored_after := stored; exit_code := returncode;
                  refresh_started := true |}
      else inr {| stored_after := Some current_fp; exit_code := 0;
                  refresh_started := true |}
  end.

End engine.
End ChangeDetection.

(** ** A geometry on the line, to run the steps on

    Tracts are closed intervals of integers with a kind, sites are integer
    points, a buffer is the closed interval around the point, a geofence is a
    list of closed intervals; [intersects] is inclusive of the end points. *)

Module LineGeometry.

Record segment := {
  lo : Q;
  hi : Q;
  kind : string;
}.

Definition overlap (a_lo a_hi b_lo b_hi : Q) : bool :=
  Qle_bool a_lo b_hi && Qle_bool b_lo a_hi.

#[global] Instance line_engine : GeoEngine := {|
  tract_shape := segment;
  site_point := Q;
  disc := Q * Q;
  fence_shape := list (Q * Q);
  fence_part := Q * Q;
  buffer := λ p d, ((p - d)%Q, (p + d)%Q);
  intersects := λ t b, overlap (lo t) (hi t) (fst b) (snd b);
  geom_type := kind;
  tract_is_empty := λ t, negb (Qle_bool (lo t) (hi t));
  fence_is_empty := λ f, match f with [] => true | _ => false end;
  explode := λ f, f;
  intersects_fence := λ t p, overlap (lo t) (hi t) (fst p) (snd p);
|}.

Definition polygon (a b : Z) : segment :=
  {| lo := inject_Z a; hi := inject_Z b; kind := "Polygon" |}.

Definition multipolygon (a b : Z) : segment :=
  {| lo := inject_Z a; hi := inject_Z b; kind := "MultiPolygon" |}.

End LineGeometry.

(** ** Sample inputs *)

Module Examples.
Import LineGeometry.

(** Two orders a spatial index can answer in. *)
Definition index_order : Interactions.tract → list Interactions.site
                         → list Interactions.site := λ _ l, l.

Definition reversed_order : Interactions.tract → list Interactions.site
                            → list Interactions.site := λ _ l, reverse l.

(** Three sites, one without identifier, and two neighbouring tracts. *)
Definition sites_m : list Interactions.site :=
  [ {| Interactions.Index_ID := Some 7;
       Interactions.site_geometry := inject_Z 5 |};
    {| Interactions.Index_ID := Some 8;
       Interactions.site_geometry := inject_Z 12 |};
    {| Interactions.Index_ID := None;
       Interactions.site_geometry := inject_Z 5 |} ].

Definition tracts_m : list Interactions.tract :=
  [ {| Interactions.GEOID := "01001020100";
       Interactions.geometry := polygon 0 10 |};
    {| Interactions.GEOID := "01001020200";
       Interactions.geometry := multipolygon 10 20 |} ].

(** A tract next to the first site: out of reach of the epsilon buffer,
    within a mile. *)
Definition tracts_near : list Interactions.tract :=
  [ {| Interactions.GEOID := "01001020300";
       Interactions.geometry := polygon 6 10 |} ].

(** A tract half a metre from the first site: within the epsilon buffer,
    which is some 0.8 metres wide, and not met by the site itself. *)
Definition tracts_close : list Interactions.tract :=
  [ {| Interactions.GEOID := "01001020400";
       Interactions.geometry :=
         {| lo := 11 # 2; hi := inject_Z 10; kind := "Polygon" |} |} ].

(** A tract far from every site. *)
Definition tracts_far : list Interactions.tract :=
  [ {| Interactions.GEOID := "02001000100";
       Interactions.geometry := polygon 900000000 900000001 |} ].

Definition interaction_row (cover : Z) (geoid index : cell)
  : Aggregations.interaction :=
  {| Aggregations.Cover_Range := inject_Z cover;
     Aggregations.Geoid := geoid;
     Aggregations.Index_ID := index |}.

Definition site_row (index : Z) (type segment : string) (party : option string)
    (stalls : option Q) : Aggregations.site :=
  {| Aggregations.site_Index_ID := CInt index;
     Aggregations.site_Site_Type := Some type;
     Aggregations.site_Customer_Segment := Some segment;
     Aggregations.site_Interested_Party := party;
     Aggregations.site_Stalls_Filled := stalls |}.

(** Interactions whose tract identifiers were partly read as numbers. *)
Definition df_interactions : list Aggregations.interaction :=
  [ interaction_row 5 (CInt 1001020100) (CInt 1);
    interaction_row 5 (CInt 1001020100) (CInt 2);
    interaction_row 5 (CStr "01001020200") (CInt 1);
    interaction_row 5 (CStr "36061000100") (CInt 3);
    interaction_row 0 (CStr "01001020100") (CInt 1) ].

Definition df_sites : list Aggregations.site :=
  [ site_row 1 "Hub" "AV" (Some "Waymo") (Some (inject_Z 10));
    site_row 2 "Hub" "AV" (Some "Waymo") None;
    site_row 3 "Depot" "Fleet" None (Some (inject_Z 4)) ].

(** County 01001 is in a metro division, county 36061 is not. *)
Definition df_geocodemap : list Aggregations.geocode_row :=
  [ {| Aggregations.CLEAN_County_Geoid := CInt 1001;
       Aggregations.Metropolitan_Division_Code := Some 33860 |};
    {| Aggregations.CLEAN_County_Geoid := CStr "36061";
       Aggregations.Metropolitan_Division_Code := None |} ].

(** Interactions with a site, 9, that the site table does not have. *)
Definition df_unknown_site : list Aggregations.interaction :=
  [ interaction_row 5 (CStr "01001020100") (CInt 1);
    interaction_row 5 (CStr "01001020100") (CInt 9) ].

(** The interactions of a county that is not in the metro map. *)
Definition df_unmapped : list Aggregations.interaction :=
  [ interaction_row 5 (CStr "36061000100") (CInt 3);
    interaction_row 5 (CStr "36061000200") (CInt 1) ].

(** A reader of KML documents: one unnamed two-unit polygon per byte,
    starting at the value of the byte. *)
Definition read_file (doc : list Byte.byte) : Geofence.kml_frame :=
  {| Geofence.has_geometry_column := true;
     Geofence.kml_name_column := Geofence.has_no_name;
     Geofence.kml_rows :=
       (λ c, {| Geofence.feature_name := None;
                Geofence.feature_geometry :=
                  [ (inject_Z (Z.of_N (Byte.to_N c)),
                     inject_Z (Z.of_N (Byte.to_N c) + 2)) ] |}) <$> doc |}.

(** An archive whose entries are not in lexical order. *)
Definition two_kml_archive : Geofence.geofence_file :=
  {| Geofence.path_name := "waymo_zones.kmz";
     Geofence.path_exists := true;
     Geofence.file_bytes := [];
     Geofence.zip_members :=
       [ ("readme.txt", [Byte.x00]);
         ("zone_b.kml", [Byte.x02]);
         ("zone_a.kml", [Byte.x0c]) ] |}.

Definition one_kml_archive : Geofence.geofence_file :=
  {| Geofence.path_name := "zoox.kmz";
     Geofence.path_exists := true;
     Geofence.file_bytes := [];
     Geofence.zip_members := [ ("doc.KML", [Byte.x02]) ] |}.

Definition fence_tracts : list Geofence.tract :=
  [ {| Geofence.GEOID := "01001020100"; Geofence.geometry := polygon 0 5 |};
    {| Geofence.GEOID := "01001020200"; Geofence.geometry := polygon 10 20 |} ].

Definition fence_zone : Geofence.geofence_row :=
  {| Geofence.Name := "zone";
     Geofence.Table_Name := "waymo_zone.kml";
     Geofence.fence_geometry := [ (inject_Z 2, inject_Z 3) ] |}.

End Examples.

(** ** More sample inputs *)

Module MoreExamples.
Import LineGeometry Examples.

(** A text file in the geofence folder, and an archive without entries. *)
Definition notes_file : Geofence.geofence_file :=
  {| Geofence.path_name := "notes.txt";
     Geofence.path_exists := true;
     Geofence.file_bytes := [Byte.x01];
     Geofence.zip_members := [] |}.

Definition empty_archive : Geofence.geofence_file :=
  {| Geofence.path_name := "uber.kmz";
     Geofence.path_exists := true;
     Geofence.file_bytes := [];
     Geofence.zip_members := [] |}.

(** Numbers written with digits only, and the mean rounded down, in place
    of the floats. *)
Definition digit_value (c : ascii) : Z := Z.of_nat (nat_of_ascii c) - 48.

Definition to_numeric (cell : option string) : option Z :=
  match cell with
  | Some (String c rest) =>
      if Cleanup.all_digits (String c rest)
      then Some (foldl (λ n d, 10 * n + digit_value d) 0
                   (list_ascii_of_string (String c rest)))
      else None
  | _ => None
  end.

Definition mean (l : list Z) : option Z :=
  match l with
  | [] => None
  | _ => Some (foldr Z.add 0 l / Z.of_nat (length l))
  end.

Definition raw_row (site : string) (stalls : option string) (fips : string)
  : Cleanup.raw_site :=
  {| Cleanup.raw_Site := Some site;
     Cleanup.raw_Site_Type := Some "Voltera";
     Cleanup.raw_Stalls := stalls;
     Cleanup.raw_Customer_Segment := Some "AV";
     Cleanup.raw_Interested_Party := Some "Waymo";
     Cleanup.raw_Latitude := Some "33";
     Cleanup.raw_Longitude := None;
     Cleanup.raw_FIPS := Some fips |}.

(** A raw file with a site listed twice and a FIPS without its leading
    zero. *)
Definition raw_sites : Cleanup.raw_frame :=
  {| Cleanup.columns := " Index " :: Cleanup.REQUIRED_COLUMNS;
     Cleanup.raw_rows :=
       [ raw_row "Beta" (Some "10") "1001020100";
         raw_row "Alpha" None " 36061000100 ";
         raw_row "Beta" (Some "4") "01001020200" ] |}.

(** The same file with a block-group identifier in a row that would be
    dropped as a duplicate. *)
Definition raw_sites_long : Cleanup.raw_frame :=
  {| Cleanup.columns := Cleanup.REQUIRED_COLUMNS;
     Cleanup.raw_rows :=
       [ raw_row "Beta" (Some "10") "1001020100";
         raw_row "Beta" (Some "4") "360610001001" ] |}.

Definition file_at (parts : list string) (size mtime : Z)
  : ChangeDetection.fs_entry :=
  {| ChangeDetection.rel_parts := parts;
     ChangeDetection.entry_is_file := true;
     ChangeDetection.st_size := size;
     ChangeDetection.st_mtime := mtime |}.

(** A geofence folder with two geofence files, a text file and a
    subfolder, and the same folder listed in another order with the text
    file changed. *)
Definition geofence_folder : list (@ChangeDetection.fs_entry Z) :=
  [ file_at ["zones"; "b.kml"] 300 50;
    file_at ["a.KMZ"] 200 70;
    file_at ["notes.txt"] 10 90;
    {| ChangeDetection.rel_parts := ["zones"];
       ChangeDetection.entry_is_file := false;
       ChangeDetection.st_size := 4096;
       ChangeDetection.st_mtime := 95 |} ].

Definition geofence_folder_touched : list (@ChangeDetection.fs_entry Z) :=
  [ file_at ["notes.txt"] 11 99;
    file_at ["a.KMZ"] 200 70;
    file_at ["zones"; "b.kml"] 300 50 ].

Definition watched_inputs : @ChangeDetection.watched Z :=
  {| ChangeDetection.known_sites_dir :=
       ("data/known-sites",
        ChangeDetection.dir [ file_at ["sites.csv"] 1000 40 ]);
     ChangeDetection.geofence_dir :=
       ("data/geofence-data", ChangeDetection.dir geofence_folder);
     ChangeDetection.settings_file := ("config/settings.yaml", Some (120, 30)) |}.

End MoreExamples.

Module LoadExamples.
Import LineGeometry.

(** A sites file whose only row with an identifier has no coordinates, and
    a tract file with one tract without geometry. *)
Definition layer_inputs : @InteractionsLoad.inputs line_engine Q :=
  {| InteractionsLoad.sites_file_exists := true;
     InteractionsLoad.tracts_file_exists := true;
     InteractionsLoad.site_columns :=
       ["Index_ID"; "Site"; "Latitude"; "Longitude"];
     InteractionsLoad.site_rows :=
       [ {| InteractionsLoad.row_Index_ID := Some 1;
            InteractionsLoad.row_Latitude := None;
            InteractionsLoad.row_Longitude := Some (inject_Z 5) |};
         {| InteractionsLoad.row_Index_ID := None;
            InteractionsLoad.row_Latitude := Some (inject_Z 0);
            InteractionsLoad.row_Longitude := Some (inject_Z 12) |} ];
     InteractionsLoad.tract_columns := ["GEOID"; "geometry"];
     InteractionsLoad.tract_rows :=
       [ {| InteractionsLoad.row_GEOID := "01001020100";
            InteractionsLoad.row_geometry := Some (polygon 0 10) |};
         {| InteractionsLoad.row_GEOID := "01001020200";
            InteractionsLoad.row_geometry := None |} ];
     InteractionsLoad.tracts_crs_defined := true |}.

(** On the line a site is at its longitude, and the projection of a tract
    is the tract. *)
Definition site_on_line (lon lat : Q) : @site_point line_engine := lon.

Definition same_shape (g : @tract_shape line_engine)
  : @tract_shape line_engine := g.

End LoadExamples.

(** * Theorems *)

#[local] Set Warnings "-clear-no-such-hyp".


(** ** Facts on the data-frame operations *)

Section frames_facts.
Context {A K : Type} `{EqDecision K}.
Implicit Types (key : A → K) (l : list A) (seen : list K).

Lemma elem_of_drop_duplicates_from key seen l x :
  x ∈ drop_duplicates_from key seen l ↔
  (key x ∉ seen) ∧ head (filter (λ y, key y = key x) l) = Some x.
Proof.
  revert seen. induction l as [|y l IH]; intros seen; simpl.
  - rewrite elem_of_nil. naive_solver.
  - destruct (decide (key y ∈ seen)) as [Hin|Hnin].
    + rewrite IH. rewrite filter_cons.
      destruct (decide (key y = key x)) as [Heq|Hne]; [|done].
      rewrite Heq in Hin. naive_solver.
    + rewrite elem_of_cons, IH, filter_cons, not_elem_of_cons.
      destruct (decide (key y = key x)) as [Heq|Hne]; simpl.
      * split.
        -- intros [->|[[Hx _] _]]; [done|congruence].
        -- intros [_ [= ->]]. by left.
      * split.
        -- intros [->|[[_ Hs] Hh]]; [done|done].
        -- intros [Hs Hh]. right. split; [split|]; [congruence|done|done].
Qed.

Lemma elem_of_drop_duplicates key l x :
  x ∈ drop_duplicates key l ↔ head (filter (λ y, key y = key x) l) = Some x.
Proof.
  unfold drop_duplicates. rewrite elem_of_drop_duplicates_from.
  rewrite elem_of_nil. naive_solver.
Qed.

Lemma drop_duplicates_subseteq key l x :
  x ∈ drop_duplicates key l → x ∈ l.
Proof.
  rewrite elem_of_drop_duplicates. intros Hh.
  apply head_Some_elem_of in Hh.
  by apply list_elem_of_filter in Hh as [_ ?].
Qed.

Lemma NoDup_drop_duplicates_from key seen l :
  NoDup (key <$> drop_duplicates_from key seen l).
Proof.
  revert seen. induction l as [|y l IH]; intros seen; simpl.
  - constructor.
  - destruct (decide (key y ∈ seen)); [apply IH|].
    rewrite fmap_cons. constructor; [|apply IH].
    rewrite list_elem_of_fmap. intros (x & Hk & Hx).
    apply elem_of_drop_duplicates_from in Hx as [Hx _].
    apply Hx. rewrite Hk. by left.
Qed.

Lemma NoDup_drop_duplicates key l : NoDup (key <$> drop_duplicates key l).
Proof. apply NoDup_drop_duplicates_from. Qed.

(** Every key of the frame keeps a row. *)
Lemma drop_duplicates_keeps_keys key l x :
  x ∈ l → ∃ y, y ∈ drop_duplicates key l ∧ key y = key x.
Proof.
  intros Hx.
  destruct (head (filter (λ y, key y = key x) l)) as [y|] eqn:Hh.
  - exists y. pose proof Hh as Hy.
    apply head_Some_elem_of, list_elem_of_filter in Hy as [Hk _].
    split; [|done]. apply elem_of_drop_duplicates. by rewrite Hk.
  - apply head_None in Hh.
    assert (x ∈ filter (λ y, key y = key x) l) as Hf
      by (by apply list_elem_of_filter).
    rewrite Hh in Hf. by apply elem_of_nil in Hf.
Qed.

(** Dropping duplicates commutes with a filter on the key. *)
Lemma drop_duplicates_from_filter key (P : K → Prop) `{∀ k, Decision (P k)}
    seen seen' l :
  (∀ k, P k → (k ∈ seen ↔ k ∈ seen')) →
  drop_duplicates_from key seen (filter (λ x, P (key x)) l)
  = filter (λ x, P (key x)) (drop_duplicates_from key seen' l).
Proof.
  revert seen seen'. induction l as [|y l IH]; intros seen seen' Hs; [done|].
  rewrite filter_cons. simpl.
  destruct (decide (P (key y))) as [HP|HP]; simpl.
  - destruct (decide (key y ∈ seen)) as [Hy|Hy];
      destruct (decide (key y ∈ seen')) as [Hy'|Hy'];
      try (by apply Hs in HP; tauto); [by apply IH|].
    rewrite filter_cons. destruct (decide (P (key y))); [|done].
    f_equal. apply IH. intros k Hk. rewrite !elem_of_cons. by rewrite Hs.
  - destruct (decide (key y ∈ seen')) as [Hy'|Hy']; [by apply IH|].
    rewrite filter_cons. destruct (decide (P (key y))); [done|].
    apply IH. intros k Hk. rewrite elem_of_cons, Hs by done.
    split; [tauto|]. intros [->|?]; [done|done].
Qed.

Lemma drop_duplicates_filter key (P : K → Prop) `{∀ k, Decision (P k)} l :
  drop_duplicates key (filter (λ x, P (key x)) l)
  = filter (λ x, P (key x)) (drop_duplicates key l).
Proof. by apply drop_duplicates_from_filter. Qed.

(** A frame without duplicate keys is left as it is. *)
Lemma drop_duplicates_from_id key seen l :
  NoDup (key <$> l) → (∀ x, x ∈ l → key x ∉ seen) →
  drop_duplicates_from key seen l = l.
Proof.
  revert seen. induction l as [|y l IH]; intros seen Hnd Hs; [done|].
  simpl. apply NoDup_cons in Hnd as [Hy Hnd].
  destruct (decide (key y ∈ seen)) as [Hin|_].
  - exfalso. by apply (Hs y); [left|].
  - f_equal. apply IH; [done|]. intros x Hx. rewrite not_elem_of_cons.
    split; [|apply Hs; by right].
    intros Heq. apply Hy. rewrite <- Heq. by apply list_elem_of_fmap_2.
Qed.

End frames_facts.

Section merge_facts.
Context {L R K : Type} `{EqDecision K}.
Implicit Types (lkey : L → K) (rkey : R → K).

(** In a frame without duplicate keys a key selects its row only. *)
Lemma filter_key_unique rkey (right : list R) r :
  NoDup (rkey <$> right) → r ∈ right →
  filter (λ r', rkey r' = rkey r) right = [r].
Proof.
  induction right as [|y l IH]; intros Hnd Hr; [by apply elem_of_nil in Hr|].
  rewrite fmap_cons in Hnd. apply NoDup_cons in Hnd as [Hy Hnd].
  rewrite filter_cons.
  destruct (decide (rkey y = rkey r)) as [Heq|Hne].
  - assert (filter (λ r', rkey r' = rkey r) l = []) as ->.
    { destruct (filter _ l) as [|z ?] eqn:Hf; [done|]. exfalso.
      assert (z ∈ filter (λ r', rkey r' = rkey r) l) as Hz
        by (rewrite Hf; by left).
      apply list_elem_of_filter in Hz as [Hk Hz].
      apply Hy. rewrite Heq, <- Hk. by apply list_elem_of_fmap_2. }
    apply elem_of_cons in Hr as [->|Hr]; [done|].
    exfalso. apply Hy. rewrite Heq. by apply list_elem_of_fmap_2.
  - apply elem_of_cons in Hr as [->|Hr]; [done|]. by apply IH.
Qed.

(** With unique keys on the right, the left merge keeps every left row
    once, with the right row of its key if there is one. *)
Lemma merge_left_unique lkey rkey (left : list L) (right : list R) :
  NoDup (rkey <$> right) →
  merge_left lkey rkey left right
  = (λ l, (l, head (filter (λ r, rkey r = lkey l) right))) <$> left.
Proof.
  intros Hnd. unfold merge_left.
  induction left as [|l left IH]; [done|].
  rewrite bind_cons, fmap_cons, IH. clear IH.
  destruct (filter (λ r, rkey r = lkey l) right) as [|r rs] eqn:Hf; [done|].
  assert (r ∈ filter (λ r, rkey r = lkey l) right) as Hr
    by (rewrite Hf; by left).
  apply list_elem_of_filter in Hr as [Hk Hr].
  rewrite <- Hk in Hf. rewrite (filter_key_unique rkey right r) in Hf by done.
  by simplify_eq.
Qed.

End merge_facts.

Section count_facts.
Context {V : Type} `{EqDecision V}.

Lemma length_remove_dups_equiv (l1 l2 : list V) :
  (∀ x, x ∈ l1 ↔ x ∈ l2) →
  length (remove_dups l1) = length (remove_dups l2).
Proof.
  intros Heq. apply Permutation_length, NoDup_Permutation;
    [apply NoDup_remove_dups..|].
  intros x. by rewrite !elem_of_remove_dups.
Qed.

Lemma length_remove_dups_NoDup (l : list V) :
  NoDup l → length (remove_dups l) = length l.
Proof.
  intros Hnd. apply Permutation_length, NoDup_Permutation;
    [apply NoDup_remove_dups|done|].
  intros x. by rewrite elem_of_remove_dups.
Qed.

Lemma omap_id_Some (l : list V) : omap id (Some <$> l) = l.
Proof. induction l as [|x l IH]; [done|]. by rewrite fmap_cons; simpl; f_equal. Qed.

Lemma elem_of_omap_id (l : list (option V)) x :
  x ∈ omap id l ↔ Some x ∈ l.
Proof. rewrite list_elem_of_omap. naive_solver. Qed.

(** [nunique] depends on the set of values only. *)
Lemma nunique_equiv (l1 l2 : list (option V)) :
  (∀ x, Some x ∈ l1 ↔ Some x ∈ l2) → nunique l1 = nunique l2.
Proof.
  intros Heq. apply length_remove_dups_equiv.
  intros x. by rewrite !elem_of_omap_id.
Qed.

Lemma nunique_NoDup (l : list V) :
  NoDup l → nunique (Some <$> l) = length l.
Proof.
  intros Hnd. unfold nunique. rewrite (omap_id_Some l).
  by apply length_remove_dups_NoDup.
Qed.

(** [nunique] is at most the size of any frame that holds the values. *)
Lemma nunique_le (l : list (option V)) (k : list V) :
  (∀ x, Some x ∈ l → x ∈ k) → (nunique l ≤ length k)%nat.
Proof.
  intros Hsub. apply submseteq_length, NoDup_submseteq;
    [apply NoDup_remove_dups|].
  intros x. rewrite elem_of_remove_dups, elem_of_omap_id. apply Hsub.
Qed.

End count_facts.

Section group_facts.
Context {A K : Type} `{EqDecision K}.

Lemma length_filter_split (P : A → Prop) `{∀ x, Decision (P x)} (l : list A) :
  (length (filter P l) + length (filter (λ x, ¬ P x) l) = length l)%nat.
Proof.
  rewrite <- length_app. apply Permutation_length, filter_app_complement.
Qed.

(** The groups of a [groupby] partition the frame. *)
Lemma sum_group_lengths (key : A → K) (ks : list K) (l : list A) :
  NoDup ks → (∀ x, x ∈ l → key x ∈ ks) →
  sum_list ((λ k, length (group_rows key k l)) <$> ks) = length l.
Proof.
  unfold group_rows. revert l.
  induction ks as [|k ks IH]; intros l Hnd Hin.
  - destruct l as [|x l]; [done|]. specialize (Hin x ltac:(by left)).
    by apply elem_of_nil in Hin.
  - apply NoDup_cons in Hnd as [Hk Hnd]. rewrite fmap_cons. simpl.
    rewrite <- (length_filter_split (λ x, key x = k) l). f_equal.
    rewrite <- (IH (filter (λ x, ¬ key x = k) l)); [|done|].
    + f_equal. apply list_fmap_ext. intros i k' Hk'.
      apply list_elem_of_lookup_2 in Hk'.
      rewrite list_filter_filter. f_equal.
      symmetry. apply list_filter_iff. intros x. split; [by intros [? _]|].
      intros Hx. split; [done|]. intros Hx'. apply Hk. congruence.
    + intros x [Hne Hx]%list_elem_of_filter.
      specialize (Hin x Hx). apply elem_of_cons in Hin as [?|?]; done.
Qed.

End group_facts.

Lemma filter_fmap {A B} (f : A → B) (P : B → Prop) `{∀ y, Decision (P y)}
    (l : list A) :
  filter P (f <$> l) = f <$> filter (λ x, P (f x)) l.
Proof.
  induction l as [|x l IH]; [done|].
  rewrite fmap_cons, !filter_cons. destruct (decide (P (f x))); [|done].
  by rewrite fmap_cons, IH.
Qed.

Lemma elem_of_concat {A} (x : A) (ls : list (list A)) :
  x ∈ concat ls ↔ ∃ l, x ∈ l ∧ l ∈ ls.
Proof.
  induction ls as [|l ls IH]; simpl.
  - rewrite elem_of_nil. split; [done|]. by intros (? & _ & ?%elem_of_nil).
  - rewrite elem_of_app, IH. split.
    + intros [?|(l' & ? & ?)]; [exists l|exists l']; split; try done;
        [by left|by right].
    + intros (l' & ? & [->|?]%elem_of_cons); [by left|right; by exists l'].
Qed.

(** ** Step 3.3: the buffer-intersection pass *)

Section interactions_facts.
Import Interactions.
Context `{GeoEngine}.
Context (query_order : tract → list site → list site).

Abbreviation pass := (intersect_pairs_with_count query_order).

Lemma NoDup_pairs_of_join miles j :
  NoDup ((λ p, (Geoid p, pair_Index_ID p)) <$> pairs_of_join miles j).
Proof.
  unfold pairs_of_join. rewrite <- list_fmap_compose.
  apply (NoDup_drop_duplicates pair_key).
Qed.

Lemma counts_of_keys pairs :
  count_rkey <$> counts_of pairs
  = merge_sort count_key_le (remove_dups (count_key <$> pairs)).
Proof.
  unfold counts_of. rewrite <- list_fmap_compose.
  rewrite <- (list_fmap_id (merge_sort _ _)) at 2.
  apply list_fmap_ext. by intros ? [??] _.
Qed.

Lemma NoDup_counts_of pairs : NoDup (count_rkey <$> counts_of pairs).
Proof.
  rewrite counts_of_keys, merge_sort_Permutation. apply NoDup_remove_dups.
Qed.

(** The count attached to a pair is the count of its group. *)
Lemma pairs_tbl_of_counts pairs :
  pairs_tbl_of pairs (counts_of pairs)
  = (λ p, {| row_pair := p;
             Count_Tract_Interact_Site_Range :=
               Some (nunique (pair_Index_ID
                              <$> group_rows count_key (count_key p) pairs)) |})
    <$> pairs.
Proof.
  unfold pairs_tbl_of.
  rewrite (merge_left_unique count_key count_rkey) by apply NoDup_counts_of.
  rewrite <- list_fmap_compose. apply list_fmap_ext. intros i p Hp. simpl.
  apply list_elem_of_lookup_2 in Hp. f_equal.
  set (c := {| count_Cover_Range := fst (count_key p);
               count_Geoid := snd (count_key p);
               count_value :=
                 nunique (pair_Index_ID
                          <$> group_rows count_key (count_key p) pairs) |}).
  assert (c ∈ counts_of pairs) as Hc.
  { unfold counts_of. apply list_elem_of_fmap. exists (count_key p).
    split; [done|]. rewrite merge_sort_Permutation, elem_of_remove_dups.
    by apply list_elem_of_fmap_2. }
  change (count_key p) with (count_rkey c) at 1.
  by rewrite (filter_key_unique count_rkey _ c) by (apply NoDup_counts_of || done).
Qed.

Lemma pass_table sites tracts miles :
  fst (pass sites tracts miles)
  = let pairs :=
      pairs_of_join miles (sjoin query_order tracts (buffered miles sites)) in
    (λ p, {| row_pair := p;
             Count_Tract_Interact_Site_Range :=
               Some (nunique (pair_Index_ID
                              <$> group_rows count_key (count_key p) pairs)) |})
    <$> pairs.
Proof. apply pairs_tbl_of_counts. Qed.

(** C1. In the table of one radius pass no two rows have the same
    (tract ID, site ID), and the count attached to a row is the number of
    distinct site IDs among the rows of the table that share the row's
    (Cover_Range, Geoid). *)
Theorem pairs_unique_and_counted sites tracts miles :
  let tbl := fst (pass sites tracts miles) in
  NoDup (tbl_key <$> tbl)
  ∧ ∀ r, r ∈ tbl →
      Count_Tract_Interact_Site_Range r
      = Some (nunique
                ((λ r', pair_Index_ID (row_pair r'))
                 <$> filter (λ r', count_key (row_pair r')
                                   = count_key (row_pair r)) tbl)).
Proof.
  cbv zeta. rewrite pass_table. cbv zeta.
  set (pairs := pairs_of_join miles _). split.
  - rewrite <- list_fmap_compose. apply NoDup_pairs_of_join.
  - intros r (p & -> & Hp)%list_elem_of_fmap. simpl. do 2 f_equal.
    rewrite filter_fmap, <- list_fmap_compose. done.
Qed.

Lemma pass_Cover_Range sites tracts miles r :
  r ∈ fst (pass sites tracts miles) → Cover_Range (row_pair r) = py_round miles.
Proof.
  rewrite pass_table. cbv zeta.
  intros (p & -> & Hp)%list_elem_of_fmap. simpl.
  unfold pairs_of_join in Hp. by apply list_elem_of_fmap in Hp as (x & -> & _).
Qed.

(** *** The loop over the radii *)

Lemma radius_loop_cons sites tracts r rs :
  radius_loop query_order sites tracts (r :: rs)
  = (([info_computing r;
       info_after_dedupe r (length (fst (pass sites tracts r)));
       info_radius_pairs r (length (fst (pass sites tracts r)))]
      ++ (if decide (length (fst (pass sites tracts r)) = 0%nat)
          then [warning_no_pairs r] else []))
     ++ fst (radius_loop query_order sites tracts rs),
     fst (pass sites tracts r)
     :: snd (radius_loop query_order sites tracts rs)).
Proof. reflexivity. Qed.

Lemma radius_loop_frames sites tracts rs :
  snd (radius_loop query_order sites tracts rs)
  = (λ r, fst (pass sites tracts r)) <$> rs.
Proof.
  induction rs as [|r rs IH]; [done|].
  rewrite radius_loop_cons, fmap_cons. simpl. by rewrite IH.
Qed.

Lemma radius_loop_warning sites tracts rs r :
  warning_no_pairs r ∈ fst (radius_loop query_order sites tracts rs)
  ↔ r ∈ rs ∧ fst (pass sites tracts r) = [].
Proof.
  induction rs as [|r' rs IH].
  - simpl. rewrite !elem_of_nil. tauto.
  - rewrite radius_loop_cons. cbn [fst].
    rewrite !elem_of_app, IH, !elem_of_cons, elem_of_nil.
    destruct (decide (length (fst (pass sites tracts r')) = 0%nat)) as [He|He].
    + apply length_zero_iff_nil in He.
      rewrite list_elem_of_singleton. split.
      * intros [[[?|[?|[?|[]]]]|[= ->]]|[??]]; try done; tauto.
      * intros [[->|?] ?]; [left; by right|tauto].
    + rewrite elem_of_nil. split.
      * intros [[[?|[?|[?|[]]]]|[]]|[??]]; try done; tauto.
      * intros [[->|?] Hr]; [|tauto]. rewrite Hr in He. done.
Qed.

Lemma radius_loop_info sites tracts rs r :
  r ∈ rs →
  info_radius_pairs r (length (fst (pass sites tracts r)))
  ∈ fst (radius_loop query_order sites tracts rs).
Proof.
  induction rs as [|r' rs IH]; [by intros ?%elem_of_nil|].
  rewrite radius_loop_cons. cbn [fst]. rewrite !elem_of_app.
  intros [->|Hr]%elem_of_cons.
  - left. left. do 2 right. by left.
  - right. by apply IH.
Qed.

Lemma run_over_radii_spec sites tracts rs :
  let run := run_over_radii query_order sites tracts rs in
  let frames := (λ r, fst (pass sites tracts r)) <$> rs in
  (∀ r, warning_no_pairs r ∈ fst run
        ↔ r ∈ rs ∧ fst (pass sites tracts r) = [])
  ∧ (∀ r, r ∈ rs →
          info_radius_pairs r (length (fst (pass sites tracts r))) ∈ fst run)
  ∧ (is_raise (snd run) = true ↔ concat frames = [])
  ∧ (∀ t, snd run = Ok t → t ≡ₚ concat frames).
Proof.
  cbv zeta. unfold run_over_radii.
  pose proof (radius_loop_frames sites tracts rs) as Hf.
  pose proof (radius_loop_warning sites tracts rs) as Hw.
  pose proof (radius_loop_info sites tracts rs) as Hi.
  destruct (radius_loop query_order sites tracts rs) as [lines pairs_all].
  cbn [fst snd] in Hf, Hw, Hi. rewrite <- Hf.
  assert (∀ (last : log_record) r,
            (∀ r', last ≠ warning_no_pairs r') →
            warning_no_pairs r ∈ lines ++ [last]
            ↔ r ∈ rs ∧ fst (pass sites tracts r) = []) as Hw'.
  { intros last r Hl. rewrite elem_of_app, list_elem_of_singleton, Hw.
    split; [|tauto]. intros [?|?]; [done|]. by destruct (Hl r). }
  destruct pairs_all as [|frame frames].
  - simpl. split; [|split; [|split]]; [| |done|done].
    + intros r. by apply Hw'.
    + intros r Hr. apply elem_of_app. left. by apply Hi.
  - destruct (decide (length (concat (frame :: frames)) = 0%nat)) as [He|He];
      cbn [fst snd is_raise].
    + split; [|split; [|split]]; [| | |done].
      * intros r. by apply Hw'.
      * intros r Hr. apply elem_of_app. left. by apply Hi.
      * by apply length_zero_iff_nil in He.
    + split; [|split; [|split]].
      * intros r. by apply Hw'.
      * intros r Hr. apply elem_of_app. left. by apply Hi.
      * split; [done|]. intros Hnil. exfalso. apply He.
        by apply length_zero_iff_nil.
      * intros t [= <-]. apply merge_sort_Permutation.
Qed.

(** C6. In a run over the configured radii a warning is logged for exactly
    the passes without pairs, every radius is processed whatever the earlier
    passes produced, and the run raises if and only if the frames of all
    radii together hold no pair; otherwise its table is made of all of
    them. *)
Theorem zero_pairs_warning_not_fatal sites tracts :
  let run := run_tract_site_interactions query_order sites tracts in
  let frames := (λ r, fst (pass sites tracts r)) <$> radii in
  (∀ r, warning_no_pairs r ∈ fst run
        ↔ r ∈ radii ∧ fst (pass sites tracts r) = [])
  ∧ (∀ r, r ∈ radii →
          info_radius_pairs r (length (fst (pass sites tracts r))) ∈ fst run)
  ∧ (is_raise (snd run) = true ↔ concat frames = [])
  ∧ (∀ t, snd run = Ok t → t ≡ₚ concat frames).
Proof.
  cbv zeta. unfold run_tract_site_interactions.
  destruct (run_over_radii_spec sites tracts radii)
    as (Hwarning & Hinfo & Hraise & Htable).
  split; [exact Hwarning|]. split; [exact Hinfo|].
  split; [exact Hraise|exact Htable].
Qed.

Lemma elem_of_drop_duplicates_keys {A K} `{EqDecision K} (key : A → K) l k :
  k ∈ key <$> drop_duplicates key l ↔ k ∈ key <$> l.
Proof.
  rewrite !list_elem_of_fmap. split.
  - intros (x & -> & Hx%drop_duplicates_subseteq). by exists x.
  - intros (x & -> & Hx).
    apply (drop_duplicates_keeps_keys key) in Hx as (y & Hy & Hk).
    by exists y.
Qed.

Lemma elem_of_sjoin tracts buf t s :
  (∀ t l, query_order t l ≡ₚ l) →
  (t, s) ∈ sjoin query_order tracts buf
  ↔ t ∈ tracts ∧ ∃ d, (s, d) ∈ buf ∧ intersects (geometry t) d = true.
Proof.
  intros Ho. unfold sjoin. rewrite list_elem_of_bind. split.
  - intros (t' & (s' & [= <- <-] & Hs)%list_elem_of_fmap & Ht).
    split; [done|]. rewrite Ho in Hs. unfold matching in Hs.
    apply list_elem_of_fmap in Hs as ([s'' d] & -> & Hsd).
    apply list_elem_of_filter in Hsd as [Hi Hsd]. by exists d.
  - intros (Ht & d & Hsd & Hi). exists t. split; [|done].
    apply list_elem_of_fmap. exists s. split; [done|].
    rewrite Ho. unfold matching. apply list_elem_of_fmap.
    exists (s, d). split; [done|]. by apply list_elem_of_filter.
Qed.

Lemma pass_keys sites tracts miles :
  tbl_key <$> fst (pass sites tracts miles)
  = pair_key <$> drop_duplicates pair_key
                   (sjoin query_order tracts (buffered miles sites)).
Proof.
  rewrite pass_table. cbv zeta. unfold pairs_of_join.
  by rewrite <- !list_fmap_compose.
Qed.

(** C5. The first configured radius is a strictly positive epsilon, and the
    rows of its pass, the 0-mile tier, are the tracts and sites of which the
    tract meets the buffer of that strictly positive radius around the site;
    every row of a pass carries the pass's [radius_miles] rounded to the
    nearest integer; the epsilon pass is labelled 0 and the labels of the
    configured radii are 0, 1, 2, 3, 5, 25, 75, 100, the only labels in the
    table of a run. *)
Theorem zero_tier_epsilon_and_labels :
  (∃ eps rest, radii = eps :: rest
     ∧ (0 < eps)%Q ∧ (0 < MI_TO_M * eps)%Q ∧ py_round eps = 0
     ∧ ((∀ t l, query_order t l ≡ₚ l) → ∀ sites tracts g i,
          (g, i) ∈ tbl_key <$> fst (pass sites tracts eps)
          ↔ ∃ t s, t ∈ tracts ∧ s ∈ sites ∧ GEOID t = g ∧ Index_ID s = i
                ∧ intersects (geometry t)
                    (buffer (site_geometry s) (MI_TO_M * eps)%Q) = true))
  ∧ (∀ sites miles s d, (s, d) ∈ buffered miles sites →
       d = buffer (site_geometry s) (MI_TO_M * miles)%Q)
  ∧ (∀ sites tracts miles r, r ∈ fst (pass sites tracts miles) →
       Cover_Range (row_pair r) = py_round miles)
  ∧ py_round <$> radii = [0; 1; 2; 3; 5; 25; 75; 100]
  ∧ (∀ sites tracts t r,
       snd (run_tract_site_interactions query_order sites tracts) = Ok t →
       r ∈ t → Cover_Range (row_pair r) ∈ [0; 1; 2; 3; 5; 25; 75; 100]).
Proof.
  split; [|split; [|split; [|split]]].
  - eexists _, _. split; [reflexivity|].
    split; [by vm_compute|]. split; [by vm_compute|]. split; [by vm_compute|].
    intros Ho sites tracts g i.
    rewrite pass_keys, elem_of_drop_duplicates_keys, list_elem_of_fmap.
    split.
    + intros ([t s] & [= -> ->] & Hts).
      apply (elem_of_sjoin _ _ _ _ Ho) in Hts as (Ht & d & Hsd & Hi).
      apply list_elem_of_fmap in Hsd as (s' & [= <- ->] & Hs).
      by exists t, s.
    + intros (t & s & Ht & Hs & <- & <- & Hi). exists (t, s).
      split; [done|]. apply (elem_of_sjoin _ _ _ _ Ho). split; [done|].
      eexists. split; [|exact Hi].
      apply list_elem_of_fmap. by exists s.
  - intros sites miles s d (s' & [= -> ->] & _)%list_elem_of_fmap. done.
  - intros sites tracts miles r. apply pass_Cover_Range.
  - by vm_compute.
  - intros sites tracts t r Ht Hr.
    destruct (run_over_radii_spec sites tracts radii) as (_ & _ & _ & Hp).
    rewrite (Hp t Ht) in Hr.
    apply elem_of_concat in Hr as (frame & Hr & Hframe).
    apply list_elem_of_fmap in Hframe as (miles & -> & Hmiles).
    rewrite (pass_Cover_Range _ _ _ _ Hr).
    change [0; 1; 2; 3; 5; 25; 75; 100] with (py_round <$> radii).
    by apply list_elem_of_fmap_2.
Qed.

End interactions_facts.

(** *** Independence of the order of the spatial index *)

Section determinism.
Import Interactions.
Context `{GeoEngine}.
Implicit Types (o : tract → list site → list site).

(** The first row of a key within the matches of one tract: the row of the
    tract and the key, whichever match comes first. *)
Lemma block_first_row miles t (ms : list site) k :
  mk_pair miles <$> head (filter (λ y, pair_key y = k) (pair t <$> ms))
  = if decide (Exists (λ s, pair_key (t, s) = k) ms)
    then Some {| Cover_Range := py_round miles;
                 Geoid := GEOID t;
                 pair_Index_ID := snd k;
                 Geometry := geom_type (geometry t) |}
    else None.
Proof.
  induction ms as [|s ms IH].
  - rewrite decide_False by (by intros ?%Exists_nil). done.
  - rewrite fmap_cons, filter_cons.
    destruct (decide (pair_key (t, s) = k)) as [Hk|Hk].
    + rewrite decide_True by (by left). simpl.
      unfold mk_pair. simpl. by rewrite <- Hk.
    + rewrite IH. destruct (decide (Exists _ ms)) as [He|He].
      * rewrite decide_True; [done|]. by right.
      * rewrite decide_False; [done|]. by intros [?|?]%Exists_cons.
Qed.

Lemma sjoin_first_row miles o1 o2 tracts buf k :
  (∀ t l, o1 t l ≡ₚ l) → (∀ t l, o2 t l ≡ₚ l) →
  mk_pair miles <$> head (filter (λ y, pair_key y = k) (sjoin o1 tracts buf))
  = mk_pair miles
    <$> head (filter (λ y, pair_key y = k) (sjoin o2 tracts buf)).
Proof.
  intros Ho1 Ho2. unfold sjoin.
  induction tracts as [|t tracts IH]; [done|].
  rewrite !bind_cons, !filter_app, !head_app.
  pose proof (block_first_row miles t (o1 t (matching t buf)) k) as H1.
  pose proof (block_first_row miles t (o2 t (matching t buf)) k) as H2.
  assert (Exists (λ s, pair_key (t, s) = k) (o1 t (matching t buf))
          ↔ Exists (λ s, pair_key (t, s) = k) (o2 t (matching t buf))) as He.
  { rewrite !Exists_exists. by setoid_rewrite Ho1; setoid_rewrite Ho2. }
  destruct (head (filter _ (pair t <$> o1 t _))) as [x1|];
    destruct (head (filter _ (pair t <$> o2 t _))) as [x2|];
    simpl in H1, H2 |- *.
  - rewrite H1, H2. by repeat case_decide; try tauto.
  - exfalso. repeat case_decide; try done; tauto.
  - exfalso. repeat case_decide; try done; tauto.
  - done.
Qed.

Lemma elem_of_pairs_of_join miles j p :
  p ∈ pairs_of_join miles j
  ↔ ∃ k, mk_pair miles <$> head (filter (λ y, pair_key y = k) j) = Some p.
Proof.
  unfold pairs_of_join. rewrite list_elem_of_fmap.
  setoid_rewrite elem_of_drop_duplicates. split.
  - intros (x & -> & Hx). exists (pair_key x). by rewrite Hx.
  - intros (k & Hk).
    destruct (head (filter _ j)) as [x|] eqn:Hx; [|done].
    injection Hk as <-. exists x. split; [done|].
    pose proof Hx as Hx'.
    apply head_Some_elem_of, list_elem_of_filter in Hx' as [-> _]. done.
Qed.

Lemma pairs_of_join_order miles o1 o2 tracts buf :
  (∀ t l, o1 t l ≡ₚ l) → (∀ t l, o2 t l ≡ₚ l) →
  ∀ p, p ∈ pairs_of_join miles (sjoin o1 tracts buf)
       ↔ p ∈ pairs_of_join miles (sjoin o2 tracts buf).
Proof.
  intros Ho1 Ho2 p. rewrite !elem_of_pairs_of_join.
  by setoid_rewrite (sjoin_first_row miles o1 o2 tracts buf _ Ho1 Ho2).
Qed.

Lemma pass_order o1 o2 sites tracts miles :
  (∀ t l, o1 t l ≡ₚ l) → (∀ t l, o2 t l ≡ₚ l) →
  ∀ row, row ∈ fst (intersect_pairs_with_count o1 sites tracts miles)
         ↔ row ∈ fst (intersect_pairs_with_count o2 sites tracts miles).
Proof.
  intros Ho1 Ho2 row. rewrite !pass_table. cbv zeta.
  pose proof (pairs_of_join_order miles o1 o2 tracts (buffered miles sites)
                Ho1 Ho2) as Hp.
  set (p1 := pairs_of_join miles (sjoin o1 _ _)) in *.
  set (p2 := pairs_of_join miles (sjoin o2 _ _)) in *.
  assert (∀ k, nunique (pair_Index_ID <$> group_rows count_key k p1)
               = nunique (pair_Index_ID <$> group_rows count_key k p2)) as Hn.
  { intros k. apply nunique_equiv. intros x. unfold group_rows.
    rewrite !list_elem_of_fmap. by setoid_rewrite list_elem_of_filter;
      setoid_rewrite Hp. }
  rewrite !list_elem_of_fmap. setoid_rewrite Hn. by setoid_rewrite Hp.
Qed.

(** C9. The pass is deterministic: whatever order the spatial index answers
    its queries in, two runs on the same sites and tracts give the same set
    of (radius label, tract ID, site ID, geometry kind, count) rows for every
    radius, and the whole step either fails in both runs or writes tables
    with the same rows. *)
Theorem buffer_pass_deterministic o1 o2 sites tracts :
  (∀ t l, o1 t l ≡ₚ l) → (∀ t l, o2 t l ≡ₚ l) →
  (∀ miles row,
     row ∈ fst (intersect_pairs_with_count o1 sites tracts miles)
     ↔ row ∈ fst (intersect_pairs_with_count o2 sites tracts miles))
  ∧ (is_raise (snd (run_tract_site_interactions o1 sites tracts))
     = is_raise (snd (run_tract_site_interactions o2 sites tracts)))
  ∧ (∀ t1 t2,
       snd (run_tract_site_interactions o1 sites tracts) = Ok t1 →
       snd (run_tract_site_interactions o2 sites tracts) = Ok t2 →
       ∀ row, row ∈ t1 ↔ row ∈ t2).
Proof.
  intros Ho1 Ho2.
  pose proof (λ miles, pass_order o1 o2 sites tracts miles Ho1 Ho2) as Hp.
  assert (∀ row,
    row ∈ concat ((λ r, fst (intersect_pairs_with_count o1 sites tracts r))
                  <$> radii)
    ↔ row ∈ concat ((λ r, fst (intersect_pairs_with_count o2 sites tracts r))
                    <$> radii)) as Hc.
  { intros row. rewrite !elem_of_concat.
    split; intros (l & Hrow & (r & -> & Hr)%list_elem_of_fmap).
    - exists (fst (intersect_pairs_with_count o2 sites tracts r)).
      split; [exact (proj1 (Hp r row) Hrow)|].
      apply list_elem_of_fmap. by exists r.
    - exists (fst (intersect_pairs_with_count o1 sites tracts r)).
      split; [exact (proj2 (Hp r row) Hrow)|].
      apply list_elem_of_fmap. by exists r. }
  destruct (run_over_radii_spec o1 sites tracts radii) as (_ & _ & Hr1 & Ht1).
  destruct (run_over_radii_spec o2 sites tracts radii) as (_ & _ & Hr2 & Ht2).
  fold (run_tract_site_interactions o1 sites tracts) in Hr1, Ht1.
  fold (run_tract_site_interactions o2 sites tracts) in Hr2, Ht2.
  assert (concat ((λ r, fst (intersect_pairs_with_count o1 sites tracts r))
                  <$> radii) = []
          ↔ concat ((λ r, fst (intersect_pairs_with_count o2 sites tracts r))
                    <$> radii) = []) as Hnil.
  { split; intros Hn.
    - destruct (concat (_ <$> radii)) as [|row l] eqn:He in |- *; [done|].
      assert (row ∈ row :: l) as Hrow by (by left).
      rewrite <- He in Hrow. apply (proj2 (Hc row)) in Hrow.
      rewrite Hn in Hrow. by apply elem_of_nil in Hrow.
    - destruct (concat (_ <$> radii)) as [|row l] eqn:He in |- *; [done|].
      assert (row ∈ row :: l) as Hrow by (by left).
      rewrite <- He in Hrow. apply (proj1 (Hc row)) in Hrow.
      rewrite Hn in Hrow. by apply elem_of_nil in Hrow. }
  split; [done|split].
  - apply eq_true_iff_eq. by rewrite Hr1, Hr2.
  - intros t1 t2 H1 H2 row.
    by rewrite (Ht1 t1 H1), (Ht2 t2 H2).
Qed.

End determinism.

(** ** Strings *)

Lemma length_append (s t : string) :
  String.length (s +:+ t) = (String.length s + String.length t)%nat.
Proof. induction s as [|c s IH]; simpl; [done|]. by rewrite IH. Qed.

Lemma length_zeros n : String.length (zeros n) = n.
Proof. induction n as [|n IH]; simpl; [done|]. by rewrite IH. Qed.

Lemma length_zfill width s :
  String.length (zfill width s) = Nat.max width (String.length s).
Proof.
  unfold zfill. destruct (width <=? String.length s)%nat eqn:Hw.
  - apply Nat.leb_le in Hw. lia.
  - apply Nat.leb_gt in Hw. destruct s as [|c rest].
    + simpl in *. rewrite length_zeros. lia.
    + case_bool_decide; simpl in *;
        rewrite length_append, length_zeros; simpl; lia.
Qed.

Lemma zfill_long width s : (width ≤ String.length s)%nat → zfill width s = s.
Proof. intros Hw. unfold zfill. by apply Nat.leb_le in Hw as ->. Qed.

Lemma length_str_take n s :
  String.length (str_take n s) = Nat.min n (String.length s).
Proof.
  revert s. induction n as [|n IH]; intros [|c s]; simpl; try done.
  by rewrite IH.
Qed.

(** ** Step 3.4: the aggregations *)

Section merge_more.
Context {L R K : Type} `{EqDecision K}.

Lemma elem_of_merge_left (lkey : L → K) (rkey : R → K) left right l o :
  (l, o) ∈ merge_left lkey rkey left right
  ↔ l ∈ left
    ∧ ((o = None ∧ ∀ r, r ∈ right → rkey r ≠ lkey l)
       ∨ ∃ r, o = Some r ∧ r ∈ right ∧ rkey r = lkey l).
Proof.
  unfold merge_left. rewrite list_elem_of_bind. split.
  - intros (l' & Hin & Hl'). split.
    + destruct (filter _ right) as [|r rs] eqn:Hf.
      * by apply list_elem_of_singleton in Hin as [= <- _].
      * by apply list_elem_of_fmap in Hin as (? & [= <- _] & _).
    + destruct (filter _ right) as [|r rs] eqn:Hf.
      * apply list_elem_of_singleton in Hin as [= <- ->]. left.
        split; [done|]. intros r Hr Hk.
        assert (r ∈ filter (λ r, rkey r = lkey l) right) as Hr'
          by (by apply list_elem_of_filter).
        rewrite Hf in Hr'. by apply elem_of_nil in Hr'.
      * apply list_elem_of_fmap in Hin as (r' & [= <- ->] & Hr').
        rewrite <- Hf in Hr'. apply list_elem_of_filter in Hr' as [??].
        right. by exists r'.
  - intros [Hl [[-> Hno]|(r & -> & Hr & Hk)]]; exists l; (split; [|done]).
    + destruct (filter _ right) as [|r rs] eqn:Hf; [by left|].
      assert (r ∈ filter (λ r, rkey r = lkey l) right) as Hr'
        by (rewrite Hf; by left).
      apply list_elem_of_filter in Hr' as [Hk Hr']. by destruct (Hno r).
    + assert (r ∈ filter (λ r, rkey r = lkey l) right) as Hr'
        by (by apply list_elem_of_filter).
      destruct (filter _ right) as [|r0 rs] eqn:Hf;
        [by apply elem_of_nil in Hr'|].
      apply list_elem_of_fmap. by exists r.
Qed.

End merge_more.

Lemma nunique_mono {V} `{EqDecision V} (l l' : list (option V)) :
  (∀ x, Some x ∈ l → Some x ∈ l') → (nunique l ≤ nunique l')%nat.
Proof.
  intros Hsub. apply submseteq_length, NoDup_submseteq;
    [apply NoDup_remove_dups|].
  intros x. rewrite !elem_of_remove_dups, !elem_of_omap_id. apply Hsub.
Qed.

Lemma NoDup_fmap_inj_on {A B} (f : A → B) (l : list A) x y :
  NoDup (f <$> l) → x ∈ l → y ∈ l → f x = f y → x = y.
Proof.
  induction l as [|z l IH]; [by intros _ ?%elem_of_nil|].
  rewrite fmap_cons, NoDup_cons.
  intros [Hz Hnd] [->|Hx]%elem_of_cons [->|Hy]%elem_of_cons Hf; [done| | |].
  - exfalso. apply Hz. rewrite Hf. by apply list_elem_of_fmap_2.
  - exfalso. apply Hz. rewrite <- Hf. by apply list_elem_of_fmap_2.
  - by apply IH.
Qed.

Section aggregate_facts.
Import Aggregations.
Context {R P : Type} `{EqDecision R}.
Context (region_le : relation R) `{!RelDecision region_le}.
Context (region_of : P → R) (id_of : P → string).

Abbreviation agg := (aggregate region_le region_of id_of).
Abbreviation gkey := (group_key region_of).
Abbreviation enrich meta :=
  (fmap (M := list) (λ p : P, (p, lookup_meta meta (id_of p)))).

Lemma merge_site_meta_Ok (ps : list P) meta enr :
  merge_site_meta id_of ps meta = Ok enr →
  NoDup (meta_Index_ID <$> meta) ∧ enr = enrich meta ps.
Proof.
  unfold merge_site_meta. case_decide as Hnd; [|done].
  intros [= <-]. split; [done|].
  by rewrite (merge_left_unique id_of meta_Index_ID).
Qed.

Lemma merge_site_meta_raise (ps : list P) meta :
  is_raise (merge_site_meta id_of ps meta) = true
  ↔ ¬ NoDup (meta_Index_ID <$> meta).
Proof. unfold merge_site_meta. by case_decide. Qed.

Lemma lookup_meta_Some meta i m :
  lookup_meta meta i = Some m → m ∈ meta ∧ meta_Index_ID m = i.
Proof.
  unfold lookup_meta.
  by intros [??]%head_Some_elem_of%list_elem_of_filter.
Qed.

Lemma lookup_meta_None meta i :
  lookup_meta meta i = None → i ∉ meta_Index_ID <$> meta.
Proof.
  unfold lookup_meta. intros Hn%head_None (m & -> & Hm)%list_elem_of_fmap.
  assert (m ∈ filter (λ m', meta_Index_ID m' = meta_Index_ID m) meta) as Hf
    by (by apply list_elem_of_filter).
  rewrite Hn in Hf. by apply elem_of_nil in Hf.
Qed.

(** The rows of an aggregate are the groups of the enriched frame. *)
Lemma aggregate_groups b rows :
  ∃ ks, ks ≡ₚ remove_dups (gkey <$> rows)
    ∧ agg b rows
      = (λ k, {| Range_Cover := b;
                 Region_ID := fst k;
                 Count_Customer_Sites :=
                   nunique ((λ e, Some (id_of (fst e)))
                            <$> group_rows gkey k rows);
                 agg_categories := snd k;
                 Total_Stalls_Filled :=
                   Qsum ((λ e, stalls_of (snd e))
                         <$> group_rows gkey k rows) |}) <$> ks.
Proof.
  exists (merge_sort (lex_le region_le categories_le)
            (remove_dups (gkey <$> rows))).
  split; [apply merge_sort_Permutation|done].
Qed.

Lemma elem_of_aggregate b rows row :
  row ∈ agg b rows →
  ∃ e, e ∈ rows
    ∧ Range_Cover row = b
    ∧ Region_ID row = region_of (fst e)
    ∧ agg_categories row = categories_of (snd e)
    ∧ Count_Customer_Sites row
      = nunique ((λ e', Some (id_of (fst e')))
                 <$> group_rows gkey (gkey e) rows).
Proof.
  destruct (aggregate_groups b rows) as (ks & Hks & ->).
  intros (k & -> & Hk)%list_elem_of_fmap.
  rewrite Hks, elem_of_remove_dups in Hk.
  apply list_elem_of_fmap in Hk as (e & -> & He). by exists e.
Qed.

Lemma aggregate_nil b : agg b [] = [].
Proof. done. Qed.

(** A group of matched pairs holds at most the sites of its categories. *)
Lemma aggregate_count_le_matching b meta (ps : list P) row :
  row ∈ agg b (enrich meta ps) →
  agg_categories row ≠ no_categories
  ∨ (∀ p, p ∈ ps → id_of p ∈ meta_Index_ID <$> meta) →
  (Count_Customer_Sites row
   ≤ nunique ((λ m, Some (meta_Index_ID m))
              <$> filter (λ m, categories_of (Some m) = agg_categories row)
                    meta))%nat.
Proof.
  intros (e & He & _ & _ & Hc & ->)%elem_of_aggregate Hm.
  apply nunique_mono. intros x.
  rewrite !list_elem_of_fmap.
  intros (e' & [= ->] & [Hk He']%list_elem_of_filter).
  apply list_elem_of_fmap in He' as (p & -> & Hp). simpl in *.
  injection Hk as _ Hk. rewrite <- Hc in Hk.
  destruct (lookup_meta meta (id_of p)) as [m|] eqn:Hl.
  - apply lookup_meta_Some in Hl as [Hin Hid]. exists m.
    split; [by rewrite Hid|]. by apply list_elem_of_filter.
  - exfalso. destruct Hm as [Hm|Hm].
    + by rewrite <- Hk in Hm.
    + by apply lookup_meta_None in Hl; apply Hl, Hm.
Qed.

(** Within a region the categories of the groups partition the sites. *)
Lemma aggregate_region_sum b meta (ps : list P) reg :
  NoDup ((λ p, (region_of p, id_of p)) <$> ps) →
  sum_list (Count_Customer_Sites
            <$> filter (λ row, Region_ID row = reg) (agg b (enrich meta ps)))
  = interacting_sites region_of id_of reg ps.
Proof.
  intros Hnd. set (rows := enrich meta ps).
  destruct (aggregate_groups b rows) as (ks & Hks & ->).
  rewrite filter_fmap, <- list_fmap_compose. simpl.
  assert (∀ l : list P, (∀ p, p ∈ l → p ∈ ps) → NoDup l →
            (∀ p q, p ∈ l → q ∈ l → region_of p = region_of q) →
            NoDup (id_of <$> l)) as Hids.
  { intros l Hsub Hl Hreg. apply NoDup_fmap_2_strong; [|done].
    intros p q Hp Hq Hid.
    apply (NoDup_fmap_inj_on (λ p, (region_of p, id_of p)) ps);
      [done|by apply Hsub|by apply Hsub|].
    by rewrite Hid, (Hreg p q). }
  assert (NoDup ps) as Hps by (by apply NoDup_fmap_1 in Hnd).
  transitivity (sum_list ((λ k, length (group_rows gkey k
                   (filter (λ e, region_of (fst e) = reg) rows)))
                <$> filter (λ k, fst k = reg) ks)).
  - f_equal. apply list_fmap_ext. intros i k Hk.
    apply list_elem_of_lookup_2, list_elem_of_filter in Hk as [Hreg Hk].
    unfold compose. cbn [Count_Customer_Sites]. unfold group_rows, rows.
    rewrite list_filter_filter, !filter_fmap, <- list_fmap_compose.
    rewrite (list_fmap_compose id_of Some), nunique_NoDup.
    + rewrite !length_fmap. f_equal. apply list_filter_iff.
      intros p. simpl. split; [|by intros [? _]].
      intros Hp. split; [done|]. by rewrite <- Hreg, <- Hp.
    + apply Hids.
      * by intros p [_ ?]%list_elem_of_filter.
      * by apply NoDup_filter.
      * intros p q [Hp _]%list_elem_of_filter [Hq _]%list_elem_of_filter.
        unfold group_key in Hp, Hq. simpl in Hp, Hq. congruence.
  - rewrite sum_group_lengths.
    + unfold interacting_sites, rows.
      rewrite filter_fmap, length_fmap. simpl.
      rewrite (list_fmap_compose id_of Some), nunique_NoDup.
      { by rewrite length_fmap. }
      apply Hids.
      * by intros p [_ ?]%list_elem_of_filter.
      * by apply NoDup_filter.
      * intros p q [Hp _]%list_elem_of_filter [Hq _]%list_elem_of_filter.
        congruence.
    + apply NoDup_filter. rewrite Hks. apply NoDup_remove_dups.
    + intros e [Hreg He]%list_elem_of_filter.
      apply list_elem_of_filter. split; [done|].
      rewrite Hks, elem_of_remove_dups. by apply list_elem_of_fmap_2.
Qed.

End aggregate_facts.

Section levels.
Import Aggregations.
Implicit Types (df : list interaction) (df_sites : list site).
Implicit Types (msa_map : list msa_map_row) (b : Z).

Lemma elem_of_drop_duplicates_id {A} `{EqDecision A} (l : list A) x :
  x ∈ drop_duplicates id l ↔ x ∈ l.
Proof.
  split; [apply drop_duplicates_subseteq|].
  intros (y & Hy & Hk)%(drop_duplicates_keeps_keys id).
  unfold id in Hk. by subst.
Qed.

Lemma elem_of_tract_site_pairs b df p :
  p ∈ tract_site_pairs b df
  ↔ ∃ r, r ∈ df ∧ at_buffer b r
       ∧ p = (tract_geoid_of r, astype_str (Index_ID r)).
Proof.
  unfold tract_site_pairs.
  rewrite elem_of_drop_duplicates_id, list_elem_of_fmap.
  setoid_rewrite list_elem_of_filter. naive_solver.
Qed.

Lemma NoDup_tract_site_pairs b df : NoDup (tract_site_pairs b df).
Proof.
  rewrite <- (list_fmap_id (tract_site_pairs b df)).
  apply (NoDup_drop_duplicates id).
Qed.

Lemma tract_geoid_of_length r : (11 ≤ String.length (tract_geoid_of r))%nat.
Proof. unfold tract_geoid_of. rewrite length_zfill. lia. Qed.

Lemma elem_of_county_pairs_of ps cp :
  cp ∈ county_pairs_of ps →
  ∃ p, p ∈ ps ∧ Tract_GeoID cp = fst p ∧ pair_Index_ID cp = snd p
       ∧ County_GeoID cp = str_take 5 (fst p).
Proof.
  unfold county_pairs_of.
  intros (p & -> & Hp)%drop_duplicates_subseteq%list_elem_of_fmap.
  by exists p.
Qed.

Lemma county_pairs_of_keeps ps p :
  p ∈ ps →
  ∃ cp, cp ∈ county_pairs_of ps
      ∧ County_GeoID cp = str_take 5 (fst p) ∧ pair_Index_ID cp = snd p.
Proof.
  intros Hp. unfold county_pairs_of.
  set (mk := λ p : string * string,
         {| Tract_GeoID := fst p; pair_Index_ID := snd p;
            County_GeoID := str_take 5 (fst p) |}).
  destruct (drop_duplicates_keeps_keys
              (λ c, (County_GeoID c, pair_Index_ID c)) (mk <$> ps) (mk p))
    as (cp & Hcp & [= Hc Hi]); [by apply list_elem_of_fmap_2|].
  by exists cp.
Qed.

Lemma interacting_sites_county ps reg :
  interacting_sites County_GeoID pair_Index_ID reg (county_pairs_of ps)
  = interacting_sites (λ p, str_take 5 (fst p)) snd reg ps.
Proof.
  apply nunique_equiv. intros x. rewrite !list_elem_of_fmap. split.
  - intros (cp & [= ->] & [Hreg Hcp]%list_elem_of_filter).
    apply elem_of_county_pairs_of in Hcp as (p & Hp & _ & Hi & Hc).
    exists p. split; [by rewrite Hi|].
    apply list_elem_of_filter. split; [congruence|done].
  - intros (p & [= ->] & [Hreg Hp]%list_elem_of_filter).
    apply county_pairs_of_keeps in Hp as (cp & Hcp & Hc & Hi).
    exists cp. split; [by rewrite Hi|].
    apply list_elem_of_filter. split; [congruence|done].
Qed.

Lemma elem_of_msa_pairs_merged ps msa_map mp :
  mp ∈ msa_pairs_merged ps msa_map
  ↔ ∃ p, p ∈ ps ∧ msa_county_pair mp = mk_county_pair p
       ∧ ((pair_MSA_Name mp = None
           ∧ ¬ county_in_map msa_map (msa_county_of (fst p)))
          ∨ ∃ m, m ∈ msa_map
               ∧ map_County_GeoID m = msa_county_of (fst p)
               ∧ pair_MSA_Name mp = MSA_Name m).
Proof.
  unfold msa_pairs_merged.
  rewrite list_elem_of_fmap. split.
  - intros ([cp o] & -> & Hin). apply elem_of_merge_left in Hin as [Hcp Ho].
    apply list_elem_of_fmap in Hcp as (p & -> & Hp).
    exists p. split; [done|]. split; [done|]. simpl in *.
    destruct Ho as [[-> Hno]|(m & -> & Hm & Hk)].
    + left. split; [done|]. unfold county_in_map.
      rewrite Exists_exists. intros (m & Hm & Hk). by apply (Hno m).
    + right. by exists m.
  - intros (p & Hp & Hc & Ho). destruct mp as [cp msa]. simpl in *. subst cp.
    destruct Ho as [[-> Hno]|(m & Hm & Hk & ->)].
    + exists (mk_county_pair p, None). split; [done|].
      apply elem_of_merge_left. split; [by apply list_elem_of_fmap_2|].
      left. split; [done|]. intros m Hm Hk. apply Hno.
      unfold county_in_map. rewrite Exists_exists. by exists m.
    + exists (mk_county_pair p, Some m). split; [done|].
      apply elem_of_merge_left. split; [by apply list_elem_of_fmap_2|].
      right. by exists m.
Qed.

Lemma elem_of_msa_pairs_of ps msa_map cp z :
  (cp, z) ∈ msa_pairs_of ps msa_map →
  ∃ p m, p ∈ ps ∧ m ∈ msa_map ∧ cp = mk_county_pair p
         ∧ map_County_GeoID m = msa_county_of (fst p)
         ∧ MSA_Name m = Some z.
Proof.
  unfold msa_pairs_of.
  intros (mp & Hmp & Hz)%drop_duplicates_subseteq%list_elem_of_omap.
  apply elem_of_msa_pairs_merged in Hmp as (p & Hp & Hc & Ho).
  destruct (pair_MSA_Name mp) as [z'|] eqn:Hn; [|done].
  injection Hz as <- <-.
  destruct Ho as [[? _]|(m & Hm & Hk & Hz)]; [done|]. by exists p, m.
Qed.

Lemma NoDup_msa_pairs_of ps msa_map :
  NoDup ((λ p : county_pair * Z, (snd p, pair_Index_ID (fst p)))
         <$> msa_pairs_of ps msa_map).
Proof. apply NoDup_drop_duplicates. Qed.

Lemma NoDup_county_pairs_of ps :
  NoDup ((λ p, (County_GeoID p, pair_Index_ID p)) <$> county_pairs_of ps).
Proof. apply NoDup_drop_duplicates. Qed.

(** Pairs of a county without a row in the map leave no trace. *)
Lemma msa_pairs_of_filter ps msa_map :
  msa_pairs_of
    (filter (λ p, county_in_map msa_map (msa_county_of (fst p))) ps) msa_map
  = msa_pairs_of ps msa_map.
Proof.
  unfold msa_pairs_of. f_equal.
  unfold msa_pairs_merged, merge_left.
  induction ps as [|p ps IH]; [done|].
  rewrite filter_cons.
  destruct (decide (county_in_map msa_map (msa_county_of (fst p))))
    as [Hin|Hnin].
  - rewrite !fmap_cons, !bind_cons, !fmap_app, !omap_app. by rewrite IH.
  - rewrite IH, !fmap_cons, !bind_cons, !fmap_app, !omap_app.
    assert (filter (λ r, map_County_GeoID r
                         = County_GeoID (mk_county_pair p)) msa_map = [])
      as ->; [|done].
    destruct (filter _ msa_map) as [|m ms] eqn:Hf; [done|]. exfalso.
    assert (m ∈ filter (λ r, map_County_GeoID r
                             = County_GeoID (mk_county_pair p)) msa_map)
      as [Hk Hm]%list_elem_of_filter by (rewrite Hf; by left).
    apply Hnin. unfold county_in_map. rewrite Exists_exists. by exists m.
Qed.

Lemma tract_site_pairs_filter b df (Q : string → Prop) `{∀ g, Decision (Q g)} :
  tract_site_pairs b (filter (λ r, Q (tract_geoid_of r)) df)
  = filter (λ p, Q (fst p)) (tract_site_pairs b df).
Proof.
  unfold tract_site_pairs.
  set (norm := λ r, (tract_geoid_of r, astype_str (Index_ID r))).
  transitivity (drop_duplicates id
                  (filter (λ p : string * string, Q (fst p))
                     (norm <$> filter (at_buffer b) df))).
  - f_equal. rewrite filter_fmap. f_equal. simpl.
    rewrite !list_filter_filter. apply list_filter_iff. tauto.
  - exact (drop_duplicates_filter id (λ p, Q (fst p)) _).
Qed.

Lemma build_tract_Ok b df df_sites rows :
  _build_tract_agg_for_buffer b df df_sites = Ok rows →
  NoDup (meta_Index_ID <$> site_meta df_sites)
  ∧ rows = aggregate str_le fst snd b
             ((λ p, (p, lookup_meta (site_meta df_sites) (snd p)))
              <$> tract_site_pairs b df).
Proof.
  unfold _build_tract_agg_for_buffer.
  destruct (merge_site_meta _ _ _) as [enr|] eqn:He; [|done].
  apply merge_site_meta_Ok in He as [Hnd ->]. by intros [= <-].
Qed.

Lemma build_county_Ok b df df_sites rows :
  _build_county_agg_for_buffer b df df_sites = Ok rows →
  NoDup (meta_Index_ID <$> site_meta df_sites)
  ∧ rows = aggregate str_le County_GeoID pair_Index_ID b
             ((λ p, (p, lookup_meta (site_meta df_sites) (pair_Index_ID p)))
              <$> county_pairs_of (tract_site_pairs b df)).
Proof.
  unfold _build_county_agg_for_buffer.
  destruct (merge_site_meta _ _ _) as [enr|] eqn:He; [|done].
  apply merge_site_meta_Ok in He as [Hnd ->]. by intros [= <-].
Qed.

Lemma build_msa_Ok b df df_sites msa_map rows :
  _build_msa_agg_for_buffer b df df_sites msa_map = Ok rows →
  NoDup (meta_Index_ID <$> site_meta df_sites)
  ∧ rows = aggregate Z.le snd (λ p, pair_Index_ID (fst p)) b
             ((λ p, (p, lookup_meta (site_meta df_sites)
                          (pair_Index_ID (fst p))))
              <$> msa_pairs_of (tract_site_pairs b df) msa_map).
Proof.
  unfold _build_msa_agg_for_buffer.
  destruct (merge_site_meta _ _ _) as [enr|] eqn:He; [|done].
  apply merge_site_meta_Ok in He as [Hnd ->]. by intros [= <-].
Qed.

End levels.

Section aggregation_claims.
Import Aggregations.
Implicit Types (df : list interaction) (df_sites : list site).
Implicit Types (msa_map : list msa_map_row) (b : Z).

(** C2, as amended. At each level, an aggregate row that has a category, or
    any aggregate row when every site of the interactions of the radius is
    in the site table, counts at most the distinct sites of the whole site
    table with the row's site type, customer segment and interested party;
    and for a radius and a region the counts of all the category
    combinations add up to at most the number of distinct sites that
    interact with the region at that radius. *)
Theorem aggregate_counts_bounded b df df_sites msa_map :
  let known := ∀ p, p ∈ tract_site_pairs b df →
                    snd p ∈ meta_Index_ID <$> site_meta df_sites in
  (∀ rows, _build_tract_agg_for_buffer b df df_sites = Ok rows →
     (∀ row, row ∈ rows → agg_categories row ≠ no_categories ∨ known →
        (Count_Customer_Sites row
         ≤ sites_matching (agg_categories row) df_sites)%nat)
     ∧ (∀ reg,
          (sum_list (Count_Customer_Sites
                     <$> filter (λ row, Region_ID row = reg) rows)
           ≤ interacting_sites fst snd reg (tract_site_pairs b df))%nat))
  ∧ (∀ rows, _build_county_agg_for_buffer b df df_sites = Ok rows →
     (∀ row, row ∈ rows → agg_categories row ≠ no_categories ∨ known →
        (Count_Customer_Sites row
         ≤ sites_matching (agg_categories row) df_sites)%nat)
     ∧ (∀ reg,
          (sum_list (Count_Customer_Sites
                     <$> filter (λ row, Region_ID row = reg) rows)
           ≤ interacting_sites (λ p, str_take 5 (fst p)) snd reg
               (tract_site_pairs b df))%nat))
  ∧ (∀ rows, _build_msa_agg_for_buffer b df df_sites msa_map = Ok rows →
     (∀ row, row ∈ rows → agg_categories row ≠ no_categories ∨ known →
        (Count_Customer_Sites row
         ≤ sites_matching (agg_categories row) df_sites)%nat)
     ∧ (∀ reg,
          (sum_list (Count_Customer_Sites
                     <$> filter (λ row, Region_ID row = reg) rows)
           ≤ interacting_sites snd (λ p, pair_Index_ID (fst p)) reg
               (msa_pairs_of (tract_site_pairs b df) msa_map))%nat)).
Proof.
  intros known. split; [|split].
  - intros rows [_ ->]%build_tract_Ok. split.
    + intros row Hrow Hk. unfold sites_matching.
      apply (aggregate_count_le_matching _ _ _ _ _ _ _ Hrow).
      destruct Hk as [?|Hk]; [by left|right; done].
    + intros reg. rewrite aggregate_region_sum; [done|].
      rewrite (list_fmap_ext _ id) by (by intros i [??] _).
      rewrite list_fmap_id. apply NoDup_tract_site_pairs.
  - intros rows [_ ->]%build_county_Ok. split.
    + intros row Hrow Hk. unfold sites_matching.
      apply (aggregate_count_le_matching _ _ _ _ _ _ _ Hrow).
      destruct Hk as [?|Hk]; [by left|right].
      intros cp (p & Hp & _ & -> & _)%elem_of_county_pairs_of. by apply Hk.
    + intros reg. rewrite aggregate_region_sum
        by apply NoDup_county_pairs_of.
      by rewrite interacting_sites_county.
  - intros rows [_ ->]%build_msa_Ok. split.
    + intros row Hrow Hk. unfold sites_matching.
      apply (aggregate_count_le_matching _ _ _ _ _ _ _ Hrow).
      destruct Hk as [?|Hk]; [by left|right].
      intros [cp z] (p & m & Hp & _ & -> & _)%elem_of_msa_pairs_of.
      by apply Hk.
    + intros reg. by rewrite aggregate_region_sum
        by apply NoDup_msa_pairs_of.
Qed.

(** C3. The county of a pair is the first five characters of its tract
    identifier, at the county level and at the metro level, whatever the
    metro map holds; and the pair of a valid 11-character tract identifier [g]
    of the interactions is aggregated under the county [g[:5]]. *)
Theorem county_id_is_tract_prefix b df msa_map :
  (∀ cp, cp ∈ county_pairs_of (tract_site_pairs b df) →
     County_GeoID cp = str_take 5 (Tract_GeoID cp))
  ∧ (∀ mp, mp ∈ msa_pairs_merged (tract_site_pairs b df) msa_map →
       County_GeoID (msa_county_pair mp)
       = str_take 5 (Tract_GeoID (msa_county_pair mp)))
  ∧ (∀ r g, r ∈ df → at_buffer b r →
       astype_str (Geoid r) = g → String.length g = 11%nat →
       (∃ cp, cp ∈ county_pairs_of (tract_site_pairs b df)
              ∧ County_GeoID cp = str_take 5 g
              ∧ pair_Index_ID cp = astype_str (Index_ID r))
       ∧ (∃ mp, mp ∈ msa_pairs_merged (tract_site_pairs b df) msa_map
                ∧ Tract_GeoID (msa_county_pair mp) = g
                ∧ County_GeoID (msa_county_pair mp) = str_take 5 g
                ∧ pair_Index_ID (msa_county_pair mp)
                  = astype_str (Index_ID r)))
  ∧ (∀ df_sites rows row,
       _build_county_agg_for_buffer b df df_sites = Ok rows → row ∈ rows →
       ∃ r, r ∈ df ∧ at_buffer b r
            ∧ Region_ID row = str_take 5 (tract_geoid_of r)).
Proof.
  assert (∀ p, p ∈ tract_site_pairs b df →
            msa_county_of (fst p) = str_take 5 (fst p)) as Hmsa.
  { intros p (r & _ & _ & ->)%elem_of_tract_site_pairs. cbn [fst].
    unfold msa_county_of. apply zfill_long. rewrite length_str_take.
    pose proof (tract_geoid_of_length r). lia. }
  split; [|split; [|split]].
  - by intros cp (p & _ & -> & _ & ->)%elem_of_county_pairs_of.
  - intros mp (p & Hp & -> & _)%elem_of_msa_pairs_merged. simpl.
    by apply Hmsa.
  - intros r g Hr Hb Hg Hlen.
    assert (tract_geoid_of r = g) as Htg.
    { unfold tract_geoid_of. rewrite Hg. apply zfill_long. lia. }
    assert ((g, astype_str (Index_ID r)) ∈ tract_site_pairs b df) as Hp.
    { apply elem_of_tract_site_pairs. exists r. by rewrite Htg. }
    split.
    + apply county_pairs_of_keeps in Hp as (cp & ? & ? & ?). by exists cp.
    + destruct (decide (county_in_map msa_map (msa_county_of g)))
        as [Hin|Hnin].
      * unfold county_in_map in Hin.
        apply Exists_exists in Hin as (m & Hm & Hk).
        exists {| msa_county_pair :=
                    mk_county_pair (g, astype_str (Index_ID r));
                  pair_MSA_Name := MSA_Name m |}.
        split; [|by split; [|split; [apply (Hmsa _ Hp)|]]].
        apply elem_of_msa_pairs_merged. eexists. split; [done|].
        split; [done|]. right. by exists m.
      * exists {| msa_county_pair :=
                    mk_county_pair (g, astype_str (Index_ID r));
                  pair_MSA_Name := None |}.
        split; [|by split; [|split; [apply (Hmsa _ Hp)|]]].
        apply elem_of_msa_pairs_merged. eexists. split; [done|].
        split; [done|]. by left.
  - intros df_sites rows row [_ ->]%build_county_Ok
      (e & He & _ & -> & _)%elem_of_aggregate.
    apply list_elem_of_fmap in He as (cp & -> & Hcp). simpl.
    apply elem_of_county_pairs_of in Hcp as (p & Hp & _ & _ & ->).
    apply elem_of_tract_site_pairs in Hp as (r & Hr & Hb & ->).
    by exists r.
Qed.

(** C4. Every row of the metro aggregate of a radius stands for a metro code
    the map gives to the county of some pair of the radius; the interactions
    of the counties without a row in the map can be left out without
    changing what the builder returns, so on them alone it returns an empty
    table; and the builder raises only when the site table lists a site
    twice, whatever the counties. *)
Theorem metro_rows_only_for_mapped_counties b df df_sites msa_map :
  let mapped := λ r, county_in_map msa_map (msa_county_of (tract_geoid_of r)) in
  (∀ rows row,
     _build_msa_agg_for_buffer b df df_sites msa_map = Ok rows → row ∈ rows →
     ∃ r m, r ∈ df ∧ at_buffer b r ∧ m ∈ msa_map
            ∧ map_County_GeoID m = msa_county_of (tract_geoid_of r)
            ∧ MSA_Name m = Some (Region_ID row))
  ∧ _build_msa_agg_for_buffer b (filter mapped df) df_sites msa_map
    = _build_msa_agg_for_buffer b df df_sites msa_map
  ∧ ((∀ r, r ∈ df → at_buffer b r → ¬ mapped r) →
     NoDup (meta_Index_ID <$> site_meta df_sites) →
     _build_msa_agg_for_buffer b df df_sites msa_map = Ok [])
  ∧ (is_raise (_build_msa_agg_for_buffer b df df_sites msa_map) = true
     ↔ ¬ NoDup (meta_Index_ID <$> site_meta df_sites)).
Proof.
  intros mapped. subst mapped. cbv beta.
  set (mapped := λ r, county_in_map msa_map (msa_county_of (tract_geoid_of r))).
  assert (_build_msa_agg_for_buffer b (filter mapped df) df_sites msa_map
          = _build_msa_agg_for_buffer b df df_sites msa_map) as Hfilter.
  { unfold _build_msa_agg_for_buffer.
    pose proof (tract_site_pairs_filter b df
                  (λ g, county_in_map msa_map (msa_county_of g))) as Hf.
    cbv beta in Hf. fold mapped in Hf. rewrite Hf.
    by rewrite msa_pairs_of_filter. }
  split; [|split; [done|split]].
  - intros rows row [_ ->]%build_msa_Ok
      (e & He & _ & -> & _)%elem_of_aggregate.
    apply list_elem_of_fmap in He as ([cp z] & -> & Hp). simpl.
    apply elem_of_msa_pairs_of in Hp as (p & m & Hp & Hm & _ & Hk & Hz).
    apply elem_of_tract_site_pairs in Hp as (r & Hr & Hb & ->).
    by exists r, m.
  - intros Hnone Hnd. rewrite <- Hfilter.
    assert (tract_site_pairs b (filter mapped df) = []) as Hnil.
    { destruct (tract_site_pairs b (filter mapped df)) as [|p ps] eqn:Hp;
        [done|]. exfalso.
      assert (p ∈ tract_site_pairs b (filter mapped df)) as Hin
        by (rewrite Hp; by left).
      apply elem_of_tract_site_pairs in Hin as (r & Hr & Hb & _).
      apply list_elem_of_filter in Hr as [Hm Hr]. by apply (Hnone r). }
    unfold _build_msa_agg_for_buffer. rewrite Hnil.
    unfold merge_site_meta. by rewrite decide_True.
  - unfold _build_msa_agg_for_buffer.
    rewrite <- (merge_site_meta_raise
                  (λ p : county_pair * Z, pair_Index_ID (fst p))
                  (msa_pairs_of (tract_site_pairs b df) msa_map)).
    by destruct (merge_site_meta _ _ _).
Qed.


End aggregation_claims.

(** ** Section 4: the geofence overlay *)

Lemma filter_cons_split {A} (P : A → Prop) `{∀ x, Decision (P x)}
    (l : list A) x rest :
  filter P l = x :: rest →
  ∃ before after, l = before ++ x :: after
    ∧ Forall (λ y, ¬ P y) before ∧ P x ∧ filter P after = rest.
Proof.
  induction l as [|y l IH]; [done|]. rewrite filter_cons.
  destruct (decide (P y)) as [Hy|Hy].
  - intros [= -> <-]. by exists [], l.
  - intros (before & after & -> & Hb & Hx & Ha)%IH.
    exists (y :: before), after. split; [done|]. split; [|done].
    by constructor.
Qed.

Section geofence_claims.
Import Geofence.
Context `{GeoEngine}.
Context (read_file : list Byte.byte → kml_frame).

Lemma select_kml_entry_cons path namelist n rest :
  filter is_kml namelist = n :: rest →
  select_kml_entry path namelist
  = ((if decide (1 < length (n :: rest))%nat
      then [warning_multiple_kml n (n :: rest)] else []), Ok n).
Proof. unfold select_kml_entry. by intros ->. Qed.

Lemma normalize_frame_no_warning name gdf first all :
  warning_multiple_kml first all ∉ fst (normalize_frame name gdf).
Proof.
  unfold normalize_frame. repeat case_match; simpl;
    rewrite ?list_elem_of_singleton, ?elem_of_nil; naive_solver.
Qed.

(** C8, as amended. Of a KMZ archive with one or more KML entries the
    loader reads the first KML entry in the order of the archive's entry
    list, whatever the names; it logs the warning when there are several; with
    one KML entry it reads that entry and logs no warning. *)
Theorem kmz_first_entry_in_archive_order (path : geofence_file) n rest :
  path_exists path = true →
  lower (path_suffix (path_name path)) = ".kmz" →
  filter is_kml (fst <$> zip_members path) = n :: rest →
  (∃ before after,
     fst <$> zip_members path = before ++ n :: after
     ∧ Forall (λ n', ¬ is_kml n') before)
  ∧ snd (select_kml_entry (path_name path) (fst <$> zip_members path)) = Ok n
  ∧ (warning_multiple_kml n (n :: rest)
       ∈ fst (read_geofence_file read_file path) ↔ rest ≠ [])
  ∧ (zip_read (zip_members path) n ≠ [] →
     snd (read_geofence_file read_file path)
     = snd (normalize_frame (path_name path)
              (read_file (zip_read (zip_members path) n)))).
Proof.
  intros Hex Hsuffix Hkml.
  pose proof (select_kml_entry_cons (path_name path) _ _ _ Hkml) as Hsel.
  split; [|split; [|split]].
  - apply filter_cons_split in Hkml as (before & after & ? & ? & _).
    by exists before, after.
  - by rewrite Hsel.
  - unfold read_geofence_file. rewrite Hex, Hsuffix, Hsel. simpl negb.
    cbn [bool_decide]. rewrite bool_decide_false by done.
    rewrite bool_decide_true by done.
    destruct (zip_read (zip_members path) n) as [|c bs] eqn:Hread.
    + cbn [fst]. destruct rest as [|n' rest].
      * simpl. rewrite elem_of_cons, list_elem_of_singleton. naive_solver.
      * simpl. rewrite !elem_of_cons. naive_solver.
    + pose proof (normalize_frame_no_warning (path_name path)
                    (read_file (c :: bs)) n (n :: rest)) as Hno.
      destruct (normalize_frame _ _) as [lines' r']. cbn [fst] in *.
      destruct rest as [|n' rest]; simpl.
      * rewrite elem_of_cons. naive_solver.
      * rewrite !elem_of_cons. naive_solver.
  - intros Hread. unfold read_geofence_file. rewrite Hex, Hsuffix, Hsel.
    simpl negb. cbn [bool_decide]. rewrite bool_decide_false by done.
    rewrite bool_decide_true by done.
    destruct (zip_read (zip_members path) n) as [|c bs]; [done|].
    by destruct (normalize_frame _ _).
Qed.

Lemma build_geo_final_fixed join row :
  row ∈ build_geo_final join → fixed_attributes row.
Proof.
  unfold build_geo_final. by intros (tg & -> & _)%list_elem_of_fmap.
Qed.

Lemma overlay_fixed geofences tracts crs rows row :
  snd (overlay geofences tracts crs) = Ok rows → row ∈ rows →
  fixed_attributes row.
Proof.
  unfold overlay. cbv zeta.
  repeat (case_decide || case_match); cbn [snd]; try done.
  all: intros [= <-]; apply build_geo_final_fixed.
Qed.

Lemma run_geofence_fixed listing tracts crs rows row :
  snd (run_geofence read_file listing tracts crs) = Ok rows → row ∈ rows →
  fixed_attributes row.
Proof.
  unfold run_geofence.
  destruct (load_geofences _ _) as [lines [[|gdf gdfs]|e]]; simpl; try done.
  pose proof (overlay_fixed (concat (gdf :: gdfs)) tracts crs rows row) as Ho.
  destruct (overlay _ _ _) as [lines' r']. simpl in *. done.
Qed.

Lemma join_no_overlap (tracts : list tract) parts :
  Forall (λ t, Forall (λ gp : geofence_row * fence_part,
                         intersects_fence (geometry t) (snd gp) ≠ true) parts)
    tracts →
  tract_geofence_join tracts parts = [].
Proof.
  unfold tract_geofence_join. induction 1 as [|t tracts Ht _ IH]; [done|].
  rewrite bind_cons, IH, app_nil_r.
  assert (filter (λ gp : geofence_row * fence_part,
                    intersects_fence (geometry t) (snd gp) = true) parts = [])
    as ->; [|done].
  clear IH. induction Ht as [|gp parts Hgp _ IHp]; [done|].
  rewrite filter_cons. by destruct (decide _).
Qed.

Lemma overlay_Ok geofences (tracts : list tract) :
  let polys :=
    filter (λ g, fence_is_empty (fence_geometry g) ≠ true) geofences in
  let tracts' := filter (λ t, tract_is_empty (geometry t) ≠ true) tracts in
  let join := tract_geofence_join tracts' (exploded polys) in
  polys ≠ [] → tracts' ≠ [] → join ≠ [] →
  snd (overlay geofences tracts true) = Ok (build_geo_final join).
Proof.
  intros polys tracts' join Hp Ht Hj. unfold overlay. cbv zeta.
  fold polys. fold tracts'. fold join.
  assert (length (build_geo_final join) = length join) as Hlen
    by apply length_fmap.
  repeat case_decide; cbn [snd negb]; try done.
  - by destruct polys.
  - by destruct tracts'.
  - by destruct join.
  - destruct join; [done|]. by rewrite Hlen in *.
Qed.

(** C7. Every row of the geofence table has site type "Customer Interest",
    customer segment "AV", coverage range 0, a count of 1 and 37.5 stalls;
    and a geofence of one polygon that meets one tract only gives exactly one
    row, the row of that tract. *)
Theorem geofence_rows_fixed_attributes :
  (∀ listing tracts crs rows row,
     snd (run_geofence read_file listing tracts crs) = Ok rows → row ∈ rows →
     fixed_attributes row)
  ∧ (∀ g part t before after,
       fence_is_empty (fence_geometry g) = false →
       explode (fence_geometry g) = [part] →
       tract_is_empty (geometry t) = false →
       intersects_fence (geometry t) part = true →
       (∀ t', t' ∈ before ++ after →
              intersects_fence (geometry t') part = false) →
       snd (overlay [g] (before ++ t :: after) true)
       = Ok [ {| geo_Tract_GeoID := GEOID t;
                 geo_Site_Type := "Customer Interest";
                 geo_Customer_Segment := "AV";
                 geo_Interested_Party := infer_interested_party (Table_Name g);
                 geo_Range_Cover := 0;
                 geo_Count_Customer_Sites := 1;
                 geo_Total_Stalls_Filled := (75 # 2)%Q;
                 geo_Table_Name := Table_Name g;
                 geo_Name := Name g;
                 Tracts_Per_table := 1;
                 Tracts_Per_Polygon := 1 |} ]).
Proof.
  split; [apply run_geofence_fixed|].
  intros g part t before after Hg Hpart Ht Hint Hothers.
  assert (tract_geofence_join
            (filter (λ t, tract_is_empty (geometry t) ≠ true)
               (before ++ t :: after))
            (exploded [g]) = [(t, g)]) as Hjoin.
  { assert (exploded [g] = [(g, part)]) as ->.
    { unfold exploded. by rewrite bind_singleton, Hpart. }
    assert (∀ l, (∀ t', t' ∈ l → intersects_fence (geometry t') part = false) →
       tract_geofence_join
         (filter (λ t, tract_is_empty (geometry t) ≠ true) l) [(g, part)] = [])
      as Hnone.
    { intros l Hl. apply join_no_overlap, Forall_forall.
      intros t' [_ Ht']%list_elem_of_filter. constructor; [|constructor].
      simpl. by rewrite (Hl t' Ht'). }
    rewrite filter_app, filter_cons, decide_True by (by rewrite Ht).
    unfold tract_geofence_join in *. rewrite bind_app, bind_cons.
    rewrite Hnone by (intros; apply Hothers, elem_of_app; by left).
    rewrite Hnone by (intros; apply Hothers, elem_of_app; by right).
    rewrite filter_cons, decide_True by done. done. }
  assert (filter (λ g, fence_is_empty (fence_geometry g) ≠ true) [g] = [g])
    as Hpoly.
  { rewrite filter_cons, decide_True by (by rewrite Hg). done. }
  rewrite overlay_Ok; rewrite ?Hpoly, ?Hjoin; try done.
  - unfold build_geo_final, group_rows, nunique.
    rewrite !fmap_cons, !filter_cons. cbn [fst snd].
    rewrite !decide_True by done. done.
  - rewrite filter_app, filter_cons, decide_True by (by rewrite Ht).
    by destruct (filter _ before).
Qed.


End geofence_claims.

(** ** The claims on the sample inputs *)

Section samples.
Import LineGeometry Examples.

Ltac by_computation :=
  match goal with
  | |- ?P => apply (bool_decide_unpack P); vm_compute; exact I
  end.

(** The 5-mile pass on the sample layers: six rows, no pair twice, every
    count that of its tract. *)
Lemma pairs_unique_and_counted_witness :
  let tbl := fst (Interactions.intersect_pairs_with_count
                    index_order sites_m tracts_m (5 # 1)%Q) in
  length tbl = 6%nat
  ∧ NoDup (Interactions.tbl_key <$> tbl)
  ∧ ∀ r, r ∈ tbl →
      Interactions.Count_Tract_Interact_Site_Range r
      = Some (nunique
                ((λ r', Interactions.pair_Index_ID (Interactions.row_pair r'))
                 <$> filter (λ r', Interactions.count_key
                                     (Interactions.row_pair r')
                                   = Interactions.count_key
                                       (Interactions.row_pair r)) tbl)).
Proof.
  split; [by vm_compute|].
  exact (pairs_unique_and_counted index_order sites_m tracts_m (5 # 1)%Q).
Defined.

(** On the sample layers the first site lies in the first tract, so the
    epsilon buffer around it meets the tract and the pair is in the 0-mile
    tier; so is the pair of the site and the tract half a metre off it,
    which a buffer of radius zero does not meet; the tract one metre off
    the site is not met by the epsilon buffer and is not in the tier; and
    every row of the tier is labelled 0. *)
Lemma zero_tier_epsilon_and_labels_witness :
  let eps := (1152921504606847 # 2305843009213693952)%Q in
  (∀ t l, index_order t l ≡ₚ l)
  ∧ ("01001020100", Some 7)
    ∈ Interactions.tbl_key
      <$> fst (Interactions.intersect_pairs_with_count
                 index_order sites_m tracts_m eps)
  ∧ ("01001020400", Some 7)
    ∈ Interactions.tbl_key
      <$> fst (Interactions.intersect_pairs_with_count
                 index_order sites_m tracts_close eps)
  ∧ Forall (λ t, Forall (λ s, intersects (Interactions.geometry t)
                                (buffer (Interactions.site_geometry s) 0)
                              = false) sites_m) tracts_close
  ∧ (("01001020300", Some 7)
     ∉ Interactions.tbl_key
       <$> fst (Interactions.intersect_pairs_with_count
                  index_order sites_m tracts_near eps))
  ∧ py_round <$> Interactions.radii = [0; 1; 2; 3; 5; 25; 75; 100]
  ∧ ∀ r, r ∈ fst (Interactions.intersect_pairs_with_count
                    index_order sites_m tracts_m eps) →
         Interactions.Cover_Range (Interactions.row_pair r) = 0.
Proof.
  intros eps.
  assert (∀ t l, index_order t l ≡ₚ l) as Ho by done.
  destruct (zero_tier_epsilon_and_labels index_order)
    as ((eps' & rest & Hradii & _ & _ & _ & Htier) & _ & Hlabel & Hset & _).
  assert (eps' = eps) as -> by (by injection Hradii as <- _).
  split; [exact Ho|].
  split; [|split; [|split; [|split; [|split; [exact Hset|]]]]].
  - apply (proj2 (Htier Ho sites_m tracts_m "01001020100" (Some 7))).
    eexists _, _. split; [by left|]. split; [by left|]. by vm_compute.
  - apply (proj2 (Htier Ho sites_m tracts_close "01001020400" (Some 7))).
    eexists _, _. split; [by left|]. split; [by left|]. by vm_compute.
  - by_computation.
  - intros Hin.
    apply (proj1 (Htier Ho sites_m tracts_near "01001020300" (Some 7))) in Hin
      as (t & s & Ht & Hs & _ & Hid & Hmeet).
    apply list_elem_of_singleton in Ht as ->.
    repeat (apply elem_of_cons in Hs as [->|Hs]; [by vm_compute in Hmeet|]).
    by apply elem_of_nil in Hs.
  - intros r Hr. exact (Hlabel sites_m tracts_m _ r Hr).
Defined.

(** A tract out of reach of the epsilon buffers only: the epsilon pass is
    warned about, the 1-mile pass is not, and the run does not raise. *)
Lemma zero_pairs_warning_not_fatal_witness :
  let run := Interactions.run_tract_site_interactions
               index_order sites_m tracts_near in
  let eps := (1152921504606847 # 2305843009213693952)%Q in
  Interactions.warning_no_pairs eps ∈ fst run
  ∧ (Interactions.warning_no_pairs (1 # 1)%Q ∉ fst run)
  ∧ is_raise (snd run) = false.
Proof.
  destruct (zero_pairs_warning_not_fatal index_order sites_m tracts_near)
    as (Hwarn & Hinfo & Hraise & _).
  split; [|split].
  - apply Hwarn. split; [by left|by vm_compute].
  - intros [_ Hnil]%Hwarn. by vm_compute in Hnil.
  - apply not_true_is_false. intros Hr%Hraise. by vm_compute in Hr.
Defined.

(** The index answering in the order of the sites and in the reverse order:
    the same rows for every radius. *)
Lemma buffer_pass_deterministic_witness :
  (∀ t l, index_order t l ≡ₚ l)
  ∧ (∀ t l, reversed_order t l ≡ₚ l)
  ∧ (∀ miles row,
       row ∈ fst (Interactions.intersect_pairs_with_count
                    index_order sites_m tracts_m miles)
       ↔ row ∈ fst (Interactions.intersect_pairs_with_count
                      reversed_order sites_m tracts_m miles)).
Proof.
  assert (∀ t l, index_order t l ≡ₚ l) as H1 by done.
  assert (∀ t l, reversed_order t l ≡ₚ l) as H2
    by (intros t l; apply reverse_Permutation).
  split; [exact H1|split; [exact H2|]].
  exact (proj1 (buffer_pass_deterministic index_order reversed_order
                  sites_m tracts_m H1 H2)).
Defined.

Import Aggregations.

(** The tract aggregate of the sample interactions at 5 miles, all of whose
    sites are in the site table. *)
Lemma aggregate_counts_bounded_witness :
  ∃ rows,
    _build_tract_agg_for_buffer 5 df_interactions df_sites = Ok rows
    ∧ length rows = 3%nat
    ∧ (∀ row, row ∈ rows →
         (Count_Customer_Sites row
          ≤ sites_matching (agg_categories row) df_sites)%nat)
    ∧ (∀ reg,
         (sum_list (Count_Customer_Sites
                    <$> filter (λ row, Region_ID row = reg) rows)
          ≤ interacting_sites fst snd reg
              (tract_site_pairs 5 df_interactions))%nat).
Proof.
  destruct (_build_tract_agg_for_buffer 5 df_interactions df_sites)
    as [rows|e] eqn:Hrows; [|by vm_compute in Hrows].
  exists rows. split; [done|]. split.
  { vm_compute in Hrows. by injection Hrows as <-. }
  destruct (aggregate_counts_bounded 5 df_interactions df_sites
              (_build_msa_map df_geocodemap)) as [Htract _].
  destruct (Htract rows Hrows) as [Hbound Hsum]. split; [|exact Hsum].
  intros row Hrow. apply (Hbound row Hrow). right.
  apply (proj1 (Forall_forall
                  (λ p : string * string,
                     snd p ∈ meta_Index_ID <$> site_meta df_sites) _)).
  by_computation.
Defined.

(** Site 9 interacts with a tract and is not in the site table: the tract
    aggregate has a row without categories that counts one site, and no site
    of the site table is without categories. *)
Lemma unknown_site_exceeds_site_table :
  ∃ rows row,
    _build_tract_agg_for_buffer 5 df_unknown_site df_sites = Ok rows
    ∧ row ∈ rows
    ∧ ¬ (Count_Customer_Sites row
         ≤ sites_matching (agg_categories row) df_sites)%nat.
Proof.
  eexists _, {| Range_Cover := 5;
                Region_ID := "01001020100";
                Count_Customer_Sites := 1;
                agg_categories := no_categories;
                Total_Stalls_Filled := (0 # 1)%Q |}.
  split; [by vm_compute|]. split; [right; left|].
  vm_compute. lia.
Qed.

(** The pair of tract 01001020200 and site 1 is aggregated under county
    01001. *)
Lemma county_id_is_tract_prefix_witness :
  let r := interaction_row 5 (CStr "01001020200") (CInt 1) in
  r ∈ df_interactions
  ∧ at_buffer 5 r
  ∧ ∃ cp, cp ∈ county_pairs_of (tract_site_pairs 5 df_interactions)
          ∧ County_GeoID cp = "01001"
          ∧ pair_Index_ID cp = "1".
Proof.
  set (r := interaction_row 5 (CStr "01001020200") (CInt 1)).
  assert (r ∈ df_interactions) as Hr by (do 2 right; left).
  assert (at_buffer 5 r) as Hb by done.
  split; [exact Hr|split; [exact Hb|]].
  destruct (county_id_is_tract_prefix 5 df_interactions
              (_build_msa_map df_geocodemap)) as (_ & _ & Hvalid & _).
  exact (proj1 (Hvalid r "01001020200" Hr Hb eq_refl eq_refl)).
Defined.

(** County 36061 has no row in the sample map: its interactions alone give an
    empty metro table, leaving them out of the sample interactions changes
    nothing, and the whole step does not raise on the sample. *)
Lemma metro_rows_only_for_mapped_counties_witness :
  _build_msa_agg_for_buffer 5 df_unmapped df_sites
    (_build_msa_map df_geocodemap) = Ok []
  ∧ _build_msa_agg_for_buffer 5
      (filter (λ r, county_in_map (_build_msa_map df_geocodemap)
                      (msa_county_of (tract_geoid_of r))) df_interactions)
      df_sites (_build_msa_map df_geocodemap)
    = _build_msa_agg_for_buffer 5 df_interactions df_sites
        (_build_msa_map df_geocodemap)
  ∧ is_raise (run_aggregations df_interactions df_sites df_geocodemap)
    = false.
Proof.
  destruct (metro_rows_only_for_mapped_counties 5 df_unmapped df_sites
              (_build_msa_map df_geocodemap)) as (_ & _ & Hnone & _).
  destruct (metro_rows_only_for_mapped_counties 5 df_interactions df_sites
              (_build_msa_map df_geocodemap)) as (_ & Hfilter & _).
  split; [|split; [exact Hfilter|by vm_compute]]. apply Hnone.
  - apply (proj1 (Forall_forall
                    (λ r, at_buffer 5 r →
                          ¬ county_in_map (_build_msa_map df_geocodemap)
                              (msa_county_of (tract_geoid_of r))) _)).
    by_computation.
  - by_computation.
Defined.


Import Geofence.

(** The sample zone lies in the first sample tract only. *)
Lemma geofence_rows_fixed_attributes_witness :
  snd (overlay [fence_zone] fence_tracts true)
  = Ok [ {| geo_Tract_GeoID := "01001020100";
            geo_Site_Type := "Customer Interest";
            geo_Customer_Segment := "AV";
            geo_Interested_Party := "Waymo";
            geo_Range_Cover := 0;
            geo_Count_Customer_Sites := 1;
            geo_Total_Stalls_Filled := (75 # 2)%Q;
            geo_Table_Name := "waymo_zone.kml";
            geo_Name := "zone";
            Tracts_Per_table := 1;
            Tracts_Per_Polygon := 1 |} ].
Proof.
  destruct (geofence_rows_fixed_attributes read_file) as [_ Hone].
  refine (Hone fence_zone (inject_Z 2, inject_Z 3)
            {| GEOID := "01001020100"; geometry := polygon 0 5 |}
            [] [ {| GEOID := "01001020200"; geometry := polygon 10 20 |} ]
            eq_refl eq_refl eq_refl eq_refl _).
  intros t' [->|[]%elem_of_nil]%elem_of_cons. reflexivity.
Defined.

(** The sample archive lists zone_b.kml before zone_a.kml: zone_b.kml is
    read and the warning is logged. *)
Lemma kmz_first_entry_in_archive_order_witness :
  snd (select_kml_entry (path_name two_kml_archive)
         (fst <$> zip_members two_kml_archive)) = Ok "zone_b.kml"
  ∧ (warning_multiple_kml "zone_b.kml" ["zone_b.kml"; "zone_a.kml"]
     ∈ fst (read_geofence_file read_file two_kml_archive))
  ∧ snd (read_geofence_file read_file two_kml_archive)
    = snd (normalize_frame (path_name two_kml_archive)
             (read_file (zip_read (zip_members two_kml_archive)
                           "zone_b.kml"))).
Proof.
  destruct (kmz_first_entry_in_archive_order read_file two_kml_archive
              "zone_b.kml" ["zone_a.kml"] eq_refl eq_refl eq_refl)
    as (_ & Hsel & Hwarn & Hread).
  split; [exact Hsel|]. split; [by apply Hwarn|]. by apply Hread.
Defined.

(** The entry read of the sample archive is not the first in lexical
    order. *)
Lemma kmz_pick_is_not_lexically_first :
  ¬ (∀ chosen,
       snd (select_kml_entry (path_name two_kml_archive)
              (fst <$> zip_members two_kml_archive)) = Ok chosen →
       ∀ n, n ∈ fst <$> zip_members two_kml_archive → is_kml n →
            str_le chosen n).
Proof.
  intros Hfirst.
  specialize (Hfirst "zone_b.kml" eq_refl "zone_a.kml").
  assert (str_le "zone_b.kml" "zone_a.kml") as Hle.
  { apply Hfirst; [do 2 right; left|reflexivity]. }
  by vm_compute in Hle.
Qed.

End samples.

(** * Further properties of the steps *)

(** ** Step 3.3: the pass and the run *)

Section interactions_more.
Import Interactions.
Context `{GeoEngine}.
Context (query_order : tract → list site → list site).

Abbreviation pass := (intersect_pairs_with_count query_order).

(** X1. A (tract ID, site ID) is in the table of a pass exactly when some
    tract with that ID intersects the buffer of some site with that ID. *)
Theorem pass_pairs_sound_complete sites tracts miles g i :
  (∀ t l, query_order t l ≡ₚ l) →
  (g, i) ∈ tbl_key <$> fst (pass sites tracts miles)
  ↔ ∃ t s, t ∈ tracts ∧ s ∈ sites ∧ GEOID t = g ∧ Index_ID s = i
           ∧ intersects (geometry t)
               (buffer (site_geometry s) (MI_TO_M * miles)%Q) = true.
Proof.
  intros Ho. rewrite pass_keys, elem_of_drop_duplicates_keys.
  rewrite list_elem_of_fmap. split.
  - intros ([t s] & [= -> ->] & Hts).
    apply (elem_of_sjoin _ _ _ _ _ Ho) in Hts as (Ht & d & Hsd & Hi).
    unfold buffered in Hsd.
    apply list_elem_of_fmap in Hsd as (s' & [= <- ->] & Hs).
    by exists t, s.
  - intros (t & s & Ht & Hs & <- & <- & Hi). exists (t, s).
    split; [done|]. apply (elem_of_sjoin _ _ _ _ _ Ho). split; [done|].
    eexists. split; [|exact Hi]. unfold buffered.
    apply list_elem_of_fmap. by exists s.
Qed.

Lemma length_omap_id_NoDup {V} `{EqDecision V} (l : list (option V)) :
  (∀ x, length (filter (λ y, y = Some x) l) ≤ 1)%nat →
  nunique l = length (filter is_Some l).
Proof.
  intros Hone. unfold nunique.
  rewrite length_remove_dups_NoDup.
  - induction l as [|[x|] l IH]; [done| |].
    + rewrite filter_cons_True by done. simpl. f_equal. apply IH.
      intros y. specialize (Hone y). rewrite filter_cons in Hone.
      case_decide; simpl in *; lia.
    + rewrite filter_cons_False by (by intros [??]). simpl. apply IH.
      intros y. specialize (Hone y).
      by rewrite filter_cons_False in Hone.
  - induction l as [|[x|] l IH]; simpl; [constructor| |].
    + constructor.
      * rewrite elem_of_omap_id. intros Hx.
        specialize (Hone x). rewrite filter_cons_True in Hone by done.
        assert (Some x ∈ filter (λ y, y = Some x) l) as Hf
          by (by apply list_elem_of_filter).
        destruct (filter _ l); [by apply elem_of_nil in Hf|simpl in *; lia].
      * apply IH. intros y. specialize (Hone y).
        rewrite filter_cons in Hone. case_decide; simpl in *; lia.
    + apply IH. intros y. specialize (Hone y).
      by rewrite filter_cons_False in Hone.
Qed.

Lemma group_ids_distinct miles j k x :
  (length (filter (λ y, y = Some x)
             (pair_Index_ID
              <$> group_rows count_key k (pairs_of_join miles j))) ≤ 1)%nat.
Proof.
  pose proof (NoDup_pairs_of_join miles j) as Hnd.
  unfold group_rows. rewrite filter_fmap, length_fmap, list_filter_filter.
  set (pairs := pairs_of_join miles j) in *.
  assert (∀ l : list pair_row,
            NoDup ((λ p, (Geoid p, pair_Index_ID p)) <$> l) →
            (length (filter (λ p, pair_Index_ID p = Some x
                                  ∧ count_key p = k) l) ≤ 1)%nat) as Hl.
  { intros l. induction l as [|p l IH]; [simpl; lia|].
    rewrite fmap_cons, NoDup_cons. intros [Hp Hnd']. rewrite filter_cons.
    case_decide as Hpk; [|by apply IH]. simpl.
    assert (filter (λ p, pair_Index_ID p = Some x ∧ count_key p = k) l = [])
      as ->; [|simpl; lia].
    destruct (filter _ l) as [|q qs] eqn:Hf; [done|]. exfalso.
    assert (q ∈ filter (λ p, pair_Index_ID p = Some x ∧ count_key p = k) l)
      as [[Hq1 Hq2] Hq]%list_elem_of_filter by (rewrite Hf; by left).
    apply Hp. apply list_elem_of_fmap. exists q. split; [|done].
    destruct Hpk as [Hp1 Hp2]. unfold count_key in *.
    rewrite <- Hq2 in Hp2. injection Hp2 as _ Hg. by rewrite Hg, Hp1, Hq1. }
  by apply Hl.
Qed.

(** X2. The [counts] frame of a pass has one row per tract ID of the table,
    labelled with the radius; its counts add up to the number of rows of the
    table that have a site ID, and no count exceeds the number of distinct
    site IDs of the table. *)
Theorem counts_frame_spec sites tracts miles :
  let tbl := fst (pass sites tracts miles) in
  let counts := snd (pass sites tracts miles) in
  NoDup (count_rkey <$> counts)
  ∧ (∀ k, k ∈ count_rkey <$> counts
          ↔ k ∈ (λ r, count_key (row_pair r)) <$> tbl)
  ∧ (∀ c, c ∈ counts → count_Cover_Range c = py_round miles)
  ∧ sum_list (count_value <$> counts)
    = length (filter (λ r, is_Some (pair_Index_ID (row_pair r))) tbl)
  ∧ (∀ c, c ∈ counts →
          (count_value c
           ≤ nunique ((λ r, pair_Index_ID (row_pair r)) <$> tbl))%nat).
Proof.
  cbv zeta. rewrite pass_table. cbv zeta.
  unfold intersect_pairs_with_count, intersect_pairs_with_count_on.
  cbn [snd].
  set (j := sjoin query_order tracts (buffered miles sites)).
  set (pairs := pairs_of_join miles j).
  assert (∀ p, p ∈ pairs → ∃ t s, (t, s) ∈ j ∧ p = mk_pair miles (t, s))
    as Hsrc.
  { intros p ([t s] & -> & Hts%drop_duplicates_subseteq)%list_elem_of_fmap.
    by exists t, s. }
  split; [apply NoDup_counts_of|]. split; [|split; [|split]].
  - intros k. rewrite counts_of_keys, merge_sort_Permutation,
      elem_of_remove_dups, <- list_fmap_compose. done.
  - intros c (k & -> & Hk)%list_elem_of_fmap. simpl.
    rewrite merge_sort_Permutation, elem_of_remove_dups in Hk.
    apply list_elem_of_fmap in Hk as (p & -> & Hp).
    by apply Hsrc in Hp as (t & s & _ & ->).
  - unfold counts_of. rewrite <- list_fmap_compose.
    rewrite filter_fmap, length_fmap. simpl.
    rewrite <- (sum_group_lengths count_key
                  (merge_sort count_key_le (remove_dups (count_key <$> pairs)))
                  (filter (λ p, is_Some (pair_Index_ID p)) pairs)).
    + f_equal. apply list_fmap_ext. intros i k _. simpl.
      rewrite length_omap_id_NoDup by apply group_ids_distinct.
      unfold group_rows. rewrite filter_fmap, length_fmap.
      rewrite !list_filter_filter. f_equal.
      apply list_filter_iff. tauto.
    + rewrite merge_sort_Permutation. apply NoDup_remove_dups.
    + intros p [_ Hp]%list_elem_of_filter.
      rewrite merge_sort_Permutation, elem_of_remove_dups.
      by apply list_elem_of_fmap_2.
  - intros c (k & -> & _)%list_elem_of_fmap. simpl.
    apply nunique_mono. intros x (p & Hx & Hp)%list_elem_of_fmap.
    apply list_elem_of_filter in Hp as [_ Hp].
    rewrite <- list_fmap_compose. apply list_elem_of_fmap. by exists p.
Qed.

Lemma length_concat_sum {A} (ls : list (list A)) :
  length (concat ls) = sum_list (length <$> ls).
Proof.
  induction ls as [|l ls IH]; [done|].
  rewrite fmap_cons. simpl. by rewrite length_app, IH.
Qed.

Lemma string_trichotomy (a b : string) :
  String.ltb a b = true ∨ a = b ∨ String.ltb b a = true.
Proof.
  unfold String.ltb. rewrite (String.compare_antisym b a).
  destruct (String.compare a b) eqn:Hc; simpl; auto.
  right; left. by apply String.compare_eq_iff.
Qed.

#[local] Instance id_le_total : Total id_le.
Proof. intros [x|] [y|]; simpl; auto. lia. Qed.

#[local] Instance row_le_total : Total row_le.
Proof.
  intros a b. unfold row_le. cbv zeta.
  destruct (Z.lt_trichotomy (Cover_Range (row_pair a))
              (Cover_Range (row_pair b))) as [?|[Hc|?]];
    [by left; left| |by right; left].
  destruct (string_trichotomy (Geoid (row_pair a)) (Geoid (row_pair b)))
    as [?|[Hg|?]].
  - left. right. split; [done|]. by left.
  - destruct (total id_le (pair_Index_ID (row_pair a))
                (pair_Index_ID (row_pair b))).
    + left. right. split; [done|]. right. by split.
    + right. right. split; [done|]. right. by split.
  - right. right. split; [done|]. by left.
Qed.

(** X3. The table a run writes is in the order of (Cover_Range, Geoid,
    Index_ID), rows without Index_ID last within a tract; it is not empty and
    has as many rows as the passes of all the radii together. *)
Theorem run_output_sorted sites tracts t :
  snd (run_tract_site_interactions query_order sites tracts) = Ok t →
  Sorted row_le t
  ∧ t ≠ []
  ∧ length t
    = sum_list ((λ r, length (fst (pass sites tracts r))) <$> radii).
Proof.
  unfold run_tract_site_interactions, run_over_radii.
  pose proof (radius_loop_frames query_order sites tracts radii) as Hf.
  destruct (radius_loop query_order sites tracts radii) as [lines pairs_all].
  cbn [snd] in Hf. subst pairs_all.
  destruct (_ <$> radii) as [|frame frames] eqn:Hframes; [done|].
  case_decide as Hlen; [done|]. cbn [snd]. intros [= <-].
  split; [apply Sorted_merge_sort, _|]. split.
  - intros Hnil. apply Hlen. unfold sort_values in Hnil.
    pose proof (Permutation_length
                  (merge_sort_Permutation row_le (frame ++ concat frames)))
      as Hperm.
    by rewrite Hnil in Hperm.
  - unfold sort_values.
    rewrite (Permutation_length
               (merge_sort_Permutation row_le (frame ++ concat frames))).
    change (frame ++ concat frames) with (concat (frame :: frames)).
    rewrite <- Hframes, length_concat_sum. by rewrite <- list_fmap_compose.
Qed.

End interactions_more.

(** ** Step 3.4: the aggregate tables *)

Lemma nunique_pos {V} `{EqDecision V} (l : list (option V)) x :
  Some x ∈ l → (1 ≤ nunique l)%nat.
Proof.
  intros Hx. unfold nunique.
  assert (x ∈ remove_dups (omap id l)) as Hin
    by (by rewrite elem_of_remove_dups, elem_of_omap_id).
  destruct (remove_dups _); [by apply elem_of_nil in Hin|simpl; lia].
Qed.

Lemma Qsum_app l1 l2 :
  (Aggregations.Qsum (l1 ++ l2)
   == Aggregations.Qsum l1 + Aggregations.Qsum l2)%Q.
Proof.
  induction l1 as [|x l1 IH]; simpl; [ring|]. rewrite IH. ring.
Qed.

Section aggregate_more.
Import Aggregations.
Context {R P : Type} `{EqDecision R}.
Context (region_le : relation R) `{!RelDecision region_le}.
Context (region_of : P → R) (id_of : P → string).

Abbreviation agg := (aggregate region_le region_of id_of).
Abbreviation gkey := (group_key region_of).

Lemma aggregate_keys_NoDup b rows :
  NoDup ((λ row, (Region_ID row, agg_categories row)) <$> agg b rows).
Proof.
  destruct (aggregate_groups region_le region_of id_of b rows)
    as (ks & Hks & ->).
  rewrite <- list_fmap_compose.
  rewrite (list_fmap_ext _ id ks) by (by intros ? [??] _).
  rewrite list_fmap_id, Hks. apply NoDup_remove_dups.
Qed.

Lemma aggregate_count_pos b rows row :
  row ∈ agg b rows → (1 ≤ Count_Customer_Sites row)%nat.
Proof.
  intros (e & He & _ & _ & _ & ->)%elem_of_aggregate.
  apply (nunique_pos _ (id_of (fst e))).
  apply list_elem_of_fmap. exists e. split; [done|].
  by apply list_elem_of_filter.
Qed.

Lemma aggregate_has_row b rows e :
  e ∈ rows →
  ∃ row, row ∈ agg b rows
    ∧ Region_ID row = region_of (fst e)
    ∧ agg_categories row = categories_of (snd e)
    ∧ Count_Customer_Sites row
      = nunique ((λ e', Some (id_of (fst e')))
                 <$> group_rows gkey (gkey e) rows).
Proof.
  intros He.
  destruct (aggregate_groups region_le region_of id_of b rows)
    as (ks & Hks & ->).
  eexists. split.
  - apply list_elem_of_fmap. exists (gkey e). split; [done|].
    rewrite Hks, elem_of_remove_dups. by apply list_elem_of_fmap_2.
  - done.
Qed.

Lemma Qsum_filter_split (f : P * option site_meta_row → Q)
    (Pr : P * option site_meta_row → Prop) `{∀ x, Decision (Pr x)} l :
  (Qsum (f <$> l)
   == Qsum (f <$> filter Pr l) + Qsum (f <$> filter (λ x, ¬ Pr x) l))%Q.
Proof.
  induction l as [|x l IH]; [simpl; ring|].
  rewrite fmap_cons, !filter_cons. simpl. rewrite IH.
  destruct (decide (Pr x)); [rewrite decide_False by tauto|
                             rewrite decide_True by done];
    rewrite fmap_cons; simpl; ring.
Qed.

Lemma Qsum_groups (f : P * option site_meta_row → Q) ks l :
  NoDup ks → (∀ x, x ∈ l → gkey x ∈ ks) →
  (Qsum ((λ k, Qsum (f <$> group_rows gkey k l)) <$> ks)
   == Qsum (f <$> l))%Q.
Proof.
  unfold group_rows. revert l.
  induction ks as [|k ks IH]; intros l Hnd Hin.
  - destruct l as [|x l]; [reflexivity|].
    specialize (Hin x ltac:(by left)). by apply elem_of_nil in Hin.
  - apply NoDup_cons in Hnd as [Hk Hnd]. rewrite fmap_cons. simpl.
    rewrite (Qsum_filter_split f (λ x, gkey x = k) l).
    rewrite <- (IH (filter (λ x, ¬ gkey x = k) l)); [|done|].
    + apply Qplus_comp; [reflexivity|].
      assert ((λ k0, Qsum (f <$> filter (λ x, gkey x = k0) l)) <$> ks
              = (λ k0, Qsum (f <$> filter (λ x, gkey x = k0)
                                     (filter (λ x, ¬ gkey x = k) l))) <$> ks)
        as ->; [|reflexivity].
      apply list_fmap_ext. intros i k' Hk'.
      apply list_elem_of_lookup_2 in Hk'.
      rewrite list_filter_filter. do 2 f_equal.
      apply list_filter_iff. intros x. split; [|by intros [? _]].
      intros Hx. split; [done|]. intros Hx'. apply Hk. congruence.
    + intros x [Hne Hx]%list_elem_of_filter.
      specialize (Hin x Hx). apply elem_of_cons in Hin as [?|?]; done.
Qed.

(** The stalls of the rows of a region are the stalls of its pairs. *)
Lemma aggregate_region_stalls b rows reg :
  (Qsum (Total_Stalls_Filled
         <$> filter (λ row, Region_ID row = reg) (agg b rows))
   == Qsum ((λ e, stalls_of (snd e))
            <$> filter (λ e, region_of (fst e) = reg) rows))%Q.
Proof.
  destruct (aggregate_groups region_le region_of id_of b rows)
    as (ks & Hks & ->).
  rewrite filter_fmap, <- list_fmap_compose.
  rewrite <- (Qsum_groups (λ e, stalls_of (snd e))
                (filter (λ k, fst k = reg) ks)
                (filter (λ e, region_of (fst e) = reg) rows)).
  - assert (∀ l : list (R * categories), (∀ k, k ∈ l → fst k = reg) →
      (Total_Stalls_Filled ∘ (λ k : R * categories,
         {| Range_Cover := b; Region_ID := fst k;
            Count_Customer_Sites :=
              nunique ((λ e, Some (id_of (fst e))) <$> group_rows gkey k rows);
            agg_categories := snd k;
            Total_Stalls_Filled :=
              Qsum ((λ e, stalls_of (snd e)) <$> group_rows gkey k rows) |}))
      <$> l
      = (λ k, Qsum ((λ e, stalls_of (snd e))
                    <$> group_rows gkey k
                          (filter (λ e, region_of (fst e) = reg) rows)))
        <$> l) as Heq.
    { intros l Hl. apply list_fmap_ext. intros i k Hk.
      apply list_elem_of_lookup_2 in Hk. specialize (Hl k Hk).
      unfold compose. cbn [Total_Stalls_Filled]. unfold group_rows.
      rewrite list_filter_filter. do 2 f_equal.
      apply list_filter_iff. intros e. split; [|by intros [? _]].
      intros He. split; [done|]. unfold group_key in He.
      by rewrite <- Hl, <- He. }
    rewrite Heq; [reflexivity|]. by intros k [? _]%list_elem_of_filter.
  - apply NoDup_filter. rewrite Hks. apply NoDup_remove_dups.
  - intros e [Hreg He]%list_elem_of_filter.
    apply list_elem_of_filter. split; [done|].
    rewrite Hks, elem_of_remove_dups. by apply list_elem_of_fmap_2.
Qed.

End aggregate_more.

Section aggregation_more.
Import Aggregations.
Implicit Types (df : list interaction) (df_sites : list site).
Implicit Types (msa_map : list msa_map_row) (b : Z).

(** X4. In the aggregate table of a radius, at each level, no two rows have
    the same region and categories, and every row carries the radius as
    [Range_Cover]; when no interaction of the radius has a missing site
    identifier, every row counts at least one site. *)
Theorem aggregate_rows_wellformed b df df_sites msa_map :
  (∀ rows, _build_tract_agg_for_buffer b df df_sites = Ok rows →
     NoDup ((λ row, (Region_ID row, agg_categories row)) <$> rows)
     ∧ ∀ row, row ∈ rows →
         Range_Cover row = b
         ∧ (ids_present b df → (1 ≤ Count_Customer_Sites row)%nat))
  ∧ (∀ rows, _build_county_agg_for_buffer b df df_sites = Ok rows →
     NoDup ((λ row, (Region_ID row, agg_categories row)) <$> rows)
     ∧ ∀ row, row ∈ rows →
         Range_Cover row = b
         ∧ (ids_present b df → (1 ≤ Count_Customer_Sites row)%nat))
  ∧ (∀ rows, _build_msa_agg_for_buffer b df df_sites msa_map = Ok rows →
     NoDup ((λ row, (Region_ID row, agg_categories row)) <$> rows)
     ∧ ∀ row, row ∈ rows →
         Range_Cover row = b
         ∧ (ids_present b df → (1 ≤ Count_Customer_Sites row)%nat)).
Proof.
  split; [|split].
  - intros rows [_ ->]%build_tract_Ok.
    split; [apply aggregate_keys_NoDup|]. intros row Hrow. split.
    + by apply elem_of_aggregate in Hrow as (_ & _ & ? & _).
    + intros _. by apply aggregate_count_pos in Hrow.
  - intros rows [_ ->]%build_county_Ok.
    split; [apply aggregate_keys_NoDup|]. intros row Hrow. split.
    + by apply elem_of_aggregate in Hrow as (_ & _ & ? & _).
    + intros _. by apply aggregate_count_pos in Hrow.
  - intros rows [_ ->]%build_msa_Ok.
    split; [apply aggregate_keys_NoDup|]. intros row Hrow. split.
    + by apply elem_of_aggregate in Hrow as (_ & _ & ? & _).
    + intros _. by apply aggregate_count_pos in Hrow.
Qed.

(** X5. At each level the stalls of the rows of a region, over all the
    category combinations, add up to the stalls of the sites of the pairs of
    the region, each pair once, a site that is not in the site table adding
    nothing.  This is stated where the float sums of the code are exact and
    the identifiers are strings under every version of pandas: no identifier
    of the radius or of the site table is missing, the stalls are whole
    numbers that are not negative, and those of the region add up to at
    most 2^53. *)
Theorem stalls_conserved b df df_sites msa_map :
  let stalls := λ i, stalls_of (lookup_meta (site_meta df_sites) i) in
  cells_present b df df_sites → whole_stalls df_sites →
  (∀ rows reg, _build_tract_agg_for_buffer b df df_sites = Ok rows →
     let total := Qsum ((λ p, stalls (snd p))
                        <$> filter (λ p, fst p = reg)
                              (tract_site_pairs b df)) in
     (total <= EXACT_MAX)%Q →
     (Qsum (Total_Stalls_Filled <$> filter (λ row, Region_ID row = reg) rows)
      == total)%Q)
  ∧ (∀ rows reg, _build_county_agg_for_buffer b df df_sites = Ok rows →
     let total := Qsum ((λ p, stalls (pair_Index_ID p))
                        <$> filter (λ p, County_GeoID p = reg)
                              (county_pairs_of (tract_site_pairs b df))) in
     (total <= EXACT_MAX)%Q →
     (Qsum (Total_Stalls_Filled <$> filter (λ row, Region_ID row = reg) rows)
      == total)%Q)
  ∧ (∀ rows reg,
       _build_msa_agg_for_buffer b df df_sites msa_map = Ok rows →
     let total := Qsum ((λ p, stalls (pair_Index_ID (fst p)))
                        <$> filter (λ p, snd p = reg)
                              (msa_pairs_of (tract_site_pairs b df)
                                 msa_map)) in
     (total <= EXACT_MAX)%Q →
     (Qsum (Total_Stalls_Filled <$> filter (λ row, Region_ID row = reg) rows)
      == total)%Q).
Proof.
  intros stalls _ _. split; [|split].
  - intros rows reg [_ ->]%build_tract_Ok total _. unfold total.
    rewrite aggregate_region_stalls, filter_fmap, <- list_fmap_compose.
    reflexivity.
  - intros rows reg [_ ->]%build_county_Ok total _. unfold total.
    rewrite aggregate_region_stalls, filter_fmap, <- list_fmap_compose.
    reflexivity.
  - intros rows reg [_ ->]%build_msa_Ok total _. unfold total.
    rewrite aggregate_region_stalls, filter_fmap, <- list_fmap_compose.
    reflexivity.
Qed.

(** X6. Rolling up does not lose sites: for every row of the tract table of
    a radius the county table of the radius has a row for the county of the
    tract with the same categories, and it counts at least as many sites. *)
Theorem county_row_dominates_tract_row b df df_sites tract_rows county_rows row :
  _build_tract_agg_for_buffer b df df_sites = Ok tract_rows →
  _build_county_agg_for_buffer b df df_sites = Ok county_rows →
  row ∈ tract_rows →
  ∃ crow, crow ∈ county_rows
    ∧ Region_ID crow = str_take 5 (Region_ID row)
    ∧ agg_categories crow = agg_categories row
    ∧ (Count_Customer_Sites row ≤ Count_Customer_Sites crow)%nat.
Proof.
  intros [_ ->]%build_tract_Ok [_ ->]%build_county_Ok
    (e & He & _ & Hreg & Hcat & ->)%elem_of_aggregate.
  apply list_elem_of_fmap in He as (p & -> & Hp). cbn [fst snd] in *.
  set (meta := site_meta df_sites) in *.
  set (pairs := tract_site_pairs b df) in *.
  destruct (county_pairs_of_keeps pairs p Hp) as (cp & Hcp & Hc & Hi).
  destruct (aggregate_has_row str_le County_GeoID pair_Index_ID b
              ((λ p, (p, lookup_meta meta (pair_Index_ID p)))
               <$> county_pairs_of pairs)
              (cp, lookup_meta meta (pair_Index_ID cp)))
    as (crow & Hcrow & Hcreg & Hccat & Hcount).
  { apply list_elem_of_fmap. by exists cp. }
  exists crow. cbn [fst snd] in *. split; [done|].
  split; [by rewrite Hcreg, Hc, Hreg|].
  split; [by rewrite Hccat, Hcat, Hi|].
  rewrite Hcount. apply nunique_mono. intros x.
  rewrite !list_elem_of_fmap.
  intros (e' & [= ->] & [Hk He']%list_elem_of_filter).
  apply list_elem_of_fmap in He' as (p' & -> & Hp'). cbn [fst snd] in *.
  unfold group_key in Hk. cbn [fst snd] in Hk. injection Hk as Hk1 Hk2.
  destruct (county_pairs_of_keeps pairs p' Hp') as (cp' & Hcp' & Hc' & Hi').
  exists (cp', lookup_meta meta (pair_Index_ID cp')). cbn [fst].
  split; [by rewrite Hi'|]. apply list_elem_of_filter. split.
  - unfold group_key. cbn [fst snd]. by rewrite Hc', Hi', Hc, Hi, Hk1, Hk2.
  - apply list_elem_of_fmap. by exists cp'.
Qed.

End aggregation_more.

(** ** Step 3.4: the whole step *)

Lemma drop_duplicates_nil {A K} `{EqDecision K} (key : A → K) l :
  drop_duplicates key l = [] ↔ l = [].
Proof.
  split; [|by intros ->].
  destruct l as [|x l]; [done|]. intros Hnil.
  destruct (drop_duplicates_keeps_keys key (x :: l) x) as (y & Hy & _);
    [by left|].
  rewrite Hnil in Hy. by apply elem_of_nil in Hy.
Qed.

Lemma fmap_eq_nil {A B} (f : A → B) l : f <$> l = [] ↔ l = [].
Proof. split; [apply fmap_nil_inv|by intros ->]. Qed.

Lemma mapM_Ok {A B} (f : A → result B) (g : A → B) l :
  (∀ x, x ∈ l → f x = Ok (g x)) → mapM f l = Ok (g <$> l).
Proof.
  induction l as [|x l IH]; intros Hf; [done|]. cbn.
  rewrite (Hf x) by left. cbn.
  rewrite IH by (intros; apply Hf; by right). done.
Qed.

Lemma mapM_Raise {A B} (f : A → result B) e x l :
  f x = Raise e → mapM f (x :: l) = Raise e.
Proof. intros Hf. cbn. by rewrite Hf. Qed.

Lemma concat_nil {A} (ls : list (list A)) :
  concat ls = [] ↔ ∀ l, l ∈ ls → l = [].
Proof.
  induction ls as [|l ls IH]; simpl.
  - split; [|done]. by intros _ l ?%elem_of_nil.
  - split.
    + intros [-> Hls]%app_eq_nil l' [->|?]%elem_of_cons; [done|].
      by apply IH.
    + intros Hl. rewrite (Hl l) by left. simpl. apply IH.
      intros; apply Hl; by right.
Qed.

Lemma filter_all {A} (P : A → Prop) `{∀ x, Decision (P x)} (l : list A) :
  (∀ x, x ∈ l → P x) → filter P l = l.
Proof.
  induction l as [|x l IH]; intros HP; [done|].
  rewrite filter_cons, decide_True by (apply HP; by left).
  f_equal. apply IH. intros; apply HP; by right.
Qed.

Lemma filter_none {A} (P : A → Prop) `{∀ x, Decision (P x)} (l : list A) :
  (∀ x, x ∈ l → ¬ P x) → filter P l = [].
Proof.
  induction l as [|x l IH]; intros HP; [done|].
  rewrite filter_cons, decide_False by (apply HP; by left).
  apply IH. intros; apply HP; by right.
Qed.

Lemma constant_sorted (b : Z) (l : list Z) :
  (∀ x, x ∈ l → x = b) → StronglySorted Z.le l.
Proof.
  induction l as [|x l IH]; intros Hl; constructor.
  - apply IH. intros; apply Hl; by right.
  - apply Forall_forall. intros y Hy.
    rewrite (Hl x) by left. rewrite (Hl y) by (by right). done.
Qed.

Section frames_by_key.
Context {A : Type} (rc : A → Z) (f : Z → list A).
Hypothesis rc_f : ∀ b row, row ∈ f b → rc row = b.

Lemma concat_frames_key bs row :
  row ∈ concat (f <$> bs) → rc row ∈ bs.
Proof.
  intros (l & Hrow & (b & -> & Hb)%list_elem_of_fmap)%elem_of_concat.
  by rewrite (rc_f b row).
Qed.

Lemma concat_frames_slice bs b :
  NoDup bs → b ∈ bs →
  filter (λ row, rc row = b) (concat (f <$> bs)) = f b.
Proof.
  induction bs as [|b0 bs IH]; intros Hnd Hb; [by apply elem_of_nil in Hb|].
  apply NoDup_cons in Hnd as [Hb0 Hnd]. cbn [fmap list_fmap concat].
  rewrite filter_app. destruct (decide (b = b0)) as [->|Hne].
  - rewrite filter_all by apply rc_f.
    rewrite filter_none; [by rewrite app_nil_r|].
    intros row Hrow%concat_frames_key Heq. by rewrite Heq in Hrow.
  - apply elem_of_cons in Hb as [?|Hb]; [done|].
    rewrite filter_none.
    + by apply IH.
    + intros row Hrow Heq. by rewrite (rc_f b0 row) in Heq.
Qed.

Lemma concat_frames_sorted bs :
  StronglySorted Z.le bs → StronglySorted Z.le (rc <$> concat (f <$> bs)).
Proof.
  induction 1 as [|b0 bs Hs IH Hall]; [constructor|].
  cbn [fmap list_fmap concat]. rewrite fmap_app.
  apply StronglySorted_app_2.
  - intros x y (r1 & -> & Hr1)%list_elem_of_fmap
      (r2 & -> & Hr2%concat_frames_key)%list_elem_of_fmap.
    rewrite (rc_f b0 r1) by done.
    by apply (proj1 (Forall_forall _ _) Hall).
  - apply constant_sorted with b0.
    intros x (r & -> & Hr)%list_elem_of_fmap. by apply rc_f.
  - done.
Qed.

End frames_by_key.

Section aggregate_more2.
Import Aggregations.
Context {R P : Type} `{EqDecision R}.
Context (region_le : relation R) `{!RelDecision region_le}.
Context (region_of : P → R) (id_of : P → string).

Lemma aggregate_eq_nil b (rows : list (P * option site_meta_row)) :
  aggregate region_le region_of id_of b rows = [] ↔ rows = [].
Proof.
  split; [|intros ->; apply aggregate_nil].
  destruct rows as [|e rows]; [done|]. intros Hnil.
  destruct (aggregate_has_row region_le region_of id_of b (e :: rows) e)
    as (row & Hrow & _); [by left|].
  rewrite Hnil in Hrow. by apply elem_of_nil in Hrow.
Qed.

End aggregate_more2.

Section run_aggregations_facts.
Import Aggregations Sheets.
Implicit Types (df : list interaction) (df_sites : list site).
Implicit Types (df_geocodemap : list geocode_row) (b : Z).

Lemma site_meta_normalize df_sites :
  site_meta (normalize_sites df_sites) = site_meta df_sites.
Proof.
  unfold site_meta, normalize_sites. rewrite <- list_fmap_compose.
  by apply list_fmap_ext.
Qed.

Lemma tract_site_pairs_normalize b df :
  tract_site_pairs b (normalize_interactions df) = tract_site_pairs b df.
Proof.
  unfold tract_site_pairs, normalize_interactions. f_equal.
  rewrite filter_fmap, <- list_fmap_compose. by apply list_fmap_ext.
Qed.

Lemma site_meta_ids df_sites :
  meta_Index_ID <$> site_meta df_sites
  = (λ s, astype_str (site_Index_ID s)) <$> df_sites.
Proof. unfold site_meta. by rewrite <- list_fmap_compose. Qed.

(** X7. The type normalisation of [run_aggregations] changes nothing of what
    the builders compute: they convert the identifiers to strings again
    themselves. *)
Theorem builders_ignore_normalisation b df df_sites msa_map :
  _build_tract_agg_for_buffer b (normalize_interactions df)
      (normalize_sites df_sites)
  = _build_tract_agg_for_buffer b df df_sites
  ∧ _build_county_agg_for_buffer b (normalize_interactions df)
      (normalize_sites df_sites)
    = _build_county_agg_for_buffer b df df_sites
  ∧ _build_msa_agg_for_buffer b (normalize_interactions df)
      (normalize_sites df_sites) msa_map
    = _build_msa_agg_for_buffer b df df_sites msa_map.
Proof.
  unfold _build_tract_agg_for_buffer, _build_county_agg_for_buffer,
    _build_msa_agg_for_buffer.
  by rewrite tract_site_pairs_normalize, site_meta_normalize.
Qed.

Lemma elem_of_build_msa_map df_geocodemap m :
  m ∈ _build_msa_map df_geocodemap ↔
  ∃ g, g ∈ df_geocodemap
    ∧ is_Some (Metropolitan_Division_Code g)
    ∧ map_County_GeoID m = zfill 5 (astype_str (CLEAN_County_Geoid g))
    ∧ MSA_Name m = Metropolitan_Division_Code g.
Proof.
  unfold _build_msa_map. split.
  - intros Hm%drop_duplicates_subseteq.
    apply list_elem_of_fmap in Hm as (g & -> & [Hg Hin]%list_elem_of_filter).
    by exists g.
  - intros (g & Hg & Hsome & Hc & Hn).
    set (l := _ <$> filter _ df_geocodemap).
    destruct (drop_duplicates_keeps_keys
                (λ r, (map_County_GeoID r, MSA_Name r)) l m)
      as (y & Hy & Hkey).
    { apply list_elem_of_fmap. exists g. split.
      - destruct m; simpl in *; by subst.
      - by apply list_elem_of_filter. }
    injection Hkey as Hk1 Hk2.
    destruct y, m; simpl in *; by subst.
Qed.

(** X8. The county-to-metro map has no row twice; its rows are the (padded
    county, metro code) of the rows of the sheet that have a metro code;
    every county in it has at least five characters; and it is empty exactly
    when no row of the sheet has a metro code. *)
Theorem msa_map_rows df_geocodemap :
  let msa_map := _build_msa_map df_geocodemap in
  NoDup msa_map
  ∧ (∀ m, m ∈ msa_map ↔
       ∃ g, g ∈ df_geocodemap
         ∧ is_Some (Metropolitan_Division_Code g)
         ∧ map_County_GeoID m = zfill 5 (astype_str (CLEAN_County_Geoid g))
         ∧ MSA_Name m = Metropolitan_Division_Code g)
  ∧ (∀ m, m ∈ msa_map →
       is_Some (MSA_Name m) ∧ (5 ≤ String.length (map_County_GeoID m))%nat)
  ∧ (msa_map = [] ↔
       ∀ g, g ∈ df_geocodemap → Metropolitan_Division_Code g = None).
Proof.
  intros msa_map.
  pose proof (elem_of_build_msa_map df_geocodemap) as Hin.
  fold msa_map in Hin.
  split; [|split; [done|split]].
  - eapply (NoDup_fmap_1 (λ r, (map_County_GeoID r, MSA_Name r))).
    apply NoDup_drop_duplicates.
  - intros m (g & _ & Hsome & -> & ->)%Hin. split; [done|].
    rewrite length_zfill. lia.
  - split.
    + intros Hnil g Hg.
      destruct (Metropolitan_Division_Code g) as [z|] eqn:Hz; [|done].
      assert ({| map_County_GeoID := zfill 5 (astype_str (CLEAN_County_Geoid g));
                 MSA_Name := Some z |} ∈ msa_map) as Hm.
      { apply Hin. exists g. by rewrite Hz. }
      rewrite Hnil in Hm. by apply elem_of_nil in Hm.
    + intros Hnone. destruct msa_map as [|m l] eqn:Hl; [done|].
      destruct (proj1 (Hin m)) as (g & Hg & Hsome & _); [by left|].
      rewrite (Hnone g Hg) in Hsome. by destruct Hsome.
Qed.

Lemma build_tract_total b df df_sites :
  NoDup ((λ s, astype_str (site_Index_ID s)) <$> df_sites) →
  _build_tract_agg_for_buffer b df df_sites
  = Ok (aggregate str_le fst snd b
          ((λ p, (p, lookup_meta (site_meta df_sites) (snd p)))
           <$> tract_site_pairs b df)).
Proof.
  intros Hnd. rewrite <- site_meta_ids in Hnd.
  destruct (_build_tract_agg_for_buffer b df df_sites) as [rows|e] eqn:Hb.
  - by apply build_tract_Ok in Hb as [_ ->].
  - unfold _build_tract_agg_for_buffer, merge_site_meta in Hb.
    by rewrite decide_True in Hb.
Qed.

Lemma build_county_total b df df_sites :
  NoDup ((λ s, astype_str (site_Index_ID s)) <$> df_sites) →
  _build_county_agg_for_buffer b df df_sites
  = Ok (aggregate str_le County_GeoID pair_Index_ID b
          ((λ p, (p, lookup_meta (site_meta df_sites) (pair_Index_ID p)))
           <$> county_pairs_of (tract_site_pairs b df))).
Proof.
  intros Hnd. rewrite <- site_meta_ids in Hnd.
  destruct (_build_county_agg_for_buffer b df df_sites) as [rows|e] eqn:Hb.
  - by apply build_county_Ok in Hb as [_ ->].
  - unfold _build_county_agg_for_buffer, merge_site_meta in Hb.
    by rewrite decide_True in Hb.
Qed.

Lemma build_msa_total b df df_sites msa_map :
  NoDup ((λ s, astype_str (site_Index_ID s)) <$> df_sites) →
  _build_msa_agg_for_buffer b df df_sites msa_map
  = Ok (aggregate Z.le snd (λ p, pair_Index_ID (fst p)) b
          ((λ p, (p, lookup_meta (site_meta df_sites)
                       (pair_Index_ID (fst p))))
           <$> msa_pairs_of (tract_site_pairs b df) msa_map)).
Proof.
  intros Hnd. rewrite <- site_meta_ids in Hnd.
  destruct (_build_msa_agg_for_buffer b df df_sites msa_map)
    as [rows|e] eqn:Hb.
  - by apply build_msa_Ok in Hb as [_ ->].
  - unfold _build_msa_agg_for_buffer, merge_site_meta in Hb.
    by rewrite decide_True in Hb.
Qed.

Lemma build_tract_dup b df df_sites :
  ¬ NoDup ((λ s, astype_str (site_Index_ID s)) <$> df_sites) →
  ∃ msg, _build_tract_agg_for_buffer b df df_sites = Raise (MergeError msg).
Proof.
  intros Hnd. rewrite <- site_meta_ids in Hnd.
  unfold _build_tract_agg_for_buffer, merge_site_meta.
  rewrite decide_False by done. by eexists.
Qed.

Lemma run_aggregations_unique df df_sites df_geocodemap :
  NoDup ((λ s, astype_str (site_Index_ID s)) <$> df_sites) →
  run_aggregations df df_sites df_geocodemap
  = let msa_map := _build_msa_map df_geocodemap in
    if decide (length msa_map = 0%nat) then
      Raise (ValueError "MSA map is empty; cannot compute MSA aggregations.")
    else if decide (length (tract_sheet df df_sites) = 0%nat) then
      Raise (ValueError "Tract aggregation output is empty.")
    else if decide (length (county_sheet df df_sites) = 0%nat) then
      Raise (ValueError "County aggregation output is empty.")
    else if decide (length (msa_sheet df df_sites msa_map) = 0%nat) then
      Raise (ValueError "MSA aggregation output is empty.")
    else Ok (tract_sheet df df_sites, county_sheet df df_sites,
             msa_sheet df df_sites msa_map).
Proof.
  intros Hnd. unfold run_aggregations.
  rewrite (mapM_Ok (λ r, _build_tract_agg_for_buffer r
                           (normalize_interactions df)
                           (normalize_sites df_sites))
             (λ b, aggregate str_le fst snd b
             ((λ p, (p, lookup_meta (site_meta df_sites) (snd p)))
              <$> tract_site_pairs b df))); cycle 1.
  { intros b _.
    transitivity (_build_tract_agg_for_buffer b df df_sites);
      [|by apply build_tract_total].
    unfold _build_tract_agg_for_buffer.
    by rewrite tract_site_pairs_normalize, site_meta_normalize. }
  cbn [mbind result_bind].
  rewrite (mapM_Ok (λ r, _build_county_agg_for_buffer r
                           (normalize_interactions df)
                           (normalize_sites df_sites))
             (λ b, aggregate str_le County_GeoID pair_Index_ID b
             ((λ p, (p, lookup_meta (site_meta df_sites) (pair_Index_ID p)))
              <$> county_pairs_of (tract_site_pairs b df)))); cycle 1.
  { intros b _.
    transitivity (_build_county_agg_for_buffer b df df_sites);
      [|by apply build_county_total].
    unfold _build_county_agg_for_buffer.
    by rewrite tract_site_pairs_normalize, site_meta_normalize. }
  cbn [mbind result_bind]. cbv zeta.
  case_decide; [done|].
  rewrite (mapM_Ok _ (λ b, aggregate Z.le snd (λ p, pair_Index_ID (fst p)) b
             ((λ p, (p, lookup_meta (site_meta df_sites)
                          (pair_Index_ID (fst p))))
              <$> msa_pairs_of (tract_site_pairs b df)
                    (_build_msa_map df_geocodemap)))); cycle 1.
  { intros b _.
    transitivity (_build_msa_agg_for_buffer b df df_sites
                    (_build_msa_map df_geocodemap));
      [|by apply build_msa_total].
    unfold _build_msa_agg_for_buffer.
    by rewrite tract_site_pairs_normalize, site_meta_normalize. }
  cbn [mbind result_bind]. done.
Qed.

Lemma tract_sheet_nil df df_sites :
  tract_sheet df df_sites = [] ↔ ¬ has_pairs df.
Proof.
  unfold tract_sheet, has_pairs. rewrite concat_nil. split.
  - intros Hnil (r & b & Hr & Hb & Hat).
    assert (tract_site_pairs b df = []) as Hps.
    { eapply fmap_nil_inv, aggregate_eq_nil, Hnil.
      apply list_elem_of_fmap. by exists b. }
    assert ((tract_geoid_of r, astype_str (Index_ID r))
            ∈ tract_site_pairs b df) as Hin
      by (apply elem_of_tract_site_pairs; by exists r).
    rewrite Hps in Hin. by apply elem_of_nil in Hin.
  - intros Hno l (b & -> & Hb)%list_elem_of_fmap.
    apply aggregate_eq_nil.
    destruct (tract_site_pairs b df) as [|p ps] eqn:Hps; [done|].
    destruct (proj1 (elem_of_tract_site_pairs b df p)) as (r & Hr & Hat & _);
      [rewrite Hps; by left|].
    destruct Hno. by exists r, b.
Qed.

Lemma county_sheet_nil df df_sites :
  county_sheet df df_sites = [] ↔ tract_sheet df df_sites = [].
Proof.
  unfold county_sheet, tract_sheet. rewrite !concat_nil.
  split; intros Hnil l (b & -> & Hb)%list_elem_of_fmap.
  - apply aggregate_eq_nil, fmap_eq_nil.
    assert (county_pairs_of (tract_site_pairs b df) = []) as Hcp.
    { eapply fmap_eq_nil, aggregate_eq_nil, Hnil.
      apply list_elem_of_fmap. by exists b. }
    unfold county_pairs_of in Hcp.
    apply drop_duplicates_nil in Hcp. by apply fmap_eq_nil in Hcp.
  - assert (tract_site_pairs b df = []) as ->; [|done].
    eapply fmap_eq_nil, aggregate_eq_nil, Hnil.
    apply list_elem_of_fmap. by exists b.
Qed.

Lemma msa_pairs_of_keeps ps msa_map p m z :
  p ∈ ps → m ∈ msa_map → map_County_GeoID m = msa_county_of (fst p) →
  MSA_Name m = Some z →
  ∃ q, q ∈ msa_pairs_of ps msa_map ∧ snd q = z.
Proof.
  intros Hp Hm Hc Hz. unfold msa_pairs_of.
  set (l := omap _ _).
  destruct (drop_duplicates_keeps_keys
              (λ p : county_pair * Z, (snd p, pair_Index_ID (fst p))) l
              (mk_county_pair p, z)) as (q & Hq & Hk).
  - unfold l. apply list_elem_of_omap.
    exists {| msa_county_pair := mk_county_pair p; pair_MSA_Name := Some z |}.
    split; [|done]. apply elem_of_msa_pairs_merged.
    exists p. split; [done|]. split; [done|]. right. by exists m.
  - exists q. split; [done|]. by injection Hk.
Qed.

Lemma msa_sheet_nil df df_sites df_geocodemap :
  msa_sheet df df_sites (_build_msa_map df_geocodemap) = []
  ↔ ¬ has_mapped_pairs df (_build_msa_map df_geocodemap).
Proof.
  unfold msa_sheet, has_mapped_pairs. rewrite concat_nil. split.
  - intros Hnil (r & b & Hr & Hb & Hat & Hmap).
    apply Exists_exists in Hmap as (m & Hm & Hc).
    destruct (proj1 (elem_of_build_msa_map df_geocodemap m) Hm)
      as (g & _ & [z Hz] & _ & Hn).
    rewrite <- Hn in Hz.
    destruct (msa_pairs_of_keeps (tract_site_pairs b df)
                (_build_msa_map df_geocodemap)
                (tract_geoid_of r, astype_str (Index_ID r)) m z)
      as (q & Hq & _); [|done..|].
    { apply elem_of_tract_site_pairs. by exists r. }
    assert (msa_pairs_of (tract_site_pairs b df)
              (_build_msa_map df_geocodemap) = []) as Hps.
    { eapply fmap_eq_nil, aggregate_eq_nil, Hnil.
      apply list_elem_of_fmap. by exists b. }
    rewrite Hps in Hq. by apply elem_of_nil in Hq.
  - intros Hno l (b & -> & Hb)%list_elem_of_fmap.
    apply aggregate_eq_nil, fmap_eq_nil.
    destruct (msa_pairs_of _ _) as [|[cp z] qs] eqn:Hqs; [done|].
    destruct (elem_of_msa_pairs_of (tract_site_pairs b df)
                (_build_msa_map df_geocodemap) cp z)
      as (p & m & Hp & Hm & -> & Hc & Hz); [rewrite Hqs; by left|].
    apply elem_of_tract_site_pairs in Hp as (r & Hr & Hat & ->).
    destruct Hno. exists r, b. do 3 (split; [done|]).
    apply Exists_exists. by exists m.
Qed.

Lemma normalize_sites_ids df_sites :
  (λ s, astype_str (site_Index_ID s)) <$> normalize_sites df_sites
  = (λ s, astype_str (site_Index_ID s)) <$> df_sites.
Proof.
  unfold normalize_sites. rewrite <- list_fmap_compose.
  by apply list_fmap_ext.
Qed.

Lemma length_zero_iff_nil' {A} (l : list A) : length l = 0%nat ↔ l = [].
Proof. by destruct l. Qed.

(** X9. What [run_aggregations] ends with, from the three loaded frames:
    a merge error when two rows of the site table have the same identifier
    (as strings); otherwise a value error when no row of the geocode sheet
    has a metro code, when no interaction is at one of the buffers, or when
    no interaction at a buffer lies in a county of the map, in that order;
    otherwise the three sheets.  The error for an empty county sheet is
    never raised. *)
Theorem run_aggregations_outcome df df_sites df_geocodemap :
  let run := run_aggregations df df_sites df_geocodemap in
  let ids := (λ s, astype_str (site_Index_ID s)) <$> df_sites in
  let msa_map := _build_msa_map df_geocodemap in
  (¬ NoDup ids → ∃ msg, run = Raise (MergeError msg))
  ∧ (NoDup ids → msa_map = [] →
     run = Raise (ValueError
             "MSA map is empty; cannot compute MSA aggregations."))
  ∧ (NoDup ids → msa_map ≠ [] → ¬ has_pairs df →
     run = Raise (ValueError "Tract aggregation output is empty."))
  ∧ (NoDup ids → msa_map ≠ [] → has_pairs df →
     ¬ has_mapped_pairs df msa_map →
     run = Raise (ValueError "MSA aggregation output is empty."))
  ∧ (NoDup ids → has_mapped_pairs df msa_map → ∃ sheets, run = Ok sheets)
  ∧ run ≠ Raise (ValueError "County aggregation output is empty.").
Proof.
  intros run ids msa_map.
  assert (Hdup : ¬ NoDup ids → ∃ msg, run = Raise (MergeError msg)).
  { intros Hnd. unfold run, run_aggregations.
    destruct (build_tract_dup 0 (normalize_interactions df)
                (normalize_sites df_sites)) as [msg Hmsg].
    { by rewrite normalize_sites_ids. }
    exists msg. unfold BUFFERS.
    by rewrite (mapM_Raise (λ r, _build_tract_agg_for_buffer r
                                   (normalize_interactions df)
                                   (normalize_sites df_sites))
                  (MergeError msg) 0 _ Hmsg). }
  assert (Hmapped : has_mapped_pairs df msa_map → has_pairs df ∧ msa_map ≠ []).
  { intros (r & b & Hr & Hb & Hat & Hmap). split; [by exists r, b|].
    apply Exists_exists in Hmap as (m & Hm & _).
    intros Hnil. rewrite Hnil in Hm. by apply elem_of_nil in Hm. }
  pose proof (tract_sheet_nil df df_sites) as Ht.
  pose proof (county_sheet_nil df df_sites) as Hc.
  pose proof (msa_sheet_nil df df_sites df_geocodemap) as Hm.
  fold msa_map in Hm.
  assert (Hrun : NoDup ids → run =
    if decide (length msa_map = 0%nat) then
      Raise (ValueError "MSA map is empty; cannot compute MSA aggregations.")
    else if decide (length (tract_sheet df df_sites) = 0%nat) then
      Raise (ValueError "Tract aggregation output is empty.")
    else if decide (length (county_sheet df df_sites) = 0%nat) then
      Raise (ValueError "County aggregation output is empty.")
    else if decide (length (msa_sheet df df_sites msa_map) = 0%nat) then
      Raise (ValueError "MSA aggregation output is empty.")
    else Ok (tract_sheet df df_sites, county_sheet df df_sites,
             msa_sheet df df_sites msa_map)).
  { intros Hnd. unfold run. by rewrite run_aggregations_unique. }
  split; [done|]. split; [|split; [|split; [|split]]].
  - intros Hnd Hnil. rewrite Hrun, decide_True; [done| |done].
    by rewrite Hnil.
  - intros Hnd Hmap Hno. rewrite Hrun by done.
    rewrite decide_False by by rewrite length_zero_iff_nil'.
    rewrite decide_True; [done|]. by apply length_zero_iff_nil', Ht.
  - intros Hnd Hmap Hp Hno. rewrite Hrun by done.
    rewrite decide_False by by rewrite length_zero_iff_nil'.
    rewrite decide_False by (rewrite length_zero_iff_nil', Ht; tauto).
    rewrite decide_False by (rewrite length_zero_iff_nil', Hc, Ht; tauto).
    rewrite decide_True; [done|]. by apply length_zero_iff_nil', Hm.
  - intros Hnd Hyes. destruct (Hmapped Hyes) as [Hp Hmap].
    rewrite Hrun by done.
    rewrite decide_False by by rewrite length_zero_iff_nil'.
    rewrite decide_False by (rewrite length_zero_iff_nil', Ht; tauto).
    rewrite decide_False by (rewrite length_zero_iff_nil', Hc, Ht; tauto).
    rewrite decide_False by (rewrite length_zero_iff_nil', Hm; tauto).
    by eexists.
  - destruct (decide (NoDup ids)) as [Hnd|Hnd].
    + rewrite Hrun by done. repeat case_decide; try done.
      rewrite !length_zero_iff_nil' in *. tauto.
    + destruct (Hdup Hnd) as [msg ->]. done.
Qed.

(** X10. When [run_aggregations] succeeds, no sheet is empty, the rows of
    every sheet come in the order of the buffers, and the rows of a sheet
    with a given [Range_Cover] are the table the builder of the level gives
    for that buffer. *)
Theorem sheets_are_buffer_tables df df_sites df_geocodemap T C M :
  run_aggregations df df_sites df_geocodemap = Ok (T, C, M) →
  (T ≠ [] ∧ C ≠ [] ∧ M ≠ [])
  ∧ (StronglySorted Z.le (Range_Cover <$> T)
     ∧ StronglySorted Z.le (Range_Cover <$> C)
     ∧ StronglySorted Z.le (Range_Cover <$> M))
  ∧ ∀ b, b ∈ BUFFERS →
      _build_tract_agg_for_buffer b df df_sites
      = Ok (filter (λ row, Range_Cover row = b) T)
      ∧ _build_county_agg_for_buffer b df df_sites
        = Ok (filter (λ row, Range_Cover row = b) C)
      ∧ _build_msa_agg_for_buffer b df df_sites (_build_msa_map df_geocodemap)
        = Ok (filter (λ row, Range_Cover row = b) M).
Proof.
  intros Hrun.
  destruct (decide (NoDup ((λ s, astype_str (site_Index_ID s)) <$> df_sites)))
    as [Hnd|Hnd]; cycle 1.
  { destruct (build_tract_dup 0 (normalize_interactions df)
                (normalize_sites df_sites)) as [msg Hmsg].
    { by rewrite normalize_sites_ids. }
    unfold run_aggregations, BUFFERS in Hrun.
    by rewrite (mapM_Raise (λ r, _build_tract_agg_for_buffer r
                                   (normalize_interactions df)
                                   (normalize_sites df_sites))
                  (MergeError msg) 0 _ Hmsg) in Hrun. }
  rewrite run_aggregations_unique in Hrun by done. cbv zeta in Hrun.
  repeat case_decide; try done. injection Hrun as <- <- <-.
  rewrite !length_zero_iff_nil' in *.
  assert (HB : StronglySorted Z.le BUFFERS).
  { unfold BUFFERS. repeat (constructor; [|repeat constructor; lia]).
    constructor. }
  assert (HN : NoDup BUFFERS).
  { apply (bool_decide_unpack (NoDup BUFFERS)). vm_compute. exact I. }
  split; [done|]. split; [|intros b Hb; split; [|split]].
  - split; [|split]; (apply concat_frames_sorted; [|done]);
      intros b row Hrow; by apply elem_of_aggregate in Hrow as (_ & _ & ? & _).
  - rewrite build_tract_total by done. f_equal. symmetry.
    unfold tract_sheet.
    apply (concat_frames_slice Range_Cover
             (λ b, aggregate str_le fst snd b _)); [|done..].
    intros b' row Hrow. by apply elem_of_aggregate in Hrow as (_ & _ & ? & _).
  - rewrite build_county_total by done. f_equal. symmetry.
    unfold county_sheet.
    apply (concat_frames_slice Range_Cover
             (λ b, aggregate str_le County_GeoID pair_Index_ID b _)); [|done..].
    intros b' row Hrow. by apply elem_of_aggregate in Hrow as (_ & _ & ? & _).
  - rewrite build_msa_total by done. f_equal. symmetry.
    unfold msa_sheet.
    apply (concat_frames_slice Range_Cover
             (λ b, aggregate Z.le snd (λ p, pair_Index_ID (fst p)) b _));
      [|done..].
    intros b' row Hrow. by apply elem_of_aggregate in Hrow as (_ & _ & ? & _).
Qed.

End run_aggregations_facts.

(** ** Section 4: reading, loading and overlaying the geofences *)

Section party_facts.
Import Geofence GeofencePredicates.

Lemma length_string_of_list_ascii l :
  String.length (string_of_list_ascii l) = length l.
Proof. induction l; simpl; congruence. Qed.

Lemma finish_match_word acc c tl w :
  rev acc = c :: tl → is_upper c = true → forallb is_alnum tl = true →
  w ∈ finish_match (Some acc) → capitalised_word w = true.
Proof.
  intros Hrev Hc Htl. unfold finish_match.
  destruct (2 <=? length acc)%nat eqn:Hlen; [|by intros ?%elem_of_nil].
  intros ->%list_elem_of_singleton. rewrite Hrev. simpl.
  rewrite Hc, length_string_of_list_ascii, list_ascii_of_string_of_list_ascii.
  rewrite Htl, andb_true_r.
  apply Nat.leb_le in Hlen. rewrite <- length_rev, Hrev in Hlen.
  simpl in Hlen. destruct tl; [simpl in Hlen; lia|done].
Qed.

Lemma findall_caps_from_words s cur w :
  match cur with
  | Some acc => ∃ c tl, rev acc = c :: tl ∧ is_upper c = true
                        ∧ forallb is_alnum tl = true
  | None => True
  end →
  w ∈ findall_caps_from cur s → capitalised_word w = true.
Proof.
  revert cur. induction s as [|c s IH]; intros cur Hcur; simpl.
  - destruct cur as [acc|]; [|by intros ?%elem_of_nil].
    destruct Hcur as (c0 & tl & ? & ? & ?).
    by apply finish_match_word with c0 tl.
  - destruct cur as [acc|].
    + destruct Hcur as (c0 & tl & Hrev & Hc0 & Htl).
      destruct (is_alnum c) eqn:Hc.
      * apply IH. exists c0, (tl ++ [c]). simpl. rewrite Hrev.
        split; [done|]. split; [done|].
        rewrite forallb_app, Htl. simpl. by rewrite Hc.
      * intros [Hw|Hw]%elem_of_app.
        -- by apply finish_match_word with acc c0 tl.
        -- by apply (IH None).
    + apply IH. destruct (is_upper c) eqn:Hc; [|done].
      by exists c, [].
Qed.

(** X11. Whatever the file name, the party [infer_interested_party] gives
    is a capitalised word: an upper-case letter followed by at least one
    letter or digit; it is never empty. *)
Theorem interested_party_is_a_word table_name :
  capitalised_word (infer_interested_party table_name) = true
  ∧ infer_interested_party table_name ≠ EmptyString.
Proof.
  assert (capitalised_word (infer_interested_party table_name) = true) as Hw.
  { unfold infer_interested_party.
    destruct (filter _ KNOWN_PARTIES) as [|kp kps] eqn:Hk.
    - destruct (findall_caps table_name) as [|w ws] eqn:Hcaps; [done|].
      apply (findall_caps_from_words table_name None); [done|].
      fold (findall_caps table_name). rewrite Hcaps. by left.
    - assert (kp ∈ KNOWN_PARTIES) as Hin.
      { eapply (list_elem_of_filter _ KNOWN_PARTIES kp). rewrite Hk. by left. }
      unfold KNOWN_PARTIES in Hin.
      repeat (apply elem_of_cons in Hin as [->|Hin]; [done|]).
      by apply elem_of_nil in Hin. }
  split; [done|]. intros Heq. by rewrite Heq in Hw.
Qed.

End party_facts.


Section strip_facts.
Import Geofence.

Lemma rstrip_idemp s : rstrip (rstrip s) = rstrip s.
Proof.
  induction s as [|c s IH]; [done|]. simpl.
  destruct (rstrip s) as [|c' r] eqn:Hr.
  - destruct (is_space c) eqn:Hc; [done|]. simpl. by rewrite Hc.
  - change (rstrip (String c (String c' r)))
      with (match rstrip (String c' r) with
            | EmptyString =>
                if is_space c then EmptyString else String c EmptyString
            | String a r0 => String c (String a r0)
            end).
    by rewrite IH.
Qed.

Lemma lstrip_head s :
  lstrip s = EmptyString
  ∨ ∃ c rest, lstrip s = String c rest ∧ is_space c = false.
Proof.
  induction s as [|c s IH]; [by left|]. simpl.
  destruct (is_space c) eqn:Hc; [done|]. right. by exists c, s.
Qed.

Lemma rstrip_head c rest :
  is_space c = false → ∃ r, rstrip (String c rest) = String c r.
Proof.
  intros Hc. simpl. destruct (rstrip rest); [|by eexists].
  rewrite Hc. by eexists.
Qed.

Lemma strip_idemp s : strip (strip s) = strip s.
Proof.
  unfold strip. destruct (lstrip_head s) as [->|(c & rest & -> & Hc)]; [done|].
  destruct (rstrip_head c rest Hc) as [r Hr]. rewrite Hr.
  cbn [lstrip]. rewrite Hc, <- Hr. apply rstrip_idemp.
Qed.

End strip_facts.

Section reading_facts.
Import Geofence GeofencePredicates.
Context `{GeoEngine}.
Context (read_file : list Byte.byte → kml_frame).

Lemma normalize_frame_rows name gdf rows :
  snd (normalize_frame name gdf) = Ok rows →
  length rows = length (kml_rows gdf) ∧ rows ≠ []
  ∧ ∀ row, row ∈ rows → Table_Name row = name ∧ strip (Name row) = Name row.
Proof.
  unfold normalize_frame. case_decide as Hlen; [done|].
  destruct (has_geometry_column gdf); [|done]. cbn [negb snd].
  intros [= <-]. rewrite length_fmap. split; [done|]. split.
  - destruct (kml_rows gdf); [done|]. done.
  - intros row (f & -> & _)%list_elem_of_fmap. cbn. split; [done|].
    apply strip_idemp.
Qed.

Lemma normalize_frame_log name gdf :
  let r := normalize_frame name gdf in
  (fst r = [] ∧ is_raise (snd r) = false)
  ∨ ∃ e, fst r = [e] ∧ is_error e = true ∧ is_raise (snd r) = true.
Proof.
  unfold normalize_frame. case_decide; [|destruct (has_geometry_column gdf)];
    cbn [negb fst snd is_raise].
  - right. by exists (error_no_features name).
  - by left.
  - right. by exists (error_missing_geometry name).
Qed.

(** The log of [read_geofence_file]: records that are not errors, and after
    them at most one error, with which the call raises. *)
Lemma read_geofence_file_log path :
  let r := read_geofence_file read_file path in
  ∃ infos, (∀ l, l ∈ infos → is_error l = false)
    ∧ ((fst r = infos ∧ is_raise (snd r) = false)
       ∨ ∃ e, fst r = infos ++ [e] ∧ is_error e = true
              ∧ is_raise (snd r) = true).
Proof.
  unfold read_geofence_file. cbv zeta.
  destruct (path_exists path); cbn [negb]; cycle 1.
  { exists []. split; [by intros l ?%elem_of_nil|]. right.
    by exists (error_missing_file (path_name path)). }
  case_bool_decide as Hkml.
  { pose proof (normalize_frame_log (path_name path)
                  (read_file (file_bytes path))) as Hlog.
    destruct (normalize_frame _ _) as [lines r]. cbn [fst snd] in *.
    exists [info_reading_kml (path_name path)].
    split; [by intros l ->%list_elem_of_singleton|].
    destruct Hlog as [[-> ?]|(e & -> & ? & ?)]; [by left|].
    right. by exists e. }
  case_bool_decide as Hkmz; cycle 1.
  { exists []. split; [by intros l ?%elem_of_nil|]. right.
    by exists (error_unsupported_type (path_name path)). }
  unfold select_kml_entry.
  destruct (filter is_kml _) as [|n rest] eqn:Hf.
  { cbn. exists [info_reading_kmz (path_name path)].
    split; [by intros l ->%list_elem_of_singleton|]. right.
    by exists (error_no_kml_in_kmz (path_name path)). }
  set (lines := if decide _ then _ else _).
  assert (Hlines : ∀ line, line ∈ lines → is_error line = false).
  { intros line. unfold lines. case_decide.
    - by intros ->%list_elem_of_singleton.
    - by intros ?%elem_of_nil. }
  exists (info_reading_kmz (path_name path) :: lines). split.
  { intros l [->|?]%elem_of_cons; [done|]. by apply Hlines. }
  destruct (zip_read _ _) as [|c bs] eqn:Hread.
  { cbn [fst snd is_raise]. right.
    by exists (error_empty_kml_entry (path_name path) n). }
  pose proof (normalize_frame_log (path_name path) (read_file (c :: bs)))
    as Hlog.
  destruct (normalize_frame _ _) as [lines' r]. cbn [fst snd] in *.
  destruct Hlog as [[-> ?]|(e & -> & ? & ?)].
  - left. by rewrite app_nil_r.
  - right. by exists e.
Qed.

(** X12. Every row of the frame [read_geofence_file] returns carries the
    name of the file as [Table_Name] and a [Name] without white space at
    either end; the frame is not empty; and the file exists and has the
    suffix [.kml] or [.kmz], in any case of the letters. *)
Theorem geofence_frame_rows path rows :
  snd (read_geofence_file read_file path) = Ok rows →
  path_exists path = true
  ∧ (lower (path_suffix (path_name path)) = ".kml"
     ∨ lower (path_suffix (path_name path)) = ".kmz")
  ∧ rows ≠ []
  ∧ ∀ row, row ∈ rows →
      Table_Name row = path_name path ∧ strip (Name row) = Name row.
Proof.
  unfold read_geofence_file. cbv zeta.
  destruct (path_exists path); [|done]. cbn [negb].
  case_bool_decide as Hkml.
  - pose proof (normalize_frame_rows (path_name path)
                  (read_file (file_bytes path)) rows) as Hrows.
    destruct (normalize_frame _ _) as [lines r]. cbn [snd] in *.
    intros (_ & ? & ?)%Hrows. split; [done|]. split; [by left|]. done.
  - case_bool_decide as Hkmz; [|done].
    destruct (select_kml_entry _ _) as [lines [kml_name|e]]; [|done].
    destruct (zip_read _ _) as [|c bs] eqn:Hread; [done|].
    pose proof (normalize_frame_rows (path_name path)
                  (read_file (c :: bs)) rows) as Hrows.
    destruct (normalize_frame _ _) as [lines' r]. cbn [snd] in *.
    intros (_ & ? & ?)%Hrows. split; [done|]. split; [by right|]. done.
Qed.

(** X13. [read_geofence_file] writes an error record only when it raises:
    an error record of its log is the last record of the log, the records
    before it are not errors, and the call has raised; when it returns a
    frame, no record of its log is an error. *)
Theorem logged_geofence_error_is_raised path :
  let r := read_geofence_file read_file path in
  (∀ line, line ∈ fst r → is_error line = true →
     is_raise (snd r) = true
     ∧ ∃ lines, fst r = lines ++ [line]
         ∧ ∀ l, l ∈ lines → is_error l = false)
  ∧ (∀ rows, snd r = Ok rows →
       ∀ line, line ∈ fst r → is_error line = false).
Proof.
  intros r.
  destruct (read_geofence_file_log path)
    as (infos & Hinfos & [[Hlog Hret]|(e & Hlog & He & Hraise)]);
    fold r in Hlog; try fold r in Hret; try fold r in Hraise.
  - split.
    + intros line Hin Herr. rewrite Hlog in Hin.
      by rewrite (Hinfos line Hin) in Herr.
    + intros rows _ line Hin. rewrite Hlog in Hin. by apply Hinfos.
  - split.
    + intros line Hin Herr. rewrite Hlog in Hin.
      apply elem_of_app in Hin as [Hin| ->%list_elem_of_singleton].
      { by rewrite (Hinfos line Hin) in Herr. }
      split; [done|]. by exists infos.
    + intros rows Hok. by rewrite Hok in Hraise.
Qed.

End reading_facts.

Lemma str_leb_trans (a b c : string) :
  String.leb a b = true → String.leb b c = true → String.leb a c = true.
Proof.
  unfold String.leb. revert b c.
  induction a as [|x a IH]; intros [|y b] [|z c]; simpl; try done.
  unfold Ascii.compare.
  destruct (N.compare_spec (N_of_ascii x) (N_of_ascii y)) as [Hxy|Hxy|Hxy];
    destruct (N.compare_spec (N_of_ascii y) (N_of_ascii z)) as [Hyz|Hyz|Hyz];
    try done.
  - rewrite Hxy, Hyz, N.compare_refl. apply IH.
  - intros _ _. rewrite Hxy. by apply N.compare_lt_iff in Hyz as ->.
  - intros _ _. rewrite <- Hyz. by apply N.compare_lt_iff in Hxy as ->.
  - intros _ _.
    assert (N_of_ascii x < N_of_ascii z)%N as Hxz by lia.
    by apply N.compare_lt_iff in Hxz as ->.
Qed.


Section loading_facts.
Import Geofence GeofencePredicates.
Context `{GeoEngine}.
Context (read_file : list Byte.byte → kml_frame).

#[local] Instance path_le_total : Total path_le.
Proof. intros a b. apply String.leb_total. Qed.

#[local] Instance path_le_trans : Transitive path_le.
Proof. intros a b c. apply str_leb_trans. Qed.

Lemma load_geofences_cons_skip p paths :
  ¬ has_geofence_suffix p →
  load_geofences read_file (p :: paths) = load_geofences read_file paths.
Proof.
  intros Hp. cbn [load_geofences]. cbv zeta.
  by rewrite bool_decide_false.
Qed.

Lemma load_geofences_cons_read p paths :
  has_geofence_suffix p →
  load_geofences read_file (p :: paths)
  = let '(lines, r) := read_geofence_file read_file p in
    match r with
    | Raise e => (info_loading (path_name p) :: lines, Raise e)
    | Ok gdf =>
        let '(lines', r') := load_geofences read_file paths in
        (info_loading (path_name p) :: lines ++ lines', cons gdf <$> r')
    end.
Proof.
  intros Hp. cbn [load_geofences]. cbv zeta.
  by rewrite bool_decide_true.
Qed.

Lemma load_geofences_filter paths :
  load_geofences read_file paths
  = load_geofences read_file (filter has_geofence_suffix paths).
Proof.
  induction paths as [|p paths IH]; [done|]. rewrite filter_cons.
  destruct (decide (has_geofence_suffix p)) as [Hp|Hp].
  - rewrite !load_geofences_cons_read by done.
    destruct (read_geofence_file read_file p) as [lines [gdf|e]]; [|done].
    by rewrite IH.
  - by rewrite load_geofences_cons_skip.
Qed.

Lemma load_geofences_Ok paths gdfs :
  snd (load_geofences read_file paths) = Ok gdfs →
  Forall2 (λ p gdf, snd (read_geofence_file read_file p) = Ok gdf)
    (filter has_geofence_suffix paths) gdfs.
Proof.
  revert gdfs. induction paths as [|p paths IH]; intros gdfs.
  - intros [= <-]. constructor.
  - rewrite filter_cons.
    destruct (decide (has_geofence_suffix p)) as [Hp|Hp].
    + rewrite load_geofences_cons_read by done.
      destruct (read_geofence_file read_file p) as [lines [gdf|e]] eqn:Hread;
        [|done].
      destruct (load_geofences read_file paths) as [lines' [gs|e]]; [|done].
      cbn. intros [= <-]. constructor; [by rewrite Hread|]. by apply IH.
    + rewrite load_geofences_cons_skip by done. apply IH.
Qed.

Lemma load_geofences_first_error before p after e :
  Forall has_geofence_suffix (before ++ p :: after) →
  Forall (λ q, is_raise (snd (read_geofence_file read_file q)) = false) before →
  snd (read_geofence_file read_file p) = Raise e →
  snd (load_geofences read_file (before ++ p :: after)) = Raise e.
Proof.
  intros Hs Hb Hp. induction Hb as [|q before Hq _ IH]; simpl app.
  - apply Forall_cons in Hs as [Hs _].
    rewrite load_geofences_cons_read by done.
    destruct (read_geofence_file read_file p) as [lines r]. cbn in Hp.
    by rewrite Hp.
  - apply Forall_cons in Hs as [Hsq Hs].
    rewrite load_geofences_cons_read by done.
    destruct (read_geofence_file read_file q) as [lines [gdf|e']]; [|done].
    specialize (IH Hs).
    destruct (load_geofences read_file (before ++ p :: after)) as [lines' r'].
    cbn in *. by rewrite IH.
Qed.

(** X14. The loop over the geofence directory passes over the files whose
    suffix is neither [.kml] nor [.kmz]; it returns the frames of the other
    files in the order it is given them; and the first file that cannot be
    read ends it with the error of that file. *)
Theorem geofence_loop_reads_supported_files paths :
  load_geofences read_file paths
  = load_geofences read_file (filter has_geofence_suffix paths)
  ∧ (∀ gdfs, snd (load_geofences read_file paths) = Ok gdfs →
       Forall2 (λ p gdf, snd (read_geofence_file read_file p) = Ok gdf)
         (filter has_geofence_suffix paths) gdfs)
  ∧ (∀ before p after e,
       filter has_geofence_suffix paths = before ++ p :: after →
       Forall (λ q, is_raise (snd (read_geofence_file read_file q)) = false)
         before →
       snd (read_geofence_file read_file p) = Raise e →
       snd (load_geofences read_file paths) = Raise e).
Proof.
  split; [apply load_geofences_filter|]. split; [apply load_geofences_Ok|].
  intros before p after e Hf Hb Hp.
  rewrite load_geofences_filter, Hf.
  apply load_geofences_first_error; [|done..].
  rewrite <- Hf. apply Forall_forall. by intros q [? _]%list_elem_of_filter.
Qed.

Lemma merge_sort_paths (l1 l2 : list geofence_file) :
  NoDup (path_name <$> l1) → l1 ≡ₚ l2 →
  merge_sort path_le l1 = merge_sort path_le l2.
Proof.
  intros Hnd Hperm. apply (Sorted_unique_strong path_le).
  - intros x1 x2 Hx1 Hx2 H12 H21.
    rewrite merge_sort_Permutation in Hx1, Hx2. rewrite <- Hperm in Hx2.
    apply (NoDup_fmap_inj_on path_name l1); [done..|].
    by apply String.leb_antisym.
  - apply Sorted_merge_sort, _.
  - apply Sorted_merge_sort, _.
  - by rewrite !merge_sort_Permutation.
Qed.

(** X15. The order in which the directory lists its files does not matter:
    two listings of the same files, no name twice, give the same log and the
    same result.  And a directory without a [.kml] or [.kmz] file gives a
    runtime error and an empty log. *)
Theorem geofence_run_ignores_listing_order listing1 listing2 tracts crs :
  NoDup (path_name <$> listing1) → listing1 ≡ₚ listing2 →
  run_geofence read_file listing1 tracts crs
  = run_geofence read_file listing2 tracts crs
  ∧ (filter has_geofence_suffix listing1 = [] →
     run_geofence read_file listing1 tracts crs
     = ([], Raise (RuntimeError "No KML/KMZ files found"))).
Proof.
  intros Hnd Hperm. split.
  - unfold run_geofence. by rewrite (merge_sort_paths listing1 listing2).
  - intros Hnone. unfold run_geofence.
    rewrite load_geofences_filter.
    assert (filter has_geofence_suffix (merge_sort path_le listing1) = [])
      as ->; [|done].
    apply Permutation_nil_r. rewrite <- Hnone.
    by rewrite merge_sort_Permutation.
Qed.

End loading_facts.

Section overlay_facts.
Import Geofence GeofencePredicates.
Context `{GeoEngine}.
Context (read_file : list Byte.byte → kml_frame).

Lemma elem_of_tract_geofence_join (tracts : list tract) gs t g :
  (t, g) ∈ tract_geofence_join tracts (exploded gs)
  ↔ t ∈ tracts ∧ g ∈ gs
    ∧ ∃ part, part ∈ explode (fence_geometry g)
            ∧ intersects_fence (geometry t) part = true.
Proof.
  unfold tract_geofence_join, exploded. rewrite list_elem_of_bind. split.
  - intros (t' & Htg & Ht').
    apply list_elem_of_fmap in Htg as ([g' part] & Heq & Hgp).
    apply list_elem_of_filter in Hgp as [Hint Hgp]. cbn [fst snd] in *.
    apply list_elem_of_bind in Hgp as (g0 & Hgp & Hg0).
    apply list_elem_of_fmap in Hgp as (part' & Heq' & Hpart).
    simplify_eq. eauto 10.
  - intros (Ht & Hg & part & Hpart & Hint). exists t. split; [|done].
    apply list_elem_of_fmap. exists (g, part). split; [done|].
    apply list_elem_of_filter. split; [done|].
    apply list_elem_of_bind. exists g. split; [|done].
    apply list_elem_of_fmap. by exists part.
Qed.

Lemma overlay_cases geofences (tracts : list tract) crs :
  let polys :=
    filter (λ g, fence_is_empty (fence_geometry g) ≠ true) geofences in
  let tracts' := filter (λ t, tract_is_empty (geometry t) ≠ true) tracts in
  let join := tract_geofence_join tracts' (exploded polys) in
  snd (overlay geofences tracts crs)
  = if decide (polys = []) then
      Raise (ValueError "No valid geofence geometries remain")
    else if decide (tracts' = []) then
      Raise (ValueError "Tract shapefile has no valid geometries")
    else if negb crs then
      Raise (ValueError "Tract shapefile has no CRS defined")
    else if decide (join = []) then
      Raise (ValueError "Spatial join produced 0 rows")
    else Ok (build_geo_final join).
Proof.
  intros polys tracts' join. unfold overlay. cbv zeta.
  fold polys. fold tracts'. fold join.
  assert (length (build_geo_final join) = length join) as Hlen
    by apply length_fmap.
  rewrite Hlen.
  destruct polys; [done|]. destruct tracts'; [done|]. cbn [length].
  rewrite !decide_False by done. destruct crs; [|done]. cbn [negb].
  destruct join; [done|]. cbn [length].
  by rewrite !decide_False by done.
Qed.

(** X16. The overlay of the geofences with the tracts succeeds exactly when
    the tract layer has a reference system and some tract with a geometry
    meets some part of some geofence with a geometry; its table then has
    one row for every row of the spatial join, a tract that meets two parts
    twice.  The error for an empty final table is never raised. *)
Theorem overlay_succeeds_iff geofences (tracts : list tract) crs :
  ((∃ rows, snd (overlay geofences tracts crs) = Ok rows)
   ↔ crs = true
     ∧ ∃ t g part, t ∈ tracts ∧ g ∈ geofences
         ∧ part ∈ explode (fence_geometry g)
         ∧ tract_is_empty (geometry t) ≠ true
         ∧ fence_is_empty (fence_geometry g) ≠ true
         ∧ intersects_fence (geometry t) part = true)
  ∧ (∀ rows, snd (overlay geofences tracts crs) = Ok rows →
       length rows
       = length (tract_geofence_join
                   (filter (λ t, tract_is_empty (geometry t) ≠ true) tracts)
                   (exploded
                      (filter (λ g, fence_is_empty (fence_geometry g) ≠ true)
                         geofences))))
  ∧ snd (overlay geofences tracts crs)
    ≠ Raise (ValueError "Final geofence tract table is empty").
Proof.
  rewrite overlay_cases. cbv zeta.
  set (polys := filter _ geofences). set (tracts' := filter _ tracts).
  set (join := tract_geofence_join _ _).
  split; [|split].
  - split.
    + intros [rows Hrows].
      destruct (decide (polys = [])); [done|].
      destruct (decide (tracts' = [])); [done|].
      destruct crs; [|done]. cbn [negb] in Hrows. split; [done|].
      destruct (decide (join = [])) as [|Hne]; [done|].
      destruct join as [|[t g] j] eqn:Hj; [done|].
      assert ((t, g) ∈ join) as Hin by (rewrite Hj; by left).
      apply elem_of_tract_geofence_join in Hin
        as ([? ?]%list_elem_of_filter & [? ?]%list_elem_of_filter
            & part & ? & ?).
      by exists t, g, part.
    + intros [-> (t & g & part & Ht & Hg & Hpart & Hte & Hge & Hint)].
      assert ((t, g) ∈ join) as Hin.
      { apply elem_of_tract_geofence_join.
        split; [by apply list_elem_of_filter|].
        split; [by apply list_elem_of_filter|]. by exists part. }
      assert (g ∈ polys) as Hgp by by apply list_elem_of_filter.
      assert (t ∈ tracts') as Htp by by apply list_elem_of_filter.
      rewrite decide_False by (intros Hnil; rewrite Hnil in Hgp;
                               by apply elem_of_nil in Hgp).
      rewrite decide_False by (intros Hnil; rewrite Hnil in Htp;
                               by apply elem_of_nil in Htp).
      cbn [negb].
      rewrite decide_False by (intros Hnil; rewrite Hnil in Hin;
                               by apply elem_of_nil in Hin).
      by eexists.
  - intros rows.
    destruct (decide (polys = [])); [done|].
    destruct (decide (tracts' = [])); [done|].
    destruct crs; [|done]. cbn [negb].
    destruct (decide (join = [])); [done|].
    intros [= <-]. apply length_fmap.
  - destruct (decide (polys = [])); [done|].
    destruct (decide (tracts' = [])); [done|].
    destruct crs; [|done]. cbn [negb].
    by destruct (decide (join = [])).
Qed.

Lemma run_geofence_Ok listing (tracts : list tract) crs rows :
  snd (run_geofence read_file listing tracts crs) = Ok rows →
  ∃ gs, snd (overlay gs tracts crs) = Ok rows.
Proof.
  unfold run_geofence.
  destruct (load_geofences _ _) as [lines [[|gdf gdfs]|e]]; try done.
  destruct (overlay (concat (gdf :: gdfs)) tracts crs) as [lines' r'] eqn:Ho.
  cbn [snd]. intros ->. exists (concat (gdf :: gdfs)). by rewrite Ho.
Qed.

Lemma overlay_Ok_inv geofences (tracts : list tract) crs rows :
  snd (overlay geofences tracts crs) = Ok rows →
  ∃ join,
    join = tract_geofence_join
             (filter (λ t, tract_is_empty (geometry t) ≠ true) tracts)
             (exploded (filter (λ g, fence_is_empty (fence_geometry g) ≠ true)
                          geofences))
    ∧ rows = build_geo_final join.
Proof.
  rewrite overlay_cases. cbv zeta.
  destruct (decide (_ = [])); [done|].
  destruct (decide (_ = [])); [done|].
  destruct crs; [|done]. cbn [negb].
  destruct (decide (_ = [])); [done|].
  intros [= <-]. by eexists.
Qed.

(** X17. In the geofence table, the tracts a polygon meets are among the
    tracts its file meets: every row has
    [1 <= Tracts_Per_Polygon <= Tracts_Per_table], the latter at most the
    number of distinct tracts with a geometry; and two rows of the same
    file have the same [Tracts_Per_table]. *)
Theorem tract_counts_are_nested listing (tracts : list tract) crs rows row :
  snd (run_geofence read_file listing tracts crs) = Ok rows → row ∈ rows →
  (1 ≤ Tracts_Per_Polygon row)%nat
  ∧ (Tracts_Per_Polygon row ≤ Tracts_Per_table row)%nat
  ∧ (Tracts_Per_table row
     ≤ nunique ((λ t, Some (GEOID t))
                <$> filter (λ t, tract_is_empty (geometry t) ≠ true) tracts))%nat
  ∧ ∀ row', row' ∈ rows → geo_Table_Name row' = geo_Table_Name row →
      Tracts_Per_table row' = Tracts_Per_table row.
Proof.
  intros (gs & (join & Hjoin & ->)%overlay_Ok_inv)%run_geofence_Ok Hrow.
  unfold build_geo_final in *.
  apply list_elem_of_fmap in Hrow as ([t g] & -> & Htg). cbn [fst snd].
  cbn [Tracts_Per_Polygon Tracts_Per_table geo_Table_Name].
  split; [|split; [|split]].
  - apply (nunique_pos _ (GEOID t)). apply list_elem_of_fmap.
    exists (t, g). split; [done|]. by apply list_elem_of_filter.
  - apply nunique_mono. intros x.
    rewrite !list_elem_of_fmap.
    intros (e & -> & [[= Hk _] He]%list_elem_of_filter).
    exists e. split; [done|]. by apply list_elem_of_filter.
  - apply nunique_mono. intros x.
    rewrite !list_elem_of_fmap.
    intros ([t' g'] & -> & [_ He]%list_elem_of_filter).
    rewrite Hjoin in He.
    apply elem_of_tract_geofence_join in He as (Ht' & _).
    by exists t'.
  - intros row' ([t' g'] & -> & _)%list_elem_of_fmap. cbn. by intros ->.
Qed.

End overlay_facts.

(** ** Step 3.2: the cleaned site file *)

Lemma list_ascii_of_string_append s t :
  list_ascii_of_string (s +:+ t)
  = list_ascii_of_string s ++ list_ascii_of_string t.
Proof. induction s as [|c s IH]; simpl; [done|]. by rewrite IH. Qed.

#[local] Instance str_le_trans : Transitive str_le.
Proof. intros a b c. apply str_leb_trans. Qed.

#[local] Instance opt_str_le_total : Total Aggregations.opt_str_le.
Proof.
  intros [a|] [b|]; simpl; auto. apply String.leb_total.
Qed.

#[local] Instance site_le_total : Total Cleanup.site_le.
Proof. intros a b. apply opt_str_le_total. Qed.

Section cleanup_facts.
Import Cleanup.
Context {num : Type}.
Context (to_numeric : option string → option num).
Context (mean : list num → option num).

Abbreviation run := (run_cleanup_sitedata to_numeric mean).
Abbreviation finish := (finish_cleanup to_numeric mean).

Lemma all_digits_zeros n : all_digits (zeros n) = true.
Proof. induction n; [done|]. unfold all_digits in *. simpl. by rewrite IHn. Qed.

Lemma all_digits_zfill width s :
  all_digits s = true → all_digits (zfill width s) = true.
Proof.
  intros Hs. unfold zfill. destruct (width <=? String.length s)%nat; [done|].
  destruct s as [|c rest]; [apply all_digits_zeros|].
  rewrite bool_decide_false.
  - unfold all_digits. rewrite list_ascii_of_string_append, forallb_app.
    fold (all_digits (zeros (width - String.length (String c rest)))).
    by rewrite all_digits_zeros.
  - unfold all_digits in Hs. simpl in Hs.
    apply andb_true_iff in Hs as [Hc _]. by intros [->| ->].
Qed.

Lemma raw_fips_strip r :
  raw_fips r = Geofence.strip (str_cell (raw_FIPS r)).
Proof. unfold raw_fips. simpl. apply strip_idemp. Qed.

Lemma length_merge_sort_perm {A} (R : relation A) `{∀ x y, Decision (R x y)}
    (l : list A) :
  length (merge_sort R l) = length l.
Proof. apply Permutation_length, merge_sort_Permutation. Qed.

Lemma filter_nil_iff {A} (P : A → Prop) `{∀ x, Decision (P x)} (l : list A) :
  filter P l = [] ↔ ∀ x, x ∈ l → ¬ P x.
Proof.
  split; [|apply filter_none].
  intros Hnil x Hx HP.
  assert (x ∈ filter P l) as Hin by by apply list_elem_of_filter.
  rewrite Hnil in Hin. by apply elem_of_nil in Hin.
Qed.

Lemma finish_cleanup_rows padded :
  let final := snd (finish padded) in
  let sorted :=
    merge_sort site_le (drop_duplicates (λ p, raw_Site (fst p)) padded) in
  Index_ID <$> final = (λ i, Z.of_nat i + 1) <$> seq 0 (length final)
  ∧ Site <$> final = (λ p, raw_Site (fst p)) <$> sorted
  ∧ (λ r, (Site r, Full_FIPS r)) <$> final
    = (λ p, (raw_Site (fst p), snd p)) <$> sorted
  ∧ length final = length sorted.
Proof.
  intros final sorted. unfold final, finish_cleanup. cbv zeta. cbn [snd].
  fold sorted. rewrite !fmap_imap, length_imap. split; [|split; [|split]].
  - unfold compose. cbn [Index_ID].
    by rewrite (imap_seq_0 sorted (λ i, Z.of_nat i + 1)).
  - unfold compose. cbn [Site]. apply (imap_const (λ p, raw_Site (fst p))).
  - unfold compose. cbn [Site Full_FIPS].
    apply (imap_const (λ p : raw_site * string, (raw_Site (fst p), snd p))).
  - done.
Qed.

Lemma run_Ok ex df out :
  snd (run ex df) = Ok out →
  ex = true
  ∧ (∀ c, c ∈ REQUIRED_COLUMNS → c ∈ Geofence.strip <$> columns df)
  ∧ (∀ r, r ∈ raw_rows df →
       all_digits (raw_fips r) = true
       ∧ String.length (zfill 11 (raw_fips r)) = 11%nat)
  ∧ out ≠ []
  ∧ out = snd (finish ((λ r, (r, zfill 11 (raw_fips r))) <$> raw_rows df)).
Proof.
  unfold run_cleanup_sitedata. destruct ex; [|done]. cbn [negb]. cbv zeta.
  destruct (filter _ REQUIRED_COLUMNS) as [|c cs] eqn:Hcols; [|done].
  destruct (filter invalid_raw _) as [|e1 b1] eqn:Hraw; [|done].
  destruct (filter invalid_padded _) as [|e2 b2] eqn:Hpad; [|done].
  destruct (finish _) as [lines final] eqn:Hfin.
  case_decide as Hlen; [done|]. cbn [snd]. intros [= <-].
  split; [done|]. split; [|split; [|split]].
  - intros c Hc. destruct (decide (c ∈ Geofence.strip <$> columns df)); [done|].
    by destruct (proj1 (filter_nil_iff _ _) Hcols c Hc).
  - intros r Hr.
    assert (all_digits (raw_fips r) = true) as Hd.
    { destruct (all_digits (raw_fips r)) eqn:Hd; [done|].
      destruct (proj1 (filter_nil_iff _ _) Hraw (raw_fips r)); [|done].
      apply list_elem_of_fmap. by exists r. }
    split; [done|].
    destruct (decide (String.length (zfill 11 (raw_fips r)) = 11%nat));
      [done|].
    destruct (proj1 (filter_nil_iff _ _) Hpad (zfill 11 (raw_fips r))).
    + rewrite <- list_fmap_compose. apply list_elem_of_fmap. by exists r.
    + by intros [? _].
  - by destruct final.
  - done.
Qed.

(** X18. When the FIPS cells of the raw file are ASCII text, every tract
    FIPS of the cleaned file has exactly eleven digits [0-9]: it is the
    stripped cell of a row of the raw file with the same site name, padded
    with zeros on the left. *)
Theorem cleaned_fips_have_eleven_digits ex df out r :
  ascii_fips df →
  snd (run_cleanup_sitedata to_numeric mean ex df) = Ok out → r ∈ out →
  String.length (Full_FIPS r) = 11%nat
  ∧ all_digits (Full_FIPS r) = true
  ∧ ∃ raw, raw ∈ raw_rows df ∧ Site r = raw_Site raw
      ∧ Full_FIPS r = zfill 11 (Geofence.strip (str_cell (raw_FIPS raw))).
Proof.
  intros _ (_ & _ & Hfips & _ & ->)%run_Ok Hr.
  destruct (finish_cleanup_rows ((λ r, (r, zfill 11 (raw_fips r)))
                                 <$> raw_rows df)) as (_ & _ & Hrows & _).
  cbv zeta in Hrows.
  assert ((Site r, Full_FIPS r)
          ∈ (λ r, (Site r, Full_FIPS r))
            <$> snd (finish ((λ r, (r, zfill 11 (raw_fips r)))
                             <$> raw_rows df))) as Hin
    by (apply list_elem_of_fmap; by exists r).
  rewrite Hrows in Hin.
  apply list_elem_of_fmap in Hin as ([raw fips] & [= Hs Hf] & Hin).
  rewrite merge_sort_Permutation in Hin.
  apply drop_duplicates_subseteq, list_elem_of_fmap in Hin
    as (raw' & [= <- ->] & Hraw).
  cbn [fst snd] in *. destruct (Hfips raw Hraw) as [Hd Hlen].
  rewrite Hf. split; [done|]. split; [by apply all_digits_zfill|].
  exists raw. by rewrite <- raw_fips_strip.
Qed.

(** X19. The cleaned file is not empty; its rows are numbered 1, 2, ... in
    the order of the file, so the identifiers are distinct, also as the
    strings the aggregation step merges on; no site name occurs twice; the
    rows are in the order of the site names, a missing name last; and the
    names are the names of the raw file. *)
Theorem cleaned_sites_are_indexed ex df out :
  snd (run_cleanup_sitedata to_numeric mean ex df) = Ok out →
  out ≠ []
  ∧ Index_ID <$> out = (λ i, Z.of_nat i + 1) <$> seq 0 (length out)
  ∧ NoDup ((λ r, astype_str (CInt (Index_ID r))) <$> out)
  ∧ NoDup (Site <$> out)
  ∧ Sorted Aggregations.opt_str_le (Site <$> out)
  ∧ ∀ s, s ∈ Site <$> out ↔ s ∈ raw_Site <$> raw_rows df.
Proof.
  intros (_ & _ & _ & Hne & ->)%run_Ok.
  set (padded := (λ r, (r, zfill 11 (raw_fips r))) <$> raw_rows df) in *.
  destruct (finish_cleanup_rows padded) as (Hidx & Hsite & _ & Hlen).
  cbv zeta in *.
  split; [done|]. split; [done|]. split; [|split; [|split]].
  - match goal with |- NoDup (_ <$> ?l) =>
      replace ((λ r, astype_str (CInt (Index_ID r))) <$> l)
        with ((λ i, astype_str (CInt i)) <$> (Index_ID <$> l))
        by (by rewrite <- list_fmap_compose)
    end.
    apply NoDup_fmap_2_strong.
    { intros i j _ _ Hij. simpl in Hij. by apply (inj pretty) in Hij. }
    rewrite Hidx. apply NoDup_fmap_2_strong; [|apply NoDup_seq].
    intros i j _ _ ?. lia.
  - rewrite Hsite, merge_sort_Permutation. apply NoDup_drop_duplicates.
  - rewrite Hsite.
    apply (Sorted_fmap (λ p : raw_site * string, raw_Site (fst p))
             site_le Aggregations.opt_str_le); [done|].
    apply Sorted_merge_sort, _.
  - intros s. rewrite Hsite, merge_sort_Permutation. unfold padded. split.
    + intros (p & -> & Hp%drop_duplicates_subseteq)%list_elem_of_fmap.
      apply list_elem_of_fmap in Hp as (raw & -> & Hraw).
      apply list_elem_of_fmap. by exists raw.
    + intros (raw & -> & Hraw)%list_elem_of_fmap.
      destruct (drop_duplicates_keeps_keys (λ p, raw_Site (fst p))
                  ((λ r, (r, zfill 11 (raw_fips r))) <$> raw_rows df)
                  (raw, zfill 11 (raw_fips raw))) as (y & Hy & Hk).
      { apply list_elem_of_fmap. by exists raw. }
      apply list_elem_of_fmap. exists y. by rewrite Hk.
Qed.

Lemma length_drop_duplicates {A K} `{EqDecision K} (key : A → K) l :
  length (drop_duplicates key l) = length (remove_dups (key <$> l)).
Proof.
  rewrite <- (length_fmap key). apply Permutation_length, NoDup_Permutation.
  - apply NoDup_drop_duplicates.
  - apply NoDup_remove_dups.
  - intros k. rewrite elem_of_remove_dups, !list_elem_of_fmap. split.
    + intros (x & -> & Hx%drop_duplicates_subseteq). by exists x.
    + intros (x & -> & Hx).
      destruct (drop_duplicates_keeps_keys key l x Hx) as (y & Hy & Hk).
      by exists y.
Qed.

Lemma invalid_padded_zfill s :
  all_digits s = true →
  invalid_padded (zfill 11 s) ↔ (11 < String.length s)%nat.
Proof.
  intros Hs. unfold invalid_padded.
  rewrite length_zfill, (all_digits_zfill 11 s Hs). split.
  - intros Hno. destruct (decide (11 < String.length s)%nat); [done|].
    destruct Hno. split; [lia|done].
  - intros Hlong [Hlen _]. lia.
Qed.

(** X20. What [run_cleanup_sitedata] ends with, from a raw frame whose
    column names and FIPS cells are ASCII text: a key error when a required
    column is missing; otherwise a value error when the FIPS of some row,
    also of a row that would be dropped as a duplicate, has a character that
    is not a digit [0-9], or, all being digits, has more than eleven of
    them, or when the file has no rows; otherwise the cleaned file, with one
    row for every distinct site name. *)
Theorem cleanup_outcome df :
  let r := snd (run_cleanup_sitedata to_numeric mean true df) in
  let rows := raw_rows df in
  let cols_ok :=
    ∀ c, c ∈ REQUIRED_COLUMNS → c ∈ Geofence.strip <$> columns df in
  let digits_ok := ∀ x, x ∈ rows → all_digits (raw_fips x) = true in
  let width_ok := ∀ x, x ∈ rows → (String.length (raw_fips x) ≤ 11)%nat in
  ascii_columns df → ascii_fips df →
  (¬ cols_ok → r = Raise missing_columns)
  ∧ (cols_ok → ¬ digits_ok → r = Raise non_digit_fips)
  ∧ (cols_ok → digits_ok → ¬ width_ok → r = Raise invalid_padded_fips)
  ∧ (cols_ok → rows = [] → r = Raise zero_rows)
  ∧ (cols_ok → digits_ok → width_ok → rows ≠ [] →
     ∃ out, r = Ok out
       ∧ length out = length (remove_dups (raw_Site <$> rows))).
Proof.
  intros r rows cols_ok digits_ok width_ok _ _.
  assert (Hcols : cols_ok ↔
    filter (λ c, c ∉ Geofence.strip <$> columns df) REQUIRED_COLUMNS = []).
  { rewrite filter_nil_iff. unfold cols_ok. split.
    - intros Hok c Hc Hno. by apply Hno, Hok.
    - intros Hok c Hc.
      destruct (decide (c ∈ Geofence.strip <$> columns df)); [done|].
      by destruct (Hok c Hc). }
  assert (Hdigits : digits_ok ↔ filter invalid_raw (raw_fips <$> rows) = []).
  { rewrite filter_nil_iff. unfold digits_ok, invalid_raw. split.
    - intros Hok s (x & -> & Hx)%list_elem_of_fmap. by rewrite (Hok x Hx).
    - intros Hok x Hx. destruct (all_digits (raw_fips x)) eqn:Hd; [done|].
      destruct (Hok (raw_fips x)); [|done].
      apply list_elem_of_fmap. by exists x. }
  assert (Hwidth : digits_ok → width_ok ↔
    filter invalid_padded
      (snd <$> ((λ r, (r, zfill 11 (raw_fips r))) <$> rows)) = []).
  { intros Hd. rewrite filter_nil_iff, <- list_fmap_compose.
    unfold width_ok. split.
    - intros Hok s (x & -> & Hx)%list_elem_of_fmap. simpl.
      rewrite invalid_padded_zfill by by apply Hd.
      specialize (Hok x Hx). lia.
    - intros Hok x Hx.
      destruct (decide (String.length (raw_fips x) ≤ 11)%nat); [done|].
      destruct (Hok (zfill 11 (raw_fips x))).
      + apply list_elem_of_fmap. by exists x.
      + apply invalid_padded_zfill; [by apply Hd|lia]. }
  unfold r, run_cleanup_sitedata. cbn [negb]. cbv zeta. fold rows.
  split; [|split; [|split; [|split]]].
  - intros Hno. destruct (filter _ REQUIRED_COLUMNS) as [|c cs]; [|done].
    by destruct Hno; apply Hcols.
  - intros Hok Hno. rewrite (proj1 Hcols Hok).
    destruct (filter invalid_raw _) as [|e b]; [|done].
    by destruct Hno; apply Hdigits.
  - intros Hok Hd Hno. rewrite (proj1 Hcols Hok), (proj1 Hdigits Hd).
    destruct (filter invalid_padded _) as [|e b]; [|done].
    by destruct Hno; apply Hwidth.
  - intros Hok Hnil. rewrite (proj1 Hcols Hok), Hnil. done.
  - intros Hok Hd Hw Hne.
    rewrite (proj1 Hcols Hok), (proj1 Hdigits Hd), (proj1 (Hwidth Hd) Hw).
    set (padded := (λ r, (r, zfill 11 (raw_fips r))) <$> rows).
    destruct (finish_cleanup_rows padded) as (_ & _ & _ & Hlen).
    cbv zeta in Hlen.
    rewrite length_merge_sort_perm, length_drop_duplicates in Hlen.
    unfold padded in Hlen at 2. rewrite <- list_fmap_compose in Hlen.
    change ((λ p : raw_site * string, raw_Site (fst p))
            ∘ (λ r, (r, zfill 11 (raw_fips r)))) with raw_Site in Hlen.
    destruct (finish padded) as [lines final]. cbn [snd] in *.
    case_decide as Hz.
    + rewrite Hz in Hlen. destruct rows as [|x rows']; [done|].
      rewrite fmap_cons in Hlen. symmetry in Hlen.
      apply length_zero_iff_nil' in Hlen.
      assert (raw_Site x ∈ remove_dups (raw_Site x :: (raw_Site <$> rows')))
        as Hin by (apply elem_of_remove_dups; by left).
      rewrite Hlen in Hin. by apply elem_of_nil in Hin.
    + by exists final.
Qed.

Lemma elem_of_finish_cleanup padded r :
  r ∈ snd (finish padded) →
  ∃ p, p ∈ drop_duplicates (λ p, raw_Site (fst p)) padded
    ∧ Site r = raw_Site (fst p)
    ∧ Site_Type r = raw_Site_Type (fst p)
    ∧ Customer_Segment r = raw_Customer_Segment (fst p)
    ∧ Interested_Party r = raw_Interested_Party (fst p)
    ∧ Latitude r = to_numeric (raw_Latitude (fst p))
    ∧ Longitude r = to_numeric (raw_Longitude (fst p))
    ∧ Full_FIPS r = snd p
    ∧ (∀ x, to_numeric (raw_Stalls (fst p)) = Some x →
            Stalls_Filled r = Some x).
Proof.
  unfold finish_cleanup. cbv zeta. cbn [snd].
  intros (i & p & -> & Hp)%elem_of_lookup_imap.
  exists p. cbn. split.
  - apply list_elem_of_lookup_2 in Hp.
    by rewrite merge_sort_Permutation in Hp.
  - repeat (split; [done|]). by intros x ->.
Qed.

(** X21. A row of the cleaned file takes its cells from the first row of the
    raw file with its site name: the later rows of the name are dropped.
    Its coordinates are the numbers read from that row, and a stall count
    that is a number is kept as it is: only the missing ones are imputed. *)
Theorem cleaned_row_is_first_of_its_name ex df out r :
  snd (run_cleanup_sitedata to_numeric mean ex df) = Ok out → r ∈ out →
  ∃ before raw after,
    raw_rows df = before ++ raw :: after
    ∧ (∀ x, x ∈ before → raw_Site x ≠ Site r)
    ∧ raw_Site raw = Site r
    ∧ Site_Type r = raw_Site_Type raw
    ∧ Customer_Segment r = raw_Customer_Segment raw
    ∧ Interested_Party r = raw_Interested_Party raw
    ∧ Latitude r = to_numeric (raw_Latitude raw)
    ∧ Longitude r = to_numeric (raw_Longitude raw)
    ∧ Full_FIPS r = zfill 11 (Geofence.strip (str_cell (raw_FIPS raw)))
    ∧ (∀ x, to_numeric (raw_Stalls raw) = Some x → Stalls_Filled r = Some x).
Proof.
  intros (_ & _ & _ & _ & ->)%run_Ok Hr.
  apply elem_of_finish_cleanup in Hr
    as ([raw fips] & Hp & Hs & Ht & Hc & Hi & Hla & Hlo & Hf & Hst).
  cbn [fst snd] in *.
  apply elem_of_drop_duplicates in Hp. cbn [fst] in Hp.
  rewrite filter_fmap in Hp. cbn [fst] in Hp.
  destruct (filter (λ x, raw_Site x = raw_Site raw) (raw_rows df))
    as [|raw' rest] eqn:Hfil; [done|].
  injection Hp as -> Hfips.
  apply filter_cons_split in Hfil as (before & after & Hrows & Hb & _ & _).
  exists before, raw, after. rewrite Hs. split; [done|]. split.
  { intros x Hx. by apply (proj1 (Forall_forall _ _) Hb). }
  do 6 (split; [done|]). split; [|done].
  by rewrite Hf, <- Hfips, raw_fips_strip.
Qed.

End cleanup_facts.

(** ** Change detection *)

Lemma Sorted_filter {A} (R : relation A) `{!Transitive R}
    (P : A → Prop) `{∀ x, Decision (P x)} (l : list A) :
  Sorted R l → Sorted R (filter P l).
Proof.
  intros Hs%Sorted_StronglySorted; [|done].
  apply Sorted.StronglySorted_Sorted.
  induction Hs as [|x l Hl IH Hx]; [constructor|].
  rewrite filter_cons. case_decide; [|done]. constructor; [done|].
  apply Forall_forall. intros y [_ Hy]%list_elem_of_filter.
  by apply (proj1 (Forall_forall _ _) Hx).
Qed.

Section parts_order.
Import ChangeDetection.

Lemma parts_le_total a b : parts_le a b = true ∨ parts_le b a = true.
Proof.
  revert b. induction a as [|x a IH]; intros [|y b]; simpl; auto.
  case_bool_decide as Hxy.
  - subst. rewrite bool_decide_true by done. apply IH.
  - rewrite bool_decide_false by done. apply String.leb_total.
Qed.

Lemma parts_le_antisym a b :
  parts_le a b = true → parts_le b a = true → a = b.
Proof.
  revert b. induction a as [|x a IH]; intros [|y b]; simpl; try done.
  case_bool_decide as Hxy.
  - subst. rewrite bool_decide_true by done. intros ??. f_equal. by apply IH.
  - rewrite bool_decide_false by done. intros H1 H2.
    by destruct Hxy; apply String.leb_antisym.
Qed.

Lemma parts_le_trans a b c :
  parts_le a b = true → parts_le b c = true → parts_le a c = true.
Proof.
  revert b c. induction a as [|x a IH]; intros [|y b] [|z c]; simpl; try done.
  case_bool_decide as Hxy; case_bool_decide as Hyz; subst.
  - rewrite bool_decide_true by done. apply IH.
  - by rewrite bool_decide_false by done.
  - by rewrite bool_decide_false by done.
  - intros H1 H2. case_bool_decide as Hxz.
    + subst. by destruct Hxy; apply String.leb_antisym.
    + by apply str_leb_trans with y.
Qed.

End parts_order.

Section change_detection_facts.
Import ChangeDetection.
Context {time : Type} `{EqDecision time}.
Context (time_le : relation time) `{!RelDecision time_le}.
Context (zero : time).
Context `{!Total time_le} `{!Transitive time_le}.

Abbreviation signature := (_folder_signature time_le zero).
Abbreviation to_entry :=
  (λ p : fs_entry, {| rel_path := join_parts (rel_parts p);
                      size_bytes := st_size p;
                      mtime_epoch := st_mtime p |}).

#[local] Instance entry_le_total : Total (@entry_le time).
Proof. intros a b. apply parts_le_total. Qed.

#[local] Instance entry_le_trans : Transitive (@entry_le time).
Proof. intros a b c. apply parts_le_trans. Qed.

Lemma time_le_refl (t : time) : time_le t t.
Proof. by destruct (total time_le t t). Qed.

Lemma foldl_max_bounds (m : time) ts :
  let f := λ m x, if decide (time_le x m) then m else x in
  time_le m (foldl f m ts)
  ∧ (∀ t, t ∈ ts → time_le t (foldl f m ts))
  ∧ foldl f m ts ∈ m :: ts.
Proof.
  intros f. revert m. induction ts as [|x ts IH]; intros m; simpl.
  - split; [apply time_le_refl|]. split; [by intros t ?%elem_of_nil|by left].
  - destruct (IH (f m x)) as (Hm & Hts & Hin).
    assert (time_le m (f m x) ∧ time_le x (f m x)) as [Hm' Hx'].
    { unfold f. case_decide as Hxm.
      - split; [apply time_le_refl|done].
      - split; [|apply time_le_refl]. by destruct (total time_le m x). }
    split; [by etrans|]. split.
    + intros t [->|Ht]%elem_of_cons; [by etrans|by apply Hts].
    + apply elem_of_cons in Hin as [Hin|Hin]; [|by do 2 right].
      rewrite Hin. unfold f. case_decide; [by left|by right; left].
Qed.

Lemma latest_bounds (l : list time) :
  (∀ t, t ∈ l → time_le t (latest time_le zero l))
  ∧ (l = [] → latest time_le zero l = zero)
  ∧ (l ≠ [] → latest time_le zero l ∈ l).
Proof.
  destruct l as [|m ts]; simpl.
  - split; [by intros t ?%elem_of_nil|done].
  - destruct (foldl_max_bounds m ts) as (Hm & Hts & Hin).
    split; [|done]. intros t [->|Ht]%elem_of_cons; [done|by apply Hts].
Qed.

(** X22. The signature of a folder lists the files below it whose suffix is
    included, whatever the case of its letters, and all the files when no
    suffix is given; it leaves out what is not a file.  The list is in the
    order of the paths, [file_count] is its length, and
    [latest_mtime_epoch] is the time of one of its files that no other
    exceeds, or [0.0] when it is empty. *)
Theorem folder_signature_lists_included_files path found exts :
  ∃ s, _folder_signature time_le zero path (dir found) exts = inr s
    ∧ (∀ f, f ∈ files s ↔
         ∃ e, e ∈ found ∧ entry_is_file e = true
           ∧ (exts = [] ∨ entry_suffix e ∈ lower <$> exts)
           ∧ f = to_entry e)
    ∧ (∃ es, files s = to_entry <$> es ∧ Sorted entry_le es)
    ∧ file_count s = length (files s)
    ∧ (∀ f, f ∈ files s → time_le (mtime_epoch f) (latest_mtime_epoch s))
    ∧ (files s = [] → latest_mtime_epoch s = zero)
    ∧ (files s ≠ [] → latest_mtime_epoch s ∈ mtime_epoch <$> files s).
Proof.
  eexists. split; [reflexivity|]. cbn [files file_count latest_mtime_epoch].
  set (es := filter (included exts) (merge_sort entry_le found)).
  destruct (latest_bounds (mtime_epoch <$> (to_entry <$> es)))
    as (Hle & Hnil & Hin).
  split; [|split; [|split; [done|split; [|split]]]].
  - intros f. unfold es. rewrite list_elem_of_fmap. split.
    + intros (e & -> & [[? ?] He]%list_elem_of_filter).
      rewrite merge_sort_Permutation in He. by exists e.
    + intros (e & He & ? & ? & ->). exists e. split; [done|].
      apply list_elem_of_filter. split; [done|].
      by rewrite merge_sort_Permutation.
  - exists es. split; [done|]. unfold es.
    apply Sorted_filter; [apply _|]. apply Sorted_merge_sort, _.
  - intros f Hf. apply Hle. apply list_elem_of_fmap. by exists f.
  - intros Hfiles. apply Hnil. by rewrite Hfiles.
  - intros Hfiles. apply Hin. intros Hm. apply fmap_nil_inv in Hm. done.
Qed.


Lemma sorted_included_perm exts (l1 l2 : list (@fs_entry time)) :
  NoDup (rel_parts <$> l1) →
  filter (included exts) l1 ≡ₚ filter (included exts) l2 →
  filter (included exts) (merge_sort entry_le l1)
  = filter (included exts) (merge_sort entry_le l2).
Proof.
  intros Hnd Hperm. apply (Sorted_unique_strong entry_le).
  - intros x1 x2 Hx1 Hx2 H12 H21.
    pose proof (parts_le_antisym _ _ H12 H21) as Hparts.
    assert (x1 ∈ l1) as Hin1.
    { apply list_elem_of_filter in Hx1 as [_ Hx1].
      by rewrite merge_sort_Permutation in Hx1. }
    assert (x2 ∈ l1) as Hin2.
    { rewrite merge_sort_Permutation, <- Hperm in Hx2.
      by apply list_elem_of_filter in Hx2 as [_ ?]. }
    by apply (NoDup_fmap_inj_on rel_parts l1).
  - apply Sorted_filter; [apply _|]. apply Sorted_merge_sort, _.
  - apply Sorted_filter; [apply _|]. apply Sorted_merge_sort, _.
  - by rewrite !merge_sort_Permutation.
Qed.

(** X23. The signature of a folder depends on the included files only, not
    on the order the folder lists them in nor on its other entries: two
    listings with the same included files, no path twice, have the same
    signature.  And two listings with the same signature have the same
    included files, with the same sizes and times. *)
Theorem folder_signature_tracks_included_files path found1 found2 exts :
  (NoDup (rel_parts <$> found1) →
   filter (included exts) found1 ≡ₚ filter (included exts) found2 →
   _folder_signature time_le zero path (dir found1) exts
   = _folder_signature time_le zero path (dir found2) exts)
  ∧ (_folder_signature time_le zero path (dir found1) exts
     = _folder_signature time_le zero path (dir found2) exts →
     to_entry <$> filter (included exts) found1
     ≡ₚ to_entry <$> filter (included exts) found2).
Proof.
  split.
  - intros Hnd Hperm. unfold _folder_signature.
    by rewrite (sorted_included_perm exts found1 found2).
  - intros [= _ _ _ Hfiles].
    rewrite <- (merge_sort_Permutation entry_le found1) at 1.
    rewrite <- (merge_sort_Permutation entry_le found2) at 1.
    by rewrite Hfiles.
Qed.

Abbreviation run_main := (main time_le zero).
Abbreviation fingerprint_of := (compute_watch_fingerprint time_le zero).

Lemma fingerprint_time now1 now2 w fp1 :
  fingerprint_of now1 w = inr fp1 →
  ∃ fp2, fingerprint_of now2 w = inr fp2
    ∧ pop_computed_at (Some fp1) = pop_computed_at (Some fp2).
Proof.
  unfold compute_watch_fingerprint.
  destruct (_folder_signature _ _ _ _ []) as [e|ks]; [done|].
  destruct (_folder_signature _ _ _ _ _) as [e|gf]; [done|].
  destruct (_file_signature _ _) as [e|sy]; [done|].
  intros [= <-]. by eexists.
Qed.

(** X24. After a run whose refresh, if it was started, succeeded, a run on
    the same inputs, at whatever time, starts no refresh, ends with exit
    code 0 and leaves the stored fingerprint as it is. *)
Theorem unchanged_inputs_are_skipped stored now1 now2 w returncode r1 :
  main time_le zero stored now1 w 0 = inr r1 →
  main time_le zero (stored_after r1) now2 w returncode
  = inr {| stored_after := stored_after r1;
           exit_code := 0;
           refresh_started := false |}.
Proof.
  unfold main.
  destruct (fingerprint_of now1 w) as [e|fp1] eqn:Hfp1; [done|].
  destruct (fingerprint_time now1 now2 w fp1 Hfp1) as (fp2 & -> & Heq).
  destruct (bool_decide (is_Some stored) && _) eqn:Hskip.
  - intros [= <-]. cbn [stored_after].
    apply andb_true_iff in Hskip as [Hsome Hsame]. rewrite Hsome. cbn [andb].
    unfold fingerprints_equal in *. apply bool_decide_eq_true in Hsame.
    rewrite bool_decide_true; [done|]. by rewrite Hsame, Heq.
  - rewrite bool_decide_false by lia. intros [= <-]. cbn [stored_after].
    rewrite bool_decide_true by done. cbn [andb].
    unfold fingerprints_equal. by rewrite bool_decide_true.
Qed.

(** X25. A run without a stored fingerprint always starts the refresh.  A
    refresh that fails leaves the stored fingerprint as it was and gives
    its exit code to the run, so that after a failed first run the next run
    starts the refresh again. *)
Theorem failed_refresh_is_retried now w returncode :
  (∀ r, main time_le zero None now w returncode = inr r →
        refresh_started r = true)
  ∧ (∀ stored r, returncode ≠ 0 →
       main time_le zero stored now w returncode = inr r →
       stored_after r = stored
       ∧ (refresh_started r = true → exit_code r = returncode))
  ∧ (∀ r now2 w2 returncode2 r2, returncode ≠ 0 →
       main time_le zero None now w returncode = inr r →
       main time_le zero (stored_after r) now2 w2 returncode2 = inr r2 →
       refresh_started r2 = true).
Proof.
  assert (Hfirst : ∀ now w returncode r,
            run_main None now w returncode = inr r → refresh_started r = true).
  { intros now' w' rc r. unfold main.
    destruct (fingerprint_of now' w') as [e|fp]; [done|].
    rewrite bool_decide_false by (by intros [? ?]). cbn [andb].
    by case_bool_decide; intros [= <-]. }
  assert (Hfail : ∀ stored r, returncode ≠ 0 →
            run_main stored now w returncode = inr r →
            stored_after r = stored
            ∧ (refresh_started r = true → exit_code r = returncode)).
  { intros stored r Hrc. unfold main.
    destruct (fingerprint_of now w) as [e|fp]; [done|].
    destruct (_ && _); [by intros [= <-]|].
    rewrite bool_decide_true by done. by intros [= <-]. }
  split; [apply Hfirst|]. split; [apply Hfail|].
  intros r now2 w2 rc2 r2 Hrc Hr Hr2.
  destruct (Hfail None r Hrc Hr) as [Hst _]. rewrite Hst in Hr2.
  by apply Hfirst in Hr2.
Qed.

End change_detection_facts.

(** ** The further properties on the sample inputs *)

Section more_samples.
Import LineGeometry Examples MoreExamples.

Ltac by_computation :=
  match goal with
  | |- ?P => apply (bool_decide_unpack P); vm_compute; exact I
  end.

(** The first sample tract and site 7 are a pair of the 5-mile pass: the
    tract meets the buffer of the site. *)
Lemma pass_pairs_sound_complete_witness :
  (∀ t l, index_order t l ≡ₚ l)
  ∧ ∃ t s, t ∈ tracts_m ∧ s ∈ sites_m
      ∧ Interactions.GEOID t = "01001020100"
      ∧ Interactions.Index_ID s = Some 7
      ∧ intersects (Interactions.geometry t)
          (buffer (Interactions.site_geometry s)
             (Interactions.MI_TO_M * (5 # 1))%Q) = true.
Proof.
  assert (∀ t l, index_order t l ≡ₚ l) as Ho by done.
  split; [exact Ho|].
  apply (proj1 (pass_pairs_sound_complete index_order sites_m tracts_m
                  (5 # 1)%Q "01001020100" (Some 7) Ho)).
  by_computation.
Defined.

(** The counts frame of the 5-mile pass on the sample layers: two tracts,
    both counted with two sites. *)
Lemma counts_frame_spec_witness :
  let counts := snd (Interactions.intersect_pairs_with_count
                       index_order sites_m tracts_m (5 # 1)%Q) in
  length counts = 2%nat
  ∧ NoDup (Interactions.count_rkey <$> counts)
  ∧ ∀ c, c ∈ counts → Interactions.count_Cover_Range c = 5.
Proof.
  destruct (counts_frame_spec index_order sites_m tracts_m (5 # 1)%Q)
    as (Hnd & _ & Hcover & _).
  split; [by vm_compute|]. split; [exact Hnd|exact Hcover].
Defined.

(** The run on the sample layers gives a sorted table. *)
Lemma run_output_sorted_witness :
  ∃ t, snd (Interactions.run_tract_site_interactions
              index_order sites_m tracts_m) = Ok t
    ∧ Sorted Interactions.row_le t ∧ t ≠ [].
Proof.
  destruct (snd (Interactions.run_tract_site_interactions
                   index_order sites_m tracts_m)) as [t|e] eqn:Hrun;
    [|by vm_compute in Hrun].
  exists t. split; [done|].
  destruct (run_output_sorted index_order sites_m tracts_m t Hrun)
    as (Hs & Hne & _).
  by split.
Defined.

Import Aggregations Sheets.

(** The county table of the sample interactions at 5 miles; every
    interaction of the sample names its site. *)
Lemma aggregate_rows_wellformed_witness :
  ids_present 5 df_interactions
  ∧ ∃ rows,
      _build_county_agg_for_buffer 5 df_interactions df_sites = Ok rows
      ∧ NoDup ((λ row, (Region_ID row, agg_categories row)) <$> rows)
      ∧ ∀ row, row ∈ rows →
          Range_Cover row = 5 ∧ (1 ≤ Count_Customer_Sites row)%nat.
Proof.
  assert (Hids : ids_present 5 df_interactions).
  { assert (Forall (λ r, at_buffer 5 r → Aggregations.Index_ID r ≠ CNaN)
              df_interactions) as Hall by by_computation.
    exact (proj1 (Forall_forall _ _) Hall). }
  split; [exact Hids|].
  destruct (_build_county_agg_for_buffer 5 df_interactions df_sites)
    as [rows|e] eqn:Hrows; [|by vm_compute in Hrows].
  exists rows. split; [done|].
  destruct (aggregate_rows_wellformed 5 df_interactions df_sites
              (_build_msa_map df_geocodemap)) as (_ & Hcounty & _).
  destruct (Hcounty rows Hrows) as [Hnodup Hrow].
  split; [exact Hnodup|]. intros row Hin.
  destruct (Hrow row Hin) as [Hb Hcount].
  split; [exact Hb|exact (Hcount Hids)].
Defined.

(** The stalls of county 01001 at 5 miles: those of sites 1 and 2, whole
    numbers as all the stalls of the sample are. *)
Lemma stalls_conserved_witness :
  cells_present 5 df_interactions df_sites
  ∧ whole_stalls df_sites
  ∧ ∃ rows,
      _build_county_agg_for_buffer 5 df_interactions df_sites = Ok rows
      ∧ (Qsum (Total_Stalls_Filled
               <$> filter (λ row, Region_ID row = "01001") rows)
         == 10 # 1)%Q.
Proof.
  assert (Hcells : cells_present 5 df_interactions df_sites).
  { assert (Forall (λ r, at_buffer 5 r →
                         Geoid r ≠ CNaN ∧ Aggregations.Index_ID r ≠ CNaN)
              df_interactions) as Hall by by_computation.
    assert (Forall (λ s, site_Index_ID s ≠ CNaN) df_sites)
      as Hsites by by_computation.
    split.
    - exact (proj1 (Forall_forall _ _) Hall).
    - exact (proj1 (Forall_forall _ _) Hsites). }
  assert (Hwhole : whole_stalls df_sites).
  { assert (Forall (λ s, from_option is_whole true (site_Stalls_Filled s)
                         = true) df_sites) as Hall by by_computation.
    exact (proj1 (Forall_forall _ _) Hall). }
  split; [exact Hcells|]. split; [exact Hwhole|].
  destruct (_build_county_agg_for_buffer 5 df_interactions df_sites)
    as [rows|e] eqn:Hrows; [|by vm_compute in Hrows].
  exists rows. split; [done|].
  destruct (stalls_conserved 5 df_interactions df_sites
              (_build_msa_map df_geocodemap) Hcells Hwhole)
    as (_ & Hcounty & _).
  rewrite (Hcounty rows "01001" Hrows); by vm_compute.
Defined.

(** The tract rows of the sample at 5 miles have a county row above
    them. *)
Lemma county_row_dominates_tract_row_witness :
  ∃ tract_rows county_rows,
    _build_tract_agg_for_buffer 5 df_interactions df_sites = Ok tract_rows
    ∧ _build_county_agg_for_buffer 5 df_interactions df_sites = Ok county_rows
    ∧ ∀ row, row ∈ tract_rows →
        ∃ crow, crow ∈ county_rows
          ∧ Region_ID crow = str_take 5 (Region_ID row)
          ∧ agg_categories crow = agg_categories row
          ∧ (Count_Customer_Sites row ≤ Count_Customer_Sites crow)%nat.
Proof.
  destruct (_build_tract_agg_for_buffer 5 df_interactions df_sites)
    as [tract_rows|e] eqn:Ht; [|by vm_compute in Ht].
  destruct (_build_county_agg_for_buffer 5 df_interactions df_sites)
    as [county_rows|e] eqn:Hc; [|by vm_compute in Hc].
  exists tract_rows, county_rows. split; [done|]. split; [done|].
  intros row Hrow.
  exact (county_row_dominates_tract_row 5 df_interactions df_sites
           tract_rows county_rows row Ht Hc Hrow).
Defined.

(** The map of the sample sheet: one row, of county 01001. *)
Lemma msa_map_rows_witness :
  _build_msa_map df_geocodemap
  = [ {| map_County_GeoID := "01001"; MSA_Name := Some 33860 |} ]
  ∧ NoDup (_build_msa_map df_geocodemap)
  ∧ ∀ m, m ∈ _build_msa_map df_geocodemap →
      is_Some (MSA_Name m) ∧ (5 ≤ String.length (map_County_GeoID m))%nat.
Proof.
  destruct (msa_map_rows df_geocodemap) as (Hnd & _ & Hrows & _).
  split; [by vm_compute|]. by split.
Defined.

(** The sample frames: no identifier twice, and an interaction at 5 miles
    in the mapped county 01001, so the step gives its three sheets. *)
Lemma run_aggregations_outcome_witness :
  NoDup ((λ s, astype_str (site_Index_ID s)) <$> df_sites)
  ∧ has_mapped_pairs df_interactions (_build_msa_map df_geocodemap)
  ∧ ∃ sheets, run_aggregations df_interactions df_sites df_geocodemap
              = Ok sheets.
Proof.
  assert (NoDup ((λ s, astype_str (site_Index_ID s)) <$> df_sites)) as Hnd
    by by_computation.
  assert (has_mapped_pairs df_interactions (_build_msa_map df_geocodemap))
    as Hmapped.
  { exists (interaction_row 5 (CInt 1001020100) (CInt 1)), 5.
    split; [by left|]. split; [by_computation|]. split; [done|].
    by_computation. }
  split; [exact Hnd|]. split; [exact Hmapped|].
  destruct (run_aggregations_outcome df_interactions df_sites df_geocodemap)
    as (_ & _ & _ & _ & Hok & _).
  exact (Hok Hnd Hmapped).
Defined.

(** The sheets of the sample frames. *)
Lemma sheets_are_buffer_tables_witness :
  ∃ T C M,
    run_aggregations df_interactions df_sites df_geocodemap = Ok (T, C, M)
    ∧ T ≠ []
    ∧ StronglySorted Z.le (Range_Cover <$> T)
    ∧ _build_tract_agg_for_buffer 5 df_interactions df_sites
      = Ok (filter (λ row, Range_Cover row = 5) T).
Proof.
  destruct (run_aggregations df_interactions df_sites df_geocodemap)
    as [[[T C] M]|e] eqn:Hrun; [|by vm_compute in Hrun].
  exists T, C, M. split; [done|].
  destruct (sheets_are_buffer_tables df_interactions df_sites df_geocodemap
              T C M Hrun) as ((Hne & _) & (Hs & _) & Hslice).
  split; [exact Hne|]. split; [exact Hs|].
  assert (5 ∈ BUFFERS) as H5 by by_computation.
  exact (proj1 (Hslice 5 H5)).
Defined.

Import Geofence GeofencePredicates.

(** The frame of the sample archive: one row, named after the file. *)
Lemma geofence_frame_rows_witness :
  ∃ rows,
    snd (read_geofence_file read_file one_kml_archive) = Ok rows
    ∧ rows ≠ []
    ∧ ∀ row, row ∈ rows →
        Table_Name row = "zoox.kmz" ∧ strip (Name row) = Name row.
Proof.
  destruct (snd (read_geofence_file read_file one_kml_archive))
    as [rows|e] eqn:Hread; [|by vm_compute in Hread].
  exists rows. split; [done|].
  destruct (geofence_frame_rows read_file one_kml_archive rows Hread)
    as (_ & _ & Hne & Hrows).
  split; [exact Hne|exact Hrows].
Defined.

(** A text file is refused: the refusal is in the log, it is the last
    record of the log, and the call raises. *)
Lemma logged_geofence_error_is_raised_witness :
  error_unsupported_type (path_name notes_file)
    ∈ fst (read_geofence_file read_file notes_file)
  ∧ is_raise (snd (read_geofence_file read_file notes_file)) = true
  ∧ ∃ lines,
      fst (read_geofence_file read_file notes_file)
      = lines ++ [error_unsupported_type (path_name notes_file)]
      ∧ ∀ l, l ∈ lines → is_error l = false.
Proof.
  assert (error_unsupported_type (path_name notes_file)
            ∈ fst (read_geofence_file read_file notes_file)) as Hin
    by (vm_compute; left).
  split; [exact Hin|].
  exact (proj1 (logged_geofence_error_is_raised read_file notes_file)
           (error_unsupported_type (path_name notes_file)) Hin eq_refl).
Defined.

(** The text file is passed over, and the archive without entries ends the
    loop before the archive after it is read. *)
Lemma geofence_loop_reads_supported_files_witness :
  load_geofences read_file [notes_file; one_kml_archive]
  = load_geofences read_file
      (filter has_geofence_suffix [notes_file; one_kml_archive])
  ∧ snd (load_geofences read_file
           [one_kml_archive; notes_file; empty_archive; two_kml_archive])
    = Raise (ValueError "No .kml found inside KMZ file").
Proof.
  split.
  - exact (proj1 (geofence_loop_reads_supported_files read_file
                    [notes_file; one_kml_archive])).
  - refine (proj2 (proj2 (geofence_loop_reads_supported_files read_file
              [one_kml_archive; notes_file; empty_archive; two_kml_archive]))
              [one_kml_archive] empty_archive [two_kml_archive] _ _ _ _).
    + by vm_compute.
    + by_computation.
    + by vm_compute.
Defined.

(** The two sample archives, listed in either order. *)
Lemma geofence_run_ignores_listing_order_witness :
  NoDup (path_name <$> [two_kml_archive; one_kml_archive])
  ∧ run_geofence read_file [two_kml_archive; one_kml_archive] fence_tracts true
    = run_geofence read_file [one_kml_archive; two_kml_archive]
        fence_tracts true.
Proof.
  assert (NoDup (path_name <$> [two_kml_archive; one_kml_archive])) as Hnd
    by by_computation.
  split; [exact Hnd|].
  exact (proj1 (geofence_run_ignores_listing_order read_file
                  [two_kml_archive; one_kml_archive]
                  [one_kml_archive; two_kml_archive] fence_tracts true
                  Hnd (perm_swap _ _ _))).
Defined.

(** The sample zone meets the first sample tract: the overlay succeeds. *)
Lemma overlay_succeeds_iff_witness :
  ∃ rows, snd (overlay [fence_zone] fence_tracts true) = Ok rows.
Proof.
  apply (proj2 (proj1 (overlay_succeeds_iff [fence_zone] fence_tracts true))).
  split; [done|].
  eexists _, fence_zone, _.
  split; [by left|]. split; [by left|]. split; [by left|]. by vm_compute.
Defined.

(** The run on the sample archive and the sample tracts. *)
Lemma tract_counts_are_nested_witness :
  ∃ rows,
    snd (run_geofence read_file [one_kml_archive] fence_tracts true) = Ok rows
    ∧ ∀ row, row ∈ rows →
        (1 ≤ Tracts_Per_Polygon row)%nat
        ∧ (Tracts_Per_Polygon row ≤ Tracts_Per_table row)%nat.
Proof.
  destruct (snd (run_geofence read_file [one_kml_archive] fence_tracts true))
    as [rows|e] eqn:Hrun; [|by vm_compute in Hrun].
  exists rows. split; [done|]. intros row Hrow.
  destruct (tract_counts_are_nested read_file [one_kml_archive] fence_tracts
              true rows row Hrun Hrow) as (H1 & H2 & _).
  by split.
Defined.

Import Cleanup.

(** The cleaned sample file: two rows, the FIPS of eleven digits. *)
Lemma cleaned_fips_have_eleven_digits_witness :
  ascii_fips raw_sites
  ∧ ∃ out,
      snd (run_cleanup_sitedata to_numeric mean true raw_sites) = Ok out
      ∧ Full_FIPS <$> out = ["36061000100"; "01001020100"]
      ∧ ∀ r, r ∈ out → String.length (Full_FIPS r) = 11%nat.
Proof.
  assert (Hascii : ascii_fips raw_sites).
  { assert (Forall (λ x, from_option is_ascii true (raw_FIPS x) = true)
              (raw_rows raw_sites)) as Hall by by_computation.
    exact (proj1 (Forall_forall _ _) Hall). }
  split; [exact Hascii|].
  destruct (snd (run_cleanup_sitedata to_numeric mean true raw_sites))
    as [out|e] eqn:Hrun; [|by vm_compute in Hrun].
  exists out. split; [done|]. split.
  { vm_compute in Hrun. by injection Hrun as <-. }
  intros r Hr.
  exact (proj1 (cleaned_fips_have_eleven_digits to_numeric mean true
                  raw_sites out r Hascii Hrun Hr)).
Defined.

(** The cleaned sample file: Alpha is site 1 and Beta is site 2. *)
Lemma cleaned_sites_are_indexed_witness :
  ∃ out,
    snd (run_cleanup_sitedata to_numeric mean true raw_sites) = Ok out
    ∧ (λ r, (Index_ID r, Site r)) <$> out
      = [(1, Some "Alpha"); (2, Some "Beta")]
    ∧ NoDup ((λ r, astype_str (CInt (Index_ID r))) <$> out)
    ∧ NoDup (Site <$> out).
Proof.
  destruct (snd (run_cleanup_sitedata to_numeric mean true raw_sites))
    as [out|e] eqn:Hrun; [|by vm_compute in Hrun].
  exists out. split; [done|]. split.
  { vm_compute in Hrun. by injection Hrun as <-. }
  destruct (cleaned_sites_are_indexed to_numeric mean true raw_sites out Hrun)
    as (_ & _ & Hids & Hsites & _).
  by split.
Defined.

(** The block-group identifier of the second row of Beta stops the run,
    although the row is a duplicate. *)
Lemma cleanup_outcome_witness :
  ascii_columns raw_sites_long
  ∧ ascii_fips raw_sites_long
  ∧ snd (run_cleanup_sitedata to_numeric mean true raw_sites_long)
    = Raise invalid_padded_fips.
Proof.
  assert (Hcols : ascii_columns raw_sites_long).
  { assert (Forall (λ c, is_ascii c = true) (columns raw_sites_long))
      as Hall by by_computation.
    exact (proj1 (Forall_forall _ _) Hall). }
  assert (Hfips : ascii_fips raw_sites_long).
  { assert (Forall (λ x, from_option is_ascii true (raw_FIPS x) = true)
              (raw_rows raw_sites_long)) as Hall by by_computation.
    exact (proj1 (Forall_forall _ _) Hall). }
  split; [exact Hcols|]. split; [exact Hfips|].
  refine (proj1 (proj2 (proj2 (cleanup_outcome to_numeric mean
                                  raw_sites_long Hcols Hfips))) _ _ _).
  - apply (proj1 (Forall_forall
                    (λ c, c ∈ Geofence.strip <$> columns raw_sites_long) _)).
    by_computation.
  - apply (proj1 (Forall_forall (λ x, all_digits (raw_fips x) = true) _)).
    by_computation.
  - intros Hw.
    specialize (Hw (raw_row "Beta" (Some "4") "360610001001")).
    assert (String.length
              (raw_fips (raw_row "Beta" (Some "4") "360610001001")) ≤ 11)%nat
      as Hle by (apply Hw; right; left).
    vm_compute in Hle. lia.
Defined.

(** The row of Beta in the cleaned sample file comes from the first row of
    Beta, with its 10 stalls. *)
Lemma cleaned_row_is_first_of_its_name_witness :
  ∃ out r,
    snd (run_cleanup_sitedata to_numeric mean true raw_sites) = Ok out
    ∧ r ∈ out ∧ Site r = Some "Beta"
    ∧ ∃ before raw after,
        raw_rows raw_sites = before ++ raw :: after
        ∧ (∀ x, x ∈ before → raw_Site x ≠ Site r)
        ∧ Full_FIPS r = zfill 11 (Geofence.strip (str_cell (raw_FIPS raw))).
Proof.
  destruct (snd (run_cleanup_sitedata to_numeric mean true raw_sites))
    as [out|e] eqn:Hrun; [|by vm_compute in Hrun].
  assert (∃ r, r ∈ out ∧ Site r = Some "Beta") as (r & Hr & Hsite).
  { vm_compute in Hrun. injection Hrun as <-.
    eexists. split; [right; left|]. reflexivity. }
  exists out, r. split; [done|]. split; [exact Hr|]. split; [exact Hsite|].
  destruct (cleaned_row_is_first_of_its_name to_numeric mean true raw_sites
              out r Hrun Hr)
    as (before & raw & after & Hrows & Hb & _ & _ & _ & _ & _ & _ & Hf & _).
  by exists before, raw, after.
Defined.

Import ChangeDetection.

(** The signature of the sample geofence folder: the two geofence files,
    the later of their times. *)
Lemma folder_signature_lists_included_files_witness :
  ∃ s, _folder_signature Z.le 0 "data/geofence-data" (dir geofence_folder)
         [".kml"; ".kmz"] = inr s
    ∧ rel_path <$> files s = ["a.KMZ"; "zones/b.kml"]
    ∧ file_count s = 2%nat
    ∧ latest_mtime_epoch s = 70.
Proof.
  destruct (folder_signature_lists_included_files Z.le 0
              "data/geofence-data" geofence_folder [".kml"; ".kmz"])
    as (s & Hs & _ & _ & Hcount & _).
  exists s. split; [exact Hs|].
  vm_compute in Hs. injection Hs as <-. by vm_compute.
Defined.

(** Listing the sample folder in another order and changing its text file
    leaves the signature as it is. *)
Lemma folder_signature_tracks_included_files_witness :
  _folder_signature Z.le 0 "data/geofence-data" (dir geofence_folder)
    [".kml"; ".kmz"]
  = _folder_signature Z.le 0 "data/geofence-data"
      (dir geofence_folder_touched) [".kml"; ".kmz"].
Proof.
  refine (proj1 (folder_signature_tracks_included_files Z.le 0
                   "data/geofence-data" geofence_folder
                   geofence_folder_touched [".kml"; ".kmz"]) _ _).
  - by_computation.
  - vm_compute. apply perm_swap.
Defined.

(** A first run on the sample inputs stores the fingerprint; the next run
    starts no refresh. *)
Lemma unchanged_inputs_are_skipped_witness :
  ∃ r1,
    main Z.le 0 None "2026-01-01T00:00:00Z" watched_inputs 0 = inr r1
    ∧ refresh_started r1 = true
    ∧ main Z.le 0 (stored_after r1) "2026-01-02T00:00:00Z" watched_inputs 0
      = inr {| stored_after := stored_after r1;
               exit_code := 0;
               refresh_started := false |}.
Proof.
  destruct (main Z.le 0 None "2026-01-01T00:00:00Z" watched_inputs 0)
    as [e|r1] eqn:Hrun; [by vm_compute in Hrun|].
  exists r1. split; [done|]. split.
  { vm_compute in Hrun. by injection Hrun as <-. }
  exact (unchanged_inputs_are_skipped Z.le 0 None "2026-01-01T00:00:00Z"
           "2026-01-02T00:00:00Z" watched_inputs 0 r1 Hrun).
Defined.

(** A first run whose refresh fails with exit code 2 stores nothing and
    ends with exit code 2. *)
Lemma failed_refresh_is_retried_witness :
  ∃ r,
    main Z.le 0 None "2026-01-01T00:00:00Z" watched_inputs 2 = inr r
    ∧ refresh_started r = true
    ∧ stored_after r = None
    ∧ exit_code r = 2.
Proof.
  destruct (main Z.le 0 None "2026-01-01T00:00:00Z" watched_inputs 2)
    as [e|r] eqn:Hrun; [by vm_compute in Hrun|].
  exists r. split; [done|].
  destruct (failed_refresh_is_retried Z.le 0 "2026-01-01T00:00:00Z"
              watched_inputs 2) as (Hfirst & Hfail & _).
  assert (refresh_started r = true) as Hstarted by exact (Hfirst r Hrun).
  destruct (Hfail None r ltac:(lia) Hrun) as [Hstored Hcode].
  split; [exact Hstarted|]. split; [exact Hstored|]. exact (Hcode Hstarted).
Defined.

End more_samples.

(** ** Step 3.3: the loaded layers *)

Section load_facts.
Import Interactions InteractionsLoad.
Context `{GeoEngine} {degrees : Type}.
Context (site_at : degrees → degrees → site_point).
Context (tract_to_crs : tract_shape → tract_shape).

Lemma exists_iff_filter_ne {A} (P : A → Prop) `{∀ x, Decision (P x)}
    (l : list A) :
  (∃ x, x ∈ l ∧ P x) ↔ length (filter P l) ≠ 0%nat.
Proof.
  split.
  - intros (x & Hx & HP) Hlen.
    assert (x ∈ filter P l) as Hin by by apply list_elem_of_filter.
    destruct (filter P l); [by apply elem_of_nil in Hin|done].
  - destruct (filter P l) as [|x l'] eqn:Hf; [done|]. intros _.
    assert (x ∈ filter P l) as [? ?]%list_elem_of_filter
      by (rewrite Hf; by left).
    by exists x.
Qed.

Lemma index_populated (rows : list (@site_row degrees)) :
  forallb (λ s, bool_decide (row_Index_ID s = None)) rows = false
  ↔ ∃ s, s ∈ rows ∧ is_Some (row_Index_ID s).
Proof.
  induction rows as [|s rows IH]; simpl.
  - split; [done|]. by intros (s & ?%elem_of_nil & _).
  - case_bool_decide as Hs; simpl.
    + rewrite IH. split.
      * intros (s' & ? & ?). exists s'. split; [by right|done].
      * intros (s' & [->|?]%elem_of_cons & Hsome); [|by exists s'].
        rewrite Hs in Hsome. by destruct Hsome.
    + split; [|done]. intros _. exists s. split; [by left|].
      by destruct (row_Index_ID s).
Qed.

Lemma length_omap_total {A B} (f : A → option B) (l : list A) :
  (∀ x, x ∈ l → is_Some (f x)) → length (omap f l) = length l.
Proof.
  induction l as [|x l IH]; intros Hf; [done|]. cbn.
  destruct (Hf x) as [y ->]; [by left|]. cbn. f_equal.
  apply IH. intros; apply Hf; by right.
Qed.

Lemma length_project_sites (rows : list (@site_row degrees)) :
  length (project_sites site_at (filter has_coordinates rows))
  = length (filter has_coordinates rows).
Proof.
  apply length_omap_total.
  intros s [[[lat Hlat] [lon Hlon]] _]%list_elem_of_filter.
  by rewrite Hlat, Hlon.
Qed.

Lemma length_project_tracts (rows : list tract_row) :
  length (project_tracts tract_to_crs (filter (λ t, ¬ empty_geom t) rows))
  = length (filter (λ t, ¬ empty_geom t) rows).
Proof.
  apply length_omap_total.
  intros t [Ht _]%list_elem_of_filter. unfold empty_geom in Ht.
  by destruct (row_geometry t).
Qed.

Lemma load_layers_Ok inp sites tracts :
  snd (load_layers site_at tract_to_crs inp) = Ok (sites, tracts) →
  sites_file_exists inp = true ∧ tracts_file_exists inp = true
  ∧ (∀ c, c ∈ ["Index_ID"; "Latitude"; "Longitude"] → c ∈ site_columns inp)
  ∧ "GEOID" ∈ tract_columns inp ∧ "geometry" ∈ tract_columns inp
  ∧ tracts_crs_defined inp = true
  ∧ (∃ s, s ∈ site_rows inp ∧ is_Some (row_Index_ID s))
  ∧ sites = project_sites site_at (filter has_coordinates (site_rows inp))
  ∧ tracts = project_tracts tract_to_crs
               (filter (λ t, ¬ empty_geom t) (tract_rows inp))
  ∧ length (filter has_coordinates (site_rows inp)) ≠ 0%nat
  ∧ length (filter (λ t, ¬ empty_geom t) (tract_rows inp)) ≠ 0%nat.
Proof.
  unfold load_layers.
  destruct (sites_file_exists inp); [|done].
  destruct (tracts_file_exists inp); [|done]. cbn [negb]. cbv zeta.
  destruct (filter _ ["Index_ID"; "Latitude"; "Longitude"]) as [|c cs] eqn:Hc;
    [|done].
  destruct (forallb _ (site_rows inp)) eqn:Hidx; [done|].
  case_decide as Hsites; [done|].
  case_bool_decide as Hgeoid; [done|].
  case_bool_decide as Hgeom; [done|].
  destruct (tracts_crs_defined inp); [|done]. cbn [negb].
  case_decide as Htracts; [done|]. cbn [snd]. intros [= <- <-].
  do 2 (split; [done|]). split.
  { intros c' Hc'. destruct (decide (c' ∈ site_columns inp)); [done|].
    assert (c' ∈ filter (λ c, c ∉ site_columns inp)
                   ["Index_ID"; "Latitude"; "Longitude"]) as Hin
      by by apply list_elem_of_filter.
    rewrite Hc in Hin. by apply elem_of_nil in Hin. }
  do 3 (split; [done|]). split; [by apply index_populated|]. done.
Qed.

(** X26. The two layers are loaded exactly when both files are there with
    their columns, the tract layer has a reference system, some site row has
    an identifier, some site row has both coordinates, and some tract has a
    geometry that is not empty.  The site layer then has one site for every
    row with both coordinates, whether the row has an identifier or not: the
    check on [Index_ID] asks for one identifier in the whole file.  The
    tract layer has the tracts with a geometry that is not empty. *)
Theorem layers_are_loaded_iff inp :
  let r := snd (load_layers site_at tract_to_crs inp) in
  ((∃ layers, r = Ok layers) ↔
     sites_file_exists inp = true ∧ tracts_file_exists inp = true
     ∧ (∀ c, c ∈ ["Index_ID"; "Latitude"; "Longitude"] →
             c ∈ site_columns inp)
     ∧ "GEOID" ∈ tract_columns inp ∧ "geometry" ∈ tract_columns inp
     ∧ tracts_crs_defined inp = true
     ∧ (∃ s, s ∈ site_rows inp ∧ is_Some (row_Index_ID s))
     ∧ (∃ s, s ∈ site_rows inp ∧ has_coordinates s)
     ∧ (∃ t, t ∈ tract_rows inp ∧ ¬ empty_geom t))
  ∧ (∀ sites tracts, r = Ok (sites, tracts) →
       length sites = length (filter has_coordinates (site_rows inp))
       ∧ length tracts
         = length (filter (λ t, ¬ empty_geom t) (tract_rows inp))
       ∧ (∀ s lat lon, s ∈ site_rows inp →
            row_Latitude s = Some lat → row_Longitude s = Some lon →
            {| Index_ID := row_Index_ID s; site_geometry := site_at lon lat |}
            ∈ sites)
       ∧ (∀ t, t ∈ tracts →
            ∃ row g, row ∈ tract_rows inp ∧ row_geometry row = Some g
              ∧ tract_is_empty g ≠ true
              ∧ t = {| GEOID := row_GEOID row;
                       geometry := tract_to_crs g |})).
Proof.
  intros r. split.
  - split.
    + intros [[sites tracts] Hr]. unfold r in Hr.
      apply load_layers_Ok in Hr
        as (? & ? & ? & ? & ? & ? & ? & _ & _ & Hs & Ht).
      do 7 (split; [done|]). split.
      * by apply (exists_iff_filter_ne has_coordinates).
      * by apply (exists_iff_filter_ne (λ t, ¬ empty_geom t)).
    + intros (Hsf & Htf & Hcols & Hgeoid & Hgeom & Hcrs & Hidx & Hs & Ht).
      unfold r, load_layers. rewrite Hsf, Htf, Hcrs. cbn [negb]. cbv zeta.
      rewrite (filter_none (λ c, c ∉ site_columns inp))
        by (intros c Hc Hno; by apply Hno, Hcols).
      rewrite (proj2 (index_populated (site_rows inp)) Hidx).
      rewrite decide_False
        by by apply (exists_iff_filter_ne has_coordinates).
      rewrite !bool_decide_false by (intros Hno; by apply Hno).
      rewrite decide_False
        by by apply (exists_iff_filter_ne (λ t, ¬ empty_geom t)).
      by eexists.
  - intros sites tracts Hr. unfold r in Hr.
    apply load_layers_Ok in Hr
      as (_ & _ & _ & _ & _ & _ & _ & -> & -> & _ & _).
    split; [apply length_project_sites|].
    split; [apply length_project_tracts|]. split.
    + intros s lat lon Hs Hlat Hlon. unfold project_sites.
      apply list_elem_of_omap. exists s. split.
      * apply list_elem_of_filter. split; [|done].
        split; [by rewrite Hlat|by rewrite Hlon].
      * by rewrite Hlat, Hlon.
    + intros t Ht. unfold project_tracts in Ht.
      apply list_elem_of_omap in Ht as (row & Hrow & Hsome).
      apply list_elem_of_filter in Hrow as [Hne Hrow].
      unfold empty_geom in Hne.
      destruct (row_geometry row) as [g|] eqn:Hg; [|done].
      simpl in Hsome. injection Hsome as <-. by exists row, g.
Qed.

End load_facts.

Section load_samples.
Import LineGeometry Interactions InteractionsLoad LoadExamples.

(** The sample layers are loaded, and the one site of the site layer has no
    identifier. *)
Lemma layers_are_loaded_iff_witness :
  ∃ sites tracts,
    snd (load_layers site_on_line same_shape layer_inputs) = Ok (sites, tracts)
    ∧ length sites = 1%nat
    ∧ {| Index_ID := None; site_geometry := inject_Z 12 |} ∈ sites.
Proof.
  destruct (snd (load_layers site_on_line same_shape layer_inputs))
    as [[sites tracts]|e] eqn:Hload; [|by vm_compute in Hload].
  exists sites, tracts. split; [done|].
  destruct (proj2 (layers_are_loaded_iff site_on_line same_shape layer_inputs)
              sites tracts Hload) as (Hlen & _ & Hsites & _).
  split; [by rewrite Hlen|].
  refine (Hsites {| row_Index_ID := None;
                    row_Latitude := Some (inject_Z 0);
                    row_Longitude := Some (inject_Z 12) |}
            (inject_Z 0) (inject_Z 12) _ eq_refl eq_refl).
  right; left.
Defined.

End load_samples.
